(** * project-dashboard: the task store and its broadcasts

    A shallow embedding of [src/realtime-server.js] (the PostgreSQL +
    Socket.io server): the two task stores, the POST /api/tasks and
    /api/status handlers, the broadcaster and the three realtime task
    handlers, with the properties the specification states about them;
    then start-up, the remaining endpoints and relays and the two earlier
    servers the file holds, with properties read off the code. *)

From Stdlib Require Import ZArith String Ascii List Bool Lia.
From stdpp Require Import base option list gmap strings pretty sorting.

Local Open Scope string_scope.
Local Open Scope list_scope.
Local Open Scope Z_scope.

#[local] Set Warnings "-clear-no-such-hyp".

(** ** JavaScript values

    A request body is what [JSON.parse] returns.  The fields of a task are
    JSON scalars; a number is an integer (fractions, [NaN] and the numbers
    beyond the exact integer range of a double are not represented) and
    nested arrays or objects inside a task are left out.  A property read
    yields [option json]: [None] is JavaScript's [undefined]. *)

Inductive json : Type :=
  | JNull
  | JBool (b : bool)
  | JNum (n : Z)
  | JStr (s : string).

#[global] Instance json_eq_dec : EqDecision json.
Proof. solve_decision. Defined.

(** A task object: property name to value.  [{...a, ...b}] is [b ∪ a]
    (stdpp's union keeps the left operand's binding) and [{...a, k: v}] is
    [<[k:=v]> a]. *)
Abbreviation obj := (gmap string json).

(** [ToBoolean]. *)
Definition truthy (v : option json) : bool :=
  match v with
  | None | Some JNull => false
  | Some (JBool b) => b
  | Some (JNum n) => negb (n =? 0)
  | Some (JStr s) => negb (bool_decide (s = ""))
  end.

(** [a || b] on values. *)
Definition js_or (a : option json) (b : json) : json :=
  if truthy a then default b a else b.

(** [a === b]: same type and same value (there is no [NaN] here). *)
Definition strict_eq (a b : option json) : bool := bool_decide (a = b).

Definition is_digit (c : ascii) : bool :=
  (48 <=? nat_of_ascii c)%nat && (nat_of_ascii c <=? 57)%nat.

Fixpoint digits_value (acc : Z) (s : string) : option Z :=
  match s with
  | EmptyString => Some acc
  | String c s' =>
      if is_digit c
      then digits_value (10 * acc + Z.of_nat (nat_of_ascii c - 48)) s'
      else None
  end.

(** A signed run of decimal digits, the text form of an integer. *)
Definition decimal_literal (s : string) : option Z :=
  match s with
  | EmptyString => None
  | String "-" EmptyString | String "+" EmptyString => None
  | String "-" s' => Z.opp <$> digits_value 0 s'
  | String "+" s' => digits_value 0 s'
  | _ => digits_value 0 s
  end.

(** The value of a JavaScript number as far as the code looks at it:
    [Decimal m e] is [m × 10^e]. *)
Inductive number : Type :=
  | NaN
  | Infinity (negative : bool)
  | Decimal (m e : Z).

Definition byte_is (n : nat) (c : ascii) : bool := (nat_of_ascii c =? n)%nat.

(** White space and line terminators of one byte: TAB, LF, VT, FF, CR and
    the space. *)
Definition is_blank (c : ascii) : bool :=
  ((9 <=? nat_of_ascii c)%nat && (nat_of_ascii c <=? 13)%nat) || byte_is 32 c.

(** The other characters of [StrWhiteSpaceChar] in their UTF-8 bytes:
    U+00A0; U+1680; U+2000 to U+200A, U+2028, U+2029, U+202F; U+205F;
    U+3000; U+FEFF. *)
Definition wide_space2 (a b : ascii) : bool := byte_is 194 a && byte_is 160 b.

Definition wide_space3 (a b c : ascii) : bool :=
  (byte_is 225 a && byte_is 154 b && byte_is 128 c) ||
  (byte_is 226 a && byte_is 128 b &&
     (((128 <=? nat_of_ascii c)%nat && (nat_of_ascii c <=? 138)%nat) ||
      byte_is 168 c || byte_is 169 c || byte_is 175 c)) ||
  (byte_is 226 a && byte_is 129 b && byte_is 159 c) ||
  (byte_is 227 a && byte_is 128 b && byte_is 128 c) ||
  (byte_is 239 a && byte_is 187 b && byte_is 191 c).

Fixpoint skip_space (s : string) : string :=
  match s with
  | EmptyString => EmptyString
  | String a s1 =>
      if is_blank a then skip_space s1
      else
        match s1 with
        | EmptyString => s
        | String b s2 =>
            if wide_space2 a b then skip_space s2
            else
              match s2 with
              | EmptyString => s
              | String c s3 => if wide_space3 a b c then skip_space s3 else s
              end
        end
  end.

(** A run of digits in base [base] read off the front of a string: how
    many there were, their value, and what follows. *)
Definition digit_in (base : Z) (c : ascii) : option Z :=
  let n := Z.of_nat (nat_of_ascii c) in
  let d := if (48 <=? n) && (n <=? 57) then Some (n - 48)
           else if (97 <=? n) && (n <=? 102) then Some (n - 87)
           else if (65 <=? n) && (n <=? 70) then Some (n - 55)
           else None in
  match d with
  | Some d => if d <? base then Some d else None
  | None => None
  end.

Fixpoint take_digits (base : Z) (count : nat) (acc : Z) (s : string) : nat * Z * string :=
  match s with
  | EmptyString => (count, acc, s)
  | String c s' =>
      match digit_in base c with
      | Some d => take_digits base (S count) (base * acc + d) s'
      | None => (count, acc, s)
      end
  end.

(** [ExponentPart], when one is there: the exponent and what follows. *)
Definition take_exponent (s : string) : option (Z * string) :=
  match s with
  | String c s1 =>
      if byte_is 101 c || byte_is 69 c then
        let '(negative, s2) :=
          match s1 with
          | String "-" s2 => (true, s2)
          | String "+" s2 => (false, s2)
          | _ => (false, s1)
          end in
        let '(count, x, rest) := take_digits 10 O 0 s2 in
        if (count =? 0)%nat then None
        else Some (if negative : bool then - x else x, rest)
      else None
  | EmptyString => None
  end.

(** [StrUnsignedDecimalLiteral] off the front of a string, [Infinity]
    apart: digits, a fraction and an exponent, with at least one digit
    before the exponent. *)
Definition take_decimal (s : string) : option (Z * Z * string) :=
  let '(whole, m, s1) := take_digits 10 O 0 s in
  let '(fraction, m, s2) :=
    match s1 with
    | String "." s2 => let '(count, m', s3) := take_digits 10 O m s2 in (count, m', s3)
    | _ => (O, m, s1)
    end in
  if (whole + fraction =? 0)%nat then None
  else
    match take_exponent s2 with
    | Some (x, s3) => Some (m, x - Z.of_nat fraction, s3)
    | None => Some (m, - Z.of_nat fraction, s2)
    end.

(** [0x], [0o] and [0b] literals, which take no sign. *)
Definition take_prefixed (s : string) : option (Z * string) :=
  match s with
  | String "0" (String c s') =>
      let base := if byte_is 120 c || byte_is 88 c then 16
                  else if byte_is 111 c || byte_is 79 c then 8
                  else if byte_is 98 c || byte_is 66 c then 2
                  else 0 in
      if base =? 0 then None
      else let '(count, v, rest) := take_digits base O 0 s' in
           if (count =? 0)%nat then None else Some (v, rest)
  | _ => None
  end.

(** [StringToNumber]: white space around a numeric literal, and nothing
    but white space is zero. *)
Definition string_to_number (s : string) : number :=
  let s := skip_space s in
  if bool_decide (s = "") then Decimal 0 0
  else
    match take_prefixed s with
    | Some (v, rest) => if bool_decide (skip_space rest = "") then Decimal v 0 else NaN
    | None =>
        let '(negative, body) :=
          match s with
          | String "-" s' => (true, s')
          | String "+" s' => (false, s')
          | _ => (false, s)
          end in
        if String.prefix "Infinity" body then
          if bool_decide (skip_space (String.substring 8 (String.length body - 8) body) = "")
          then Infinity negative else NaN
        else
          match take_decimal body with
          | Some (m, e, rest) =>
              if bool_decide (skip_space rest = "")
              then Decimal (if negative : bool then - m else m) e else NaN
          | None => NaN
          end
    end.

(** [ToNumber]. *)
Definition to_number (v : option json) : number :=
  match v with
  | None => NaN
  | Some JNull => Decimal 0 0
  | Some (JBool b) => Decimal (if b then 1 else 0) 0
  | Some (JNum n) => Decimal n 0
  | Some (JStr s) => string_to_number s
  end.

(** [v > 0].  A decimal of no more than half the least positive double
    ([2^-1075]) is rounded to zero. *)
Definition js_gt0 (v : option json) : bool :=
  match to_number v with
  | NaN => false
  | Infinity negative => negb negative
  | Decimal m e =>
      (0 <? m) && ((0 <=? e) || (10 ^ (- e) <? m * 2 ^ 1075))
  end.

(** [String(v)], as a template literal interpolates it. *)
Definition to_display (v : option json) : string :=
  match v with
  | None => "undefined"
  | Some JNull => "null"
  | Some (JBool b) => if b then "true" else "false"
  | Some (JNum n) => pretty n
  | Some (JStr s) => s
  end.

(** Strings are the UTF-8 bytes of the text; case folding is the ASCII
    one, which is all that matters for matching the two ASCII aliases. *)
Definition lower_ascii (c : ascii) : ascii :=
  let n := nat_of_ascii c in
  if (65 <=? n)%nat && (n <=? 90)%nat then ascii_of_nat (n + 32) else c.

Fixpoint toLowerCase (s : string) : string :=
  match s with
  | EmptyString => EmptyString
  | String c s' => String (lower_ascii c) (toLowerCase s')
  end.

(** [s.includes(t)]. *)
Fixpoint includes (s t : string) : bool :=
  String.prefix t s ||
  match s with
  | EmptyString => false
  | String _ s' => includes s' t
  end.

(** ** The relational store

    The [tasks] table of [initDatabase]:
    [id SERIAL PRIMARY KEY, title VARCHAR(500) NOT NULL, description TEXT,
     column_name VARCHAR(50) DEFAULT 'backlog', tag VARCHAR(50),
     assignee VARCHAR(100), priority VARCHAR(20), emoji VARCHAR(10),
     due_date VARCHAR(20), created_at BIGINT, updated_at BIGINT].
    A nullable column is an [option]. *)

Record Row : Type := mkRow {
  r_id : Z;
  r_title : string;
  r_description : option string;
  r_column_name : option string;
  r_tag : option string;
  r_assignee : option string;
  r_priority : option string;
  r_emoji : option string;
  r_due_date : option string;
  r_created_at : option Z;
  r_updated_at : option Z
}.

(** The table in storage order, and the next value of the sequence behind
    the [SERIAL] column. *)
Record Db : Type := mkDb {
  rows : list Row;
  tasks_id_seq : Z
}.

Inductive column : Type :=
  | c_title | c_description | c_column_name | c_tag | c_assignee
  | c_priority | c_emoji | c_due_date | c_created_at | c_updated_at.

#[global] Instance column_eq_dec : EqDecision column.
Proof. solve_decision. Defined.

Inductive sqltype : Type := Varchar (n : nat) | Text | Bigint.

Definition column_type (c : column) : sqltype :=
  match c with
  | c_title => Varchar 500
  | c_description => Text
  | c_column_name => Varchar 50
  | c_tag => Varchar 50
  | c_assignee => Varchar 100
  | c_priority => Varchar 20
  | c_emoji => Varchar 10
  | c_due_date => Varchar 20
  | c_created_at | c_updated_at => Bigint
  end.

(** A value once the server has read it into a column's type. *)
Inductive datum : Type := DNull | DText (s : string) | DInt (z : Z).

Definition int4_max : Z := 2147483647.
Definition int8_max : Z := 9223372036854775807.

(** How the driver hands a JavaScript value over as text ([null] and
    [undefined] become SQL NULL), for a character column. *)
Definition pg_text (v : option json) : option string :=
  match v with
  | None | Some JNull => None
  | Some (JBool b) => Some (if b then "true" else "false")
  | Some (JNum n) => Some (pretty n)
  | Some (JStr s) => Some s
  end.

(** The blanks the server skips around an integer. *)
Fixpoint drop_blanks (s : string) : string :=
  match s with
  | EmptyString => EmptyString
  | String c s' => if is_blank c then drop_blanks s' else s
  end.

Fixpoint drop_blanks_end (s : string) : string :=
  match s with
  | EmptyString => EmptyString
  | String c s' =>
      let rest := drop_blanks_end s' in
      if is_blank c && bool_decide (rest = "") then EmptyString else String c rest
  end.

(** The same for an integer column or parameter bounded by [bound]:
    [None] is a rejected input, [Some None] is NULL.  A number travels as
    its decimal text and is read back as itself; a string is read as
    decimal digits with a sign before them and blanks around them, the
    form every version of the server reads. *)
Definition pg_int (bound : Z) (v : option json) : option (option Z) :=
  match v with
  | None | Some JNull => Some None
  | Some (JBool _) => None
  | Some (JNum n) => if (- bound - 1 <=? n) && (n <=? bound) then Some (Some n) else None
  | Some (JStr s) =>
      match decimal_literal (drop_blanks_end (drop_blanks s)) with
      | Some n => if (- bound - 1 <=? n) && (n <=? bound) then Some (Some n) else None
      | None => None
      end
  end.

Fixpoint all_spaces (s : string) : bool :=
  match s with
  | EmptyString => true
  | String c s' => bool_decide (c = " "%char) && all_spaces s'
  end.

(** Characters of a UTF-8 text: every byte that does not continue a
    character begins one. *)
Definition continues (c : ascii) : bool :=
  (128 <=? nat_of_ascii c)%nat && (nat_of_ascii c <? 192)%nat.

Fixpoint characters (s : string) : nat :=
  match s with
  | EmptyString => O
  | String c s' => if continues c then characters s' else S (characters s')
  end.

(** The first [n] characters of a text, and the rest. *)
Fixpoint split_characters (n : nat) (s : string) : string * string :=
  match s with
  | EmptyString => (EmptyString, EmptyString)
  | String c s' =>
      if continues c then
        let '(a, b) := split_characters n s' in (String c a, b)
      else
        match n with
        | O => (EmptyString, s)
        | S n' => let '(a, b) := split_characters n' s' in (String c a, b)
        end
  end.

(** Storing into [VARCHAR(n)], [n] characters: an over-long text is an
    error unless the excess is blank, which is cut off. *)
Definition varchar_in (n : nat) (s : string) : option string :=
  if (characters s <=? n)%nat then Some s
  else
    let '(kept, excess) := split_characters n s in
    if all_spaces excess then Some kept else None.

(** A character value may not hold the zero byte. *)
Fixpoint has_nul (s : string) : bool :=
  match s with
  | EmptyString => false
  | String c s' => bool_decide (c = "000"%char) || has_nul s'
  end.

(** Reading a bound parameter into the type of column [c]; [None] when the
    server rejects it. *)
Definition coerce (c : column) (v : option json) : option datum :=
  match column_type c with
  | Varchar n =>
      match pg_text v with
      | None => Some DNull
      | Some s => if has_nul s then None else DText <$> varchar_in n s
      end
  | Text =>
      match pg_text v with
      | None => Some DNull
      | Some s => if has_nul s then None else Some (DText s)
      end
  | Bigint => from_option DInt DNull <$> pg_int int8_max v
  end.

Definition text_of (d : datum) : option (option string) :=
  match d with DNull => Some None | DText s => Some (Some s) | DInt _ => None end.

Definition int_of (d : datum) : option (option Z) :=
  match d with DNull => Some None | DInt z => Some (Some z) | DText _ => None end.

(** Writing a datum into a row; [None] when a constraint of the table
    forbids it ([title] is NOT NULL). *)
Definition store (c : column) (d : datum) (r : Row) : option Row :=
  let '(mkRow i t de co ta a p e du cr up) := r in
  match c with
  | c_title =>
      match d with DText s => Some (mkRow i s de co ta a p e du cr up) | _ => None end
  | c_description => (λ x, mkRow i t x co ta a p e du cr up) <$> text_of d
  | c_column_name => (λ x, mkRow i t de x ta a p e du cr up) <$> text_of d
  | c_tag => (λ x, mkRow i t de co x a p e du cr up) <$> text_of d
  | c_assignee => (λ x, mkRow i t de co ta x p e du cr up) <$> text_of d
  | c_priority => (λ x, mkRow i t de co ta a x e du cr up) <$> text_of d
  | c_emoji => (λ x, mkRow i t de co ta a p x du cr up) <$> text_of d
  | c_due_date => (λ x, mkRow i t de co ta a p e x cr up) <$> text_of d
  | c_created_at => (λ x, mkRow i t de co ta a p e du x up) <$> int_of d
  | c_updated_at => (λ x, mkRow i t de co ta a p e du cr x) <$> int_of d
  end.

(** A [SET] list, or the column list of an [INSERT], applied left to right. *)
Fixpoint store_all (sets : list (column * datum)) (r : Row) : option Row :=
  match sets with
  | [] => Some r
  | (c, d) :: sets' =>
      match store c d r with
      | Some r' => store_all sets' r'
      | None => None
      end
  end.

Fixpoint coerce_all (sets : list (column * option json)) : option (list (column * datum)) :=
  match sets with
  | [] => Some []
  | (c, v) :: sets' =>
      match coerce c v, coerce_all sets' with
      | Some d, Some ds => Some ((c, d) :: ds)
      | _, _ => None
      end
  end.

(** Whether a [SET] list names some column twice. *)
Fixpoint repeated_column (cs : list column) : bool :=
  match cs with
  | [] => false
  | c :: cs' => bool_decide (c ∈ cs') || repeated_column cs'
  end.

Fixpoint update_rows (n : Z) (sets : list (column * datum)) (rs : list Row)
  : option (list Row) :=
  match rs with
  | [] => Some []
  | r :: rs' =>
      match (if r_id r =? n then store_all sets r else Some r), update_rows n sets rs' with
      | Some r', Some rs'' => Some (r' :: rs'')
      | _, _ => None
      end
  end.

(** [UPDATE tasks SET <sets> WHERE id = <idv>].  The server refuses a
    statement that assigns one column twice ("multiple assignments to same
    column"), whatever the rows; a parameter it cannot read into its
    column's type is refused as well; NOT NULL is checked on the rows that
    match.  A refused statement ([None]) changes nothing. *)
Definition exec_update (sets : list (column * option json)) (idv : option json)
    (db : Db) : option Db :=
  if repeated_column sets.*1 then None
  else
    match coerce_all sets, pg_int int4_max idv with
    | Some ds, Some (Some n) =>
        (λ rs, mkDb rs (tasks_id_seq db)) <$> update_rows n ds (rows db)
    | Some ds, Some None => Some db
    | _, _ => None
    end.

Definition insert_columns : list column :=
  [c_title; c_description; c_column_name; c_tag; c_assignee;
   c_priority; c_emoji; c_due_date; c_created_at; c_updated_at].

(** The row an [INSERT] starts from: the next sequence value as [id], the
    column default for [column_name], NULL elsewhere ([title] is always in
    the column list, so its placeholder never reaches the table). *)
Definition blank_row (i : Z) : Row :=
  mkRow i "" None (Some "backlog") None None None None None None None.

(** [INSERT INTO tasks (<insert_columns>) VALUES (<vals>)].  The sequence
    hands out the id; the [SERIAL] column is a 32-bit integer. *)
Definition exec_insert (vals : list (option json)) (db : Db) : option Db :=
  if negb (length vals =? length insert_columns)%nat then None
  else if int4_max <? tasks_id_seq db then None
  else
    match coerce_all (zip insert_columns vals) with
    | Some ds =>
        (λ r, mkDb (rows db ++ [r]) (tasks_id_seq db + 1))
          <$> store_all ds (blank_row (tasks_id_seq db))
    | None => None
    end.

(** What a refused [INSERT] leaves behind.  A parameter the server cannot
    read into its column, or a text too long for it, stops the statement
    before it runs, and the table is as it was.  Otherwise the statement
    runs: the row is built, [id] from the sequence, and only then refused
    for a NULL [title]; the value the sequence handed out is gone. *)
Definition insert_refused (vals : list (option json)) (db : Db) : Db :=
  if (length vals =? length insert_columns)%nat
     && (tasks_id_seq db <=? int4_max)
     && bool_decide (is_Some (coerce_all (zip insert_columns vals)))
  then mkDb (rows db) (tasks_id_seq db + 1)
  else db.

(** [DELETE FROM tasks WHERE id = <idv>]. *)
Definition exec_delete (idv : option json) (db : Db) : option Db :=
  match pg_int int4_max idv with
  | Some (Some n) =>
      Some (mkDb (filter (λ r, r_id r ≠ n) (rows db)) (tasks_id_seq db))
  | Some None => Some db
  | None => None
  end.

(** [ORDER BY id DESC], by insertion. *)
Fixpoint insert_desc (r : Row) (rs : list Row) : list Row :=
  match rs with
  | [] => [r]
  | r' :: rs' => if r_id r' <=? r_id r then r :: rs else r' :: insert_desc r rs'
  end.

Definition sort_desc (rs : list Row) : list Row := foldr insert_desc [] rs.

(** [SELECT * FROM tasks ORDER BY id DESC]. *)
Definition exec_select (db : Db) : list Row := sort_desc (rows db).

(** ** The process and its surroundings *)

(** What is in [tasks.json]: a task array as [saveTasksLocal] writes it, or
    text [JSON.parse] refuses.  The program writes nothing else there; a
    file edited by hand into some other JSON value is not represented. *)
Inductive FileContent : Type :=
  | TaskArray (tasks : list obj)
  | Unparsable.

(** The events the server pushes. *)
Inductive Event : Type :=
  | tasks_update (tasks : list obj) (timestamp : Z)
  | clawd_task (task : obj) (message : string) (timestamp : Z)
  | dev_status (payload : obj)
  | activity_broadcast (payload : obj).

(** The module state ([usePostgres], [io], [pgClient], [clients]), the file
    and the database behind them, the log of what was pushed (each entry
    with the sessions it went to), and the two things the code cannot
    decide: [clock] gives the k-th reading of [Date.now()] and [faults]
    tells whether the k-th call to the database or the file system
    throws.  A handler runs from the world it finds to the world it
    leaves; two requests taking turns at their [await]s are not
    modelled. *)
Record World : Type := mkWorld {
  usePostgres : bool;
  io : bool;
  pgClient : option Db;
  tasks_file : option FileContent;
  clients : gset string;
  sent : list (gset string * Event);
  clock : nat → Z;
  reads : nat;
  faults : nat → bool;
  calls : nat
}.

Definition set_pgClient (d : option Db) (w : World) : World :=
  mkWorld (usePostgres w) (io w) d (tasks_file w) (clients w) (sent w)
          (clock w) (reads w) (faults w) (calls w).
Definition set_tasks_file (f : option FileContent) (w : World) : World :=
  mkWorld (usePostgres w) (io w) (pgClient w) f (clients w) (sent w)
          (clock w) (reads w) (faults w) (calls w).
Definition set_sent (s : list (gset string * Event)) (w : World) : World :=
  mkWorld (usePostgres w) (io w) (pgClient w) (tasks_file w) (clients w) s
          (clock w) (reads w) (faults w) (calls w).
Definition set_reads (n : nat) (w : World) : World :=
  mkWorld (usePostgres w) (io w) (pgClient w) (tasks_file w) (clients w) (sent w)
          (clock w) n (faults w) (calls w).
Definition set_calls (n : nat) (w : World) : World :=
  mkWorld (usePostgres w) (io w) (pgClient w) (tasks_file w) (clients w) (sent w)
          (clock w) (reads w) (faults w) n.

(** A computation returns or throws, and leaves a world behind. *)
Inductive Res (A : Type) : Type :=
  | Ok (a : A)
  | Throw.
Arguments Ok {A} a.
Arguments Throw {A}.

Definition Eff (A : Type) : Type := World → Res A * World.

Definition eff_ret {A} (a : A) : Eff A := λ w, (Ok a, w).

Definition eff_bind {A B} (f : A → Eff B) (m : Eff A) : Eff B :=
  λ w, match m w with
       | (Ok a, w') => f a w'
       | (Throw, w') => (Throw, w')
       end.

#[global] Instance Eff_ret : MRet Eff := @eff_ret.
#[global] Instance Eff_bind : MBind Eff := @eff_bind.

(** [try { m } catch (e) { h }]. *)
Definition try_catch {A} (m : Eff A) (h : Eff A) : Eff A :=
  λ w, match m w with
       | (Ok a, w') => (Ok a, w')
       | (Throw, w') => h w'
       end.

Definition throw {A} : Eff A := λ w, (Throw, w).

Definition gets {A} (f : World → A) : Eff A := λ w, (Ok (f w), w).

(** [Date.now()]. *)
Definition Date_now : Eff Z :=
  λ w, (Ok (clock w (reads w)), set_reads (S (reads w)) w).

(** One call that leaves the process; it throws when the surroundings say
    so, and then it has changed nothing. *)
Definition external {A} (m : Eff A) : Eff A :=
  λ w, if faults w (calls w)
       then (Throw, set_calls (S (calls w)) w)
       else m (set_calls (S (calls w)) w).

(** [pgClient.query(...)]: reading [query] off a null client is a
    TypeError; a statement the server refuses rejects the promise. *)
Definition pg_query {A} (run : Db → option (A * Db)) : Eff A :=
  λ w, match pgClient w with
       | None => (Throw, w)
       | Some db =>
           external (λ w', match run db with
                           | Some (a, db') => (Ok a, set_pgClient (Some db') w')
                           | None => (Throw, w')
                           end) w
       end.

(** The same for a statement that leaves something behind when it is
    refused. *)
Definition pg_query_leaving {A} (run : Db → option (A * Db)) (refused : Db → Db)
  : Eff A :=
  λ w, match pgClient w with
       | None => (Throw, w)
       | Some db =>
           external (λ w', match run db with
                           | Some (a, db') => (Ok a, set_pgClient (Some db') w')
                           | None => (Throw, set_pgClient (Some (refused db)) w')
                           end) w
       end.

(** [io.emit(ev)]: to every connected socket.  The callers either test
    [io] first or are handlers registered on it, so [io] is set. *)
Definition io_emit (ev : Event) : Eff unit :=
  λ w, (Ok tt, set_sent (sent w ++ [(clients w, ev)]) w).

(** [socket.emit(ev)]: to that socket alone. *)
Definition socket_emit (sid : string) (ev : Event) : Eff unit :=
  λ w, (Ok tt, set_sent (sent w ++ [({[sid]}, ev)]) w).

(** [s.toLowerCase()] on what [x || ''] left: a method of strings only. *)
Definition js_toLowerCase (v : json) : Eff string :=
  match v with
  | JStr s => mret (toLowerCase s)
  | _ => throw
  end.

(** ** PostgreSQL functions *)

(** A [BIGINT] comes back from the driver as a string, an [INTEGER] as a
    number, a NULL as [null]. *)
Definition text_cell (c : option string) : json := from_option JStr JNull c.
Definition bigint_cell (c : option Z) : json := from_option (λ z, JStr (pretty z)) JNull c.

Definition row_to_task (row : Row) : obj :=
  {[ "id" := JNum (r_id row);
     "title" := JStr (r_title row);
     "description" := text_cell (r_description row);
     "column" := text_cell (r_column_name row);
     "tag" := text_cell (r_tag row);
     "assignee" := text_cell (r_assignee row);
     "priority" := text_cell (r_priority row);
     "emoji" := text_cell (r_emoji row);
     "dueDate" := text_cell (r_due_date row);
     "createdAt" := bigint_cell (r_created_at row);
     "updatedAt" := bigint_cell (r_updated_at row) ]}.

Definition getTasksPG : Eff (list obj) :=
  try_catch
    (result ← pg_query (λ db, Some (exec_select db, db));
     mret (row_to_task <$> result))
    (mret []).

Definition mentions_clawd (assignee : string) : bool :=
  includes assignee "clawd" || includes assignee "jarvis".

Definition clawd_message (task : obj) : string :=
  "📋 Nova task para Clawd: " +:+ to_display (task !! "title").

Definition broadcastClawdNotification (task : obj) : Eff unit :=
  io_set ← gets io;
  pg ← gets usePostgres;
  if io_set && pg then
    assignee ← js_toLowerCase (js_or (task !! "assignee") (JStr ""));
    if mentions_clawd assignee then
      timestamp ← Date_now;
      io_emit (clawd_task task (clawd_message task) timestamp)
    else mret ()
  else mret ().

(** The [updates] and [values] arrays of the update branch, built side by
    side: each entry is the column assigned and the value bound to it. *)
Definition push_if (present : option json) (c : column)
    (updates : list (column * option json)) : list (column * option json) :=
  match present with
  | Some _ => updates ++ [(c, present)]
  | None => updates
  end.

Definition saveTaskPG (task : obj) : Eff bool :=
  try_catch
    (client ← gets pgClient;
     if negb (bool_decide (is_Some client)) then mret false
     else if truthy (task !! "id") && js_gt0 (task !! "id") then
       let updates := [] in
       let updates := push_if (task !! "column") c_column_name updates in
       let updates := push_if (task !! "title") c_title updates in
       let updates := push_if (task !! "description") c_description updates in
       let updates := push_if (task !! "updatedAt") c_updated_at updates in
       timestamp ← Date_now;
       let updates := updates ++ [(c_updated_at, Some (JNum timestamp))] in
       if (0 <? length updates)%nat then
         pg_query (λ db, pair () <$> exec_update updates (task !! "id") db);;
         mret true
       else mret true
     else
       created ← Date_now;
       updated ← Date_now;
       let values :=
         [ Some (js_or (task !! "title") (JStr ""));
           Some (js_or (task !! "description") (JStr ""));
           Some (js_or (task !! "column") (JStr "backlog"));
           Some (js_or (task !! "tag") (JStr ""));
           Some (js_or (task !! "assignee") (JStr ""));
           Some (js_or (task !! "priority") (JStr "medium"));
           Some (js_or (task !! "emoji") (JStr ""));
           Some (js_or (task !! "dueDate") (JStr ""));
           Some (JNum created); Some (JNum updated) ] in
       pg_query_leaving (λ db, pair () <$> exec_insert values db)
                        (insert_refused values);;
       assignee ← js_toLowerCase (js_or (task !! "assignee") (JStr ""));
       (if mentions_clawd assignee then
          stamp ← Date_now;
          let newTask := <["id" := JNum stamp]> task in
          broadcastClawdNotification newTask
        else mret ());;
       mret true)
    (mret false).

Definition deleteTaskPG (taskId : option json) : Eff bool :=
  try_catch
    (pg_query (λ db, pair () <$> exec_delete taskId db);;
     mret true)
    (mret false).

(** [broadcastTasks]: the body of the [then] callback, run when the
    re-read resolves.  [getTasksPG] never rejects, so the [catch] callback
    has nothing to do. *)
Definition broadcastTasks : Eff unit :=
  io_set ← gets io;
  pg ← gets usePostgres;
  if io_set && pg then
    tasks ← getTasksPG;
    timestamp ← Date_now;
    io_emit (tasks_update tasks timestamp)
  else mret ().

(** ** Local file fallback *)

Definition fs_existsSync : Eff bool := gets (λ w, bool_decide (is_Some (tasks_file w))).

(** [JSON.parse(fs.readFileSync(TASKS_FILE, 'utf8'))]. *)
Definition read_and_parse : Eff (list obj) :=
  external (λ w, match tasks_file w with
                 | Some (TaskArray tasks) => (Ok tasks, w)
                 | Some Unparsable | None => (Throw, w)
                 end).

Definition getTasksLocal : Eff (list obj) :=
  found ← try_catch
    (there ← fs_existsSync;
     if there : bool then tasks ← read_and_parse; mret (Some tasks)
     else mret (None : option (list obj)))
    (mret None);
  mret (default [] found).

(** [fs.writeFileSync(TASKS_FILE, JSON.stringify(tasks, null, 2))], with
    no handler around it. *)
Definition saveTasksLocal (tasks : list obj) : Eff unit :=
  external (λ w, (Ok tt, set_tasks_file (Some (TaskArray tasks)) w)).

(** [tasks.findIndex(t => t.id === id)]: [None] is [-1]. *)
Fixpoint findIndex (id : option json) (tasks : list obj) : option nat :=
  match tasks with
  | [] => None
  | t :: tasks' =>
      if strict_eq (t !! "id") id then Some O else S <$> findIndex id tasks'
  end.

(** ** POST /api/tasks *)

(** The parsed request body, [data]: [data.action], [data.task] (an object
    when it is there) and [data.taskId]. *)
Record Mutation : Type := mkMutation {
  action : option json;
  task : option obj;
  taskId : option json
}.

Inductive Response : Type :=
  | mutation_response (success : bool) (timestamp : Z)
  | bad_request.

(** The three file-backed branches of the handler.  Each returns the value
    the handler's [success] variable holds when the branch is left. *)
Definition update_local (task : obj) : Eff bool :=
  tasks ← getTasksLocal;
  match findIndex (task !! "id") tasks with
  | Some idx =>
      stamp ← Date_now;
      let merged := <["updatedAt" := JNum stamp]> (task ∪ default ∅ (tasks !! idx)) in
      saveTasksLocal (<[idx := merged]> tasks);;
      mret true
  | None => mret false
  end.

Definition add_local (task : obj) : Eff bool :=
  tasks ← getTasksLocal;
  id ← Date_now;
  createdAt ← Date_now;
  updatedAt ← Date_now;
  let newTask :=
    <["updatedAt" := JNum updatedAt]>
      (<["createdAt" := JNum createdAt]> (<["id" := JNum id]> task)) in
  saveTasksLocal (tasks ++ [newTask]);;
  mret true.

Definition delete_local (taskId : option json) : Eff bool :=
  tasks ← getTasksLocal;
  saveTasksLocal (filter (λ t, t !! "id" ≠ taskId) tasks);;
  mret true.

Definition is_action (data : Mutation) (name : string) : bool :=
  strict_eq (action data) (Some (JStr name)).

(** The [try] block of the handler from its branches up to the call of
    [res.end]: the reply, and whether [broadcastTasks()] was called on the
    way.  The log line before the branches turns [data.action] and
    [data.task?.id] into strings, which the scalars of a [Mutation] always
    allow. *)
Definition post_tasks_try (data : Mutation) : Eff (Response * bool) :=
  pg ← gets usePostgres;
  outcome ←
    (if is_action data "update" && bool_decide (is_Some (task data)) then
       let payload := default ∅ (task data) in
       if pg : bool then
         stamp ← Date_now;
         success ← saveTaskPG (<["updatedAt" := JNum stamp]> payload);
         mret (success, success)
       else
         success ← update_local payload;
         mret (success, false)
     else if is_action data "add" && bool_decide (is_Some (task data)) then
       let payload := default ∅ (task data) in
       if pg then
         createdAt ← Date_now;
         updatedAt ← Date_now;
         success ← saveTaskPG
           (<["updatedAt" := JNum updatedAt]> (<["createdAt" := JNum createdAt]> payload));
         mret (success, success)
       else
         success ← add_local payload;
         mret (success, false)
     else if is_action data "delete" && truthy (taskId data) then
       if pg then
         success ← deleteTaskPG (taskId data);
         mret (success, success)
       else
         success ← delete_local (taskId data);
         mret (success, false)
     else mret (false, false));
  timestamp ← Date_now;
  mret (mutation_response outcome.1 timestamp, outcome.2).

(** The handler.  [None] is a body on which the [try] block throws before
    it reaches a branch: text that does not parse, [null], or an [action]
    or task [id] that cannot be turned into a string for the log line.
    That and anything thrown further on end in the 400 reply.  The
    callback of a broadcast that was started runs once the handler's own
    code is through, so its [Date.now()] comes after the reply's. *)
Definition post_tasks (body : option Mutation) : Eff Response :=
  reply ← try_catch
    (match body with
     | Some data => post_tasks_try data
     | None => throw
     end)
    (mret (bad_request, false));
  (if reply.2 : bool then broadcastTasks else mret ());;
  mret reply.1.

(** ** GET /api/tasks and /api/status *)

Definition list_tasks : Eff (list obj) :=
  pg ← gets usePostgres;
  if pg : bool then getTasksPG else getTasksLocal.

Record TasksReply : Type := mkTasksReply {
  reply_tasks : list obj;
  reply_timestamp : Z;
  reply_source : string
}.

Definition get_tasks : Eff TasksReply :=
  pg ← gets usePostgres;
  tasks ← list_tasks;
  timestamp ← Date_now;
  mret (mkTasksReply tasks timestamp (if pg : bool then "postgresql" else "local")).

Record Status : Type := mkStatus {
  status_timestamp : Z;
  status_source : string;
  status_clients : nat;
  total : nat;
  backlog : nat;
  progress : nat;
  done : nat;
  paused : nat
}.

(** [tasks.filter(t => t.column === name).length]. *)
Definition count_column (name : string) (tasks : list obj) : nat :=
  length (filter (λ t, t !! "column" = Some (JStr name)) tasks).

Definition get_status : Eff Status :=
  tasks ← list_tasks;
  timestamp ← Date_now;
  pg ← gets usePostgres;
  connected ← gets (λ w, size (clients w));
  mret (mkStatus timestamp (if pg : bool then "postgresql" else "local") connected
          (length tasks)
          (count_column "backlog" tasks) (count_column "progress" tasks)
          (count_column "done" tasks) (count_column "paused" tasks)).

(** ** The realtime channel *)

Definition set_clients (c : gset string) (w : World) : World :=
  mkWorld (usePostgres w) (io w) (pgClient w) (tasks_file w) c (sent w)
          (clock w) (reads w) (faults w) (calls w).

(** [io.on('connection', ...)]: register the socket and send it the tasks. *)
Definition on_connection (sid : string) : Eff unit :=
  (λ w, (Ok (), set_clients ({[sid]} ∪ clients w) w));;
  pg ← gets usePostgres;
  if pg : bool then
    tasks ← getTasksPG;
    timestamp ← Date_now;
    socket_emit sid (tasks_update tasks timestamp)
  else mret ().

Definition on_disconnect (sid : string) : Eff unit :=
  λ w, (Ok (), set_clients (clients w ∖ {[sid]}) w).

(** [socket.on('task:update' | 'task:add' | 'task:delete', ...)], [data]
    being the object the client sent. *)
Definition on_task_update (data : Mutation) : Eff unit :=
  pg ← gets usePostgres;
  if pg && bool_decide (is_Some (task data)) then
    stamp ← Date_now;
    saveTaskPG (<["updatedAt" := JNum stamp]> (default ∅ (task data)));;
    broadcastTasks
  else mret ().

Definition on_task_add (data : Mutation) : Eff unit :=
  pg ← gets usePostgres;
  if pg && bool_decide (is_Some (task data)) then
    createdAt ← Date_now;
    updatedAt ← Date_now;
    saveTaskPG (<["updatedAt" := JNum updatedAt]>
                  (<["createdAt" := JNum createdAt]> (default ∅ (task data))));;
    broadcastTasks
  else mret ().

Definition on_task_delete (data : Mutation) : Eff unit :=
  pg ← gets usePostgres;
  if pg && truthy (taskId data) then
    deleteTaskPG (taskId data);;
    broadcastTasks
  else mret ().

(** ** Vocabulary of the statements *)

(** The primary key and the sequence behind it: ids are distinct and the
    sequence is ahead of all of them. *)
Definition db_wf (db : Db) : Prop :=
  NoDup (r_id <$> rows db) ∧ Forall (λ r, r_id r < tasks_id_seq db) (rows db).

(** What [list] returns from a world when the read goes through. *)
Definition listing (w : World) : list obj :=
  if usePostgres w then
    match pgClient w with
    | Some db => row_to_task <$> exec_select db
    | None => []
    end
  else
    match tasks_file w with
    | Some (TaskArray tasks) => tasks
    | Some Unparsable | None => []
    end.

(** The four columns the status endpoint knows. *)
Definition known_column (t : obj) : Prop :=
  t !! "column" = Some (JStr "backlog") ∨ t !! "column" = Some (JStr "progress") ∨
  t !! "column" = Some (JStr "done") ∨ t !! "column" = Some (JStr "paused").

#[global] Instance known_column_dec t : Decision (known_column t).
Proof. unfold known_column. apply _. Defined.

Definition is_tasks_update (e : gset string * Event) : Prop :=
  match e.2 with tasks_update _ _ => True | _ => False end.

#[global] Instance is_tasks_update_dec e : Decision (is_tasks_update e).
Proof. unfold is_tasks_update. destruct (e.2); apply _. Defined.

(** An upsert payload that [saveTaskPG] treats as an insert: no id, or a
    number that is not positive. *)
Definition insert_payload (task : obj) : Prop :=
  task !! "id" = None ∨ ∃ n, task !! "id" = Some (JNum n) ∧ n ≤ 0.

(** What an accepted relational update may do to a row: a row with another
    id stays as it is; the row with id [n] takes the payload's [column],
    [title] and [description] where the payload has them, keeps them where
    it has not, keeps every other column, and has [updated_at] set to
    [now]. *)
Definition pg_update_frame (task : obj) (n now : Z) (r r' : Row) : Prop :=
  r_id r' = r_id r ∧
  (r_id r ≠ n → r' = r) ∧
  (r_id r = n →
     (task !! "title" = None → r_title r' = r_title r) ∧
     (task !! "description" = None → r_description r' = r_description r) ∧
     (task !! "column" = None → r_column_name r' = r_column_name r) ∧
     (∀ v, task !! "title" = Some v → coerce c_title (Some v) = Some (DText (r_title r'))) ∧
     (∀ v, task !! "description" = Some v →
           coerce c_description (Some v) = Some (from_option DText DNull (r_description r'))) ∧
     (∀ v, task !! "column" = Some v →
           coerce c_column_name (Some v) = Some (from_option DText DNull (r_column_name r'))) ∧
     r_tag r' = r_tag r ∧ r_assignee r' = r_assignee r ∧
     r_priority r' = r_priority r ∧ r_emoji r' = r_emoji r ∧
     r_due_date r' = r_due_date r ∧
     r_created_at r' = r_created_at r ∧
     r_updated_at r' = Some now).

(** What a file-backed update does to the stored object: [updatedAt] is
    [now]; any other property is the payload's where the payload has it
    and the old one where it has not. *)
Definition local_update_frame (task old new : obj) (now : Z) : Prop :=
  new !! "updatedAt" = Some (JNum now) ∧
  ∀ k, k ≠ "updatedAt" →
       new !! k = match task !! k with Some v => Some v | None => old !! k end.

(** The defaults of the relational insert. *)
Definition insert_defaults (task : obj) (r : Row) : Prop :=
  (task !! "column" = None → r_column_name r = Some "backlog") ∧
  (task !! "priority" = None → r_priority r = Some "medium") ∧
  (task !! "title" = None → r_title r = "") ∧
  (task !! "description" = None → r_description r = Some "") ∧
  (task !! "tag" = None → r_tag r = Some "") ∧
  (task !! "assignee" = None → r_assignee r = Some "") ∧
  (task !! "emoji" = None → r_emoji r = Some "") ∧
  (task !! "dueDate" = None → r_due_date r = Some "").

(** The [SET] list [saveTaskPG] builds for an update at clock reading
    [now], and the values it binds for an insert. *)
Definition update_sets (task : obj) (now : Z) : list (column * option json) :=
  push_if (task !! "updatedAt") c_updated_at
    (push_if (task !! "description") c_description
       (push_if (task !! "title") c_title
          (push_if (task !! "column") c_column_name [])))
  ++ [(c_updated_at, Some (JNum now))].

Definition insert_values (task : obj) (created updated : Z) : list (option json) :=
  [ Some (js_or (task !! "title") (JStr ""));
    Some (js_or (task !! "description") (JStr ""));
    Some (js_or (task !! "column") (JStr "backlog"));
    Some (js_or (task !! "tag") (JStr ""));
    Some (js_or (task !! "assignee") (JStr ""));
    Some (js_or (task !! "priority") (JStr "medium"));
    Some (js_or (task !! "emoji") (JStr ""));
    Some (js_or (task !! "dueDate") (JStr ""));
    Some (JNum created); Some (JNum updated) ].

(** The notification a relational insert sends for a payload whose
    assignee names one of the aliases: the payload with the third clock
    reading of the call as [id], stamped with the fourth. *)
Definition clawd_event (task : obj) (w : World) : gset string * Event :=
  let newTask := <["id" := JNum (clock w (2 + reads w)%nat)]> task in
  (clients w, clawd_task newTask (clawd_message newTask) (clock w (3 + reads w)%nat)).

(** Reading a column of a row back as a datum. *)
Definition get_col (c : column) (r : Row) : datum :=
  match c with
  | c_title => DText (r_title r)
  | c_description => from_option DText DNull (r_description r)
  | c_column_name => from_option DText DNull (r_column_name r)
  | c_tag => from_option DText DNull (r_tag r)
  | c_assignee => from_option DText DNull (r_assignee r)
  | c_priority => from_option DText DNull (r_priority r)
  | c_emoji => from_option DText DNull (r_emoji r)
  | c_due_date => from_option DText DNull (r_due_date r)
  | c_created_at => from_option DInt DNull (r_created_at r)
  | c_updated_at => from_option DInt DNull (r_updated_at r)
  end.

(** The store operations of the active backend, on the payload as the
    store receives it: the relational functions, or the file-backed branch
    of the handler. *)
Definition upsert_update (task : obj) : Eff bool :=
  pg ← gets usePostgres;
  if pg : bool then saveTaskPG task else update_local task.

Definition upsert_insert (task : obj) : Eff bool :=
  pg ← gets usePostgres;
  if pg : bool then saveTaskPG task else add_local task.

Definition store_delete (taskId : option json) : Eff bool :=
  pg ← gets usePostgres;
  if pg : bool then deleteTaskPG taskId else delete_local taskId.

(** The effect of a successful update with id [n] on the store. *)
Definition update_effect (task : obj) (n : Z) (w w' : World) : Prop :=
  if usePostgres w then
    ∃ db db',
      pgClient w = Some db ∧ pgClient w' = Some db' ∧
      tasks_id_seq db' = tasks_id_seq db ∧
      Forall2 (pg_update_frame task n (clock w (reads w))) (rows db) (rows db')
  else
    ∃ tasks idx old new,
      tasks_file w = Some (TaskArray tasks) ∧
      findIndex (task !! "id") tasks = Some idx ∧
      tasks !! idx = Some old ∧ old !! "id" = task !! "id" ∧
      tasks_file w' = Some (TaskArray (<[idx:=new]> tasks)) ∧
      local_update_frame task old new (clock w (reads w)).

(** The effect of a successful insert on the store. *)
Definition insert_effect (task : obj) (w w' : World) : Prop :=
  if usePostgres w then
    ∃ db r,
      pgClient w = Some db ∧
      pgClient w' = Some (mkDb (rows db ++ [r]) (tasks_id_seq db + 1)) ∧
      r_id r = tasks_id_seq db ∧
      (db_wf db → r_id r ∉ r_id <$> rows db) ∧
      r_created_at r = Some (clock w (reads w)) ∧
      r_updated_at r = Some (clock w (S (reads w))) ∧
      insert_defaults task r
  else
    ∃ tasks w1 new,
      getTasksLocal w = (Ok tasks, w1) ∧
      tasks_file w' = Some (TaskArray (tasks ++ [new])) ∧
      new !! "id" = Some (JNum (clock w (reads w))) ∧
      new !! "createdAt" = Some (JNum (clock w (S (reads w)))) ∧
      new !! "updatedAt" = Some (JNum (clock w (S (S (reads w))))) ∧
      ∀ k, k ∉ ["id"; "createdAt"; "updatedAt"] → new !! k = task !! k.

(** Whether an id is in the range of the [INTEGER] column [id]. *)
Definition int4 (n : Z) : bool := (- int4_max - 1 <=? n) && (n <=? int4_max).

(** No call to the database or to the file system fails. *)
Definition no_faults (w : World) : Prop := ∀ k, faults w k = false.

(** The conditions under which the server accepts the [UPDATE] that
    [saveTaskPG] sends for [task] with id [n]: the call goes through, the
    payload carries no [updatedAt] (the statement would assign
    [updated_at] twice), the id and the clock reading are in the range of
    their columns and the values fit theirs. *)
Definition update_accepted (task : obj) (n : Z) (w : World) : Prop :=
  faults w (calls w) = false ∧
  task !! "updatedAt" = None ∧
  n ≤ int4_max ∧
  is_Some (coerce c_column_name (task !! "column")) ∧
  is_Some (coerce c_title (task !! "title")) ∧
  is_Some (coerce c_description (task !! "description")) ∧
  - int8_max - 1 ≤ clock w (reads w) ≤ int8_max.

(** A step that pushes no task list: the configuration, the sessions, the
    clock and the failures to come are untouched, and whatever was pushed
    is no [tasks:update]. *)
Definition quiet (w w' : World) : Prop :=
  usePostgres w' = usePostgres w ∧ io w' = io w ∧ clients w' = clients w ∧
  clock w' = clock w ∧ faults w' = faults w ∧ tasks_file w' = tasks_file w ∧
  ∃ pre, sent w' = sent w ++ pre ∧ Forall (λ e, ¬ is_tasks_update e) pre.

(** From [w] to [w'] exactly one [tasks:update] was pushed, last, to every
    connected session; it carries the list as re-read, which is the full
    listing of [w'] when that read went through. *)
Definition broadcast_once (w w' : World) : Prop :=
  ∃ pre tasks stamp,
    sent w' = sent w ++ pre ++ [(clients w, tasks_update tasks stamp)] ∧
    Forall (λ e, ¬ is_tasks_update e) pre ∧
    (faults w (pred (calls w')) = false → tasks = listing w').

(** The three mutations, as a POST action and as a realtime event. *)
Inductive op : Type := op_update | op_add | op_delete.

Definition op_name (o : op) : string :=
  match o with
  | op_update => "update"
  | op_add => "add"
  | op_delete => "delete"
  end.

Definition on_task (o : op) : Mutation → Eff unit :=
  match o with
  | op_update => on_task_update
  | op_add => on_task_add
  | op_delete => on_task_delete
  end.

Definition post_op (o : op) (data : Mutation) : Eff Response :=
  post_tasks (Some (mkMutation (Some (JStr (op_name o))) (task data) (taskId data))).

(** What both entry points require of the message, and the relational
    store write both make for it. *)
Definition op_guard (o : op) (data : Mutation) : bool :=
  match o with
  | op_update | op_add => bool_decide (is_Some (task data))
  | op_delete => truthy (taskId data)
  end.

Definition pg_write (o : op) (data : Mutation) : Eff bool :=
  match o with
  | op_update =>
      stamp ← Date_now;
      saveTaskPG (<["updatedAt" := JNum stamp]> (default ∅ (task data)))
  | op_add =>
      createdAt ← Date_now;
      updatedAt ← Date_now;
      saveTaskPG (<["updatedAt" := JNum updatedAt]>
                    (<["createdAt" := JNum createdAt]> (default ∅ (task data))))
  | op_delete => deleteTaskPG (taskId data)
  end.

(** An event without the time it was stamped with. *)
Definition untimed (e : gset string * Event) : gset string * Event :=
  match e.2 with
  | tasks_update tasks _ => (e.1, tasks_update tasks 0)
  | _ => e
  end.

Definition descending : list Row → Prop :=
  StronglySorted (λ a b, r_id b ≤ r_id a).

(** The file-backed store write the POST handler makes for a mutation. *)
Definition local_write (o : op) (data : Mutation) : Eff bool :=
  match o with
  | op_update => update_local (default ∅ (task data))
  | op_add => add_local (default ∅ (task data))
  | op_delete => delete_local (taskId data)
  end.

(** ** Worlds and payloads of the examples *)

(** Worlds used in the examples: a relational one with two rows and a
    file-backed one with one stored task, both with two sessions, a clock
    that ticks at every reading and no failing call. *)
Definition demo_clock (k : nat) : Z := Z.of_N (N.of_nat k + 1700000000000).

Definition demo_row1 : Row :=
  mkRow 1 "Deploy" (Some "") (Some "progress") (Some "purple") (Some "Clawd")
        (Some "high") (Some "") (Some "2026-02-05") (Some 1000) (Some 2000).
Definition demo_row2 : Row :=
  mkRow 2 "Email" (Some "msmtp") (Some "archived") (Some "") (Some "")
        (Some "medium") (Some "") (Some "") (Some 1500) (Some 1500).

Definition demo_db : Db := mkDb [demo_row1; demo_row2] 3.

Definition pg_world : World :=
  mkWorld true true (Some demo_db) None {["s1"; "s2"]} [] demo_clock 0 (λ _, false) 0.

Definition demo_task : obj :=
  {[ "id" := JNum 7; "title" := JStr "Deploy"; "column" := JStr "progress";
     "createdAt" := JNum 1000; "updatedAt" := JNum 2000 ]}.

Definition file_world : World :=
  mkWorld false true None (Some (TaskArray [demo_task])) {["s1"; "s2"]} []
          demo_clock 0 (λ _, false) 0.

(** The file-backed one again, with every call failing. *)
Definition failing_world : World :=
  mkWorld false true None (Some (TaskArray [demo_task])) {["s1"; "s2"]} []
          demo_clock 0 (λ _, true) 0.

(** Payloads of the examples. *)
Definition retitle : obj := {[ "id" := JNum 1; "title" := JStr "Deploy now" ]}.
Definition redate : obj := {[ "id" := JNum 7; "createdAt" := JNum 5 ]}.
Definition retitle_9 : obj := {[ "id" := JNum 9; "title" := JStr "Nine" ]}.
Definition new_card : obj := {[ "title" := JStr "X"; "assignee" := JStr "Clawd" ]}.
Definition plain_card : obj := {[ "title" := JStr "Y"; "assignee" := JStr "Ada" ]}.

(** Requests of the examples. *)
Definition add_new_card : Mutation := mkMutation (Some (JStr "add")) (Some new_card) None.
Definition add_plain_card : Mutation := mkMutation (Some (JStr "add")) (Some plain_card) None.
Definition delete_2 : Mutation := mkMutation (Some (JStr "delete")) None (Some (JNum 2)).
Definition update_retitle : Mutation := mkMutation (Some (JStr "update")) (Some retitle) None.
Definition delete_minted : Mutation :=
  mkMutation (Some (JStr "delete")) None (Some (JNum 1700000000000)).

(** A file-backed world with nothing stored and a clock that stands still,
    and a relational world in which every call fails. *)
Definition steady_clock (k : nat) : Z := 1700000000000.

Definition steady_file_world : World :=
  mkWorld false true None None {["s1"; "s2"]} [] steady_clock 0 (λ _, false) 0.

Definition failing_pg_world : World :=
  mkWorld true true (Some demo_db) None {["s1"; "s2"]} [] demo_clock 0 (λ _, true) 0.

(** ** Start-up *)

Definition set_usePostgres (b : bool) (w : World) : World :=
  mkWorld b (io w) (pgClient w) (tasks_file w) (clients w) (sent w)
          (clock w) (reads w) (faults w) (calls w).
Definition set_io (b : bool) (w : World) : World :=
  mkWorld (usePostgres w) b (pgClient w) (tasks_file w) (clients w) (sent w)
          (clock w) (reads w) (faults w) (calls w).

(** The two variables of [process.env] the server reads; [None] is a
    variable that is not set. *)
Record Env : Type := mkEnv {
  DATABASE_URL : option string;
  DATABASE_PUBLIC_URL : option string
}.

(** [process.env.DATABASE_URL || process.env.DATABASE_PUBLIC_URL]. *)
Definition databaseUrl (env : Env) : option string :=
  match DATABASE_URL env with
  | Some s => if bool_decide (s = "") then DATABASE_PUBLIC_URL env else Some s
  | None => DATABASE_PUBLIC_URL env
  end.

(** The table [CREATE TABLE IF NOT EXISTS] makes where there is none. *)
Definition new_table : Db := mkDb [] 1.

(** [initDatabase].  [tables url] is the [tasks] table of the database at
    [url], if it has one.  The client is modelled by the table its queries
    reach, so the table as [CREATE TABLE IF NOT EXISTS] leaves it stands
    for the client from its construction on.  Building the client (which
    parses the connection string), connecting and creating the table are
    three calls that may each throw. *)
Definition initDatabase (env : Env) (tables : string → option Db) : Eff bool :=
  try_catch
    (match databaseUrl env with
     | Some url =>
         if bool_decide (url = "") then mret false
         else
           external (λ w, (Ok (), set_pgClient (Some (default new_table (tables url))) w));;
           external (mret ());;
           pg_query (λ db, Some ((), db));;
           mret true
     | None => mret false
     end)
    (mret false).

(** [initWebSocket]: the socket server is created and the connection
    handler registered. *)
Definition initWebSocket : Eff unit := λ w, (Ok (), set_io true w).

(** [start], up to the call of [server.listen]. *)
Definition start (env : Env) (tables : string → option Db) : Eff unit :=
  selected ← initDatabase env tables;
  (λ w, (Ok (), set_usePostgres selected w));;
  initWebSocket.

(** ** GET /api/health *)

Record Health : Type := mkHealth {
  health_postgres : bool;
  health_websocket : bool;
  health_clients : nat;
  health_timestamp : Z
}.

Definition get_health : Eff Health :=
  pg ← gets usePostgres;
  websocket ← gets io;
  connected ← gets (λ w, size (clients w));
  timestamp ← Date_now;
  mret (mkHealth pg websocket connected timestamp).

(** ** The relays and the debugging hook *)

(** [global.forceBroadcast]. *)
Definition forceBroadcast : Eff string :=
  broadcastTasks;;
  mret "Broadcast triggered".

(** What the two relay handlers hand to [io.emit]:
    [{...data, clientId: socket.id, timestamp: Date.now()}]. *)
Definition relay_payload (data : obj) (sid : string) (timestamp : Z) : obj :=
  <["timestamp" := JNum timestamp]> (<["clientId" := JStr sid]> data).

(** [socket.on('dev:status', ...)] on the socket [sid].  [data] is what
    the client sent with the event, [None] when it sent nothing (or
    [null]): spreading that gives no property, but the log line after the
    [io.emit] reads [data.status] off it and throws. *)
Definition on_dev_status (sid : string) (data : option obj) : Eff unit :=
  timestamp ← Date_now;
  io_emit (dev_status (relay_payload (default ∅ data) sid timestamp));;
  match data with
  | Some _ => mret ()
  | None => throw
  end.

(** [socket.on('activity:broadcast', ...)], which reads nothing off
    [data]. *)
Definition on_activity_broadcast (sid : string) (data : option obj) : Eff unit :=
  timestamp ← Date_now;
  io_emit (activity_broadcast (relay_payload (default ∅ data) sid timestamp)).

(** The three task events with what the client sent, [None] when it sent
    nothing: [usePostgres && data.task] reads [data.task] only on the
    relational backend, and there it throws. *)
Definition on_task_event (o : op) (data : option Mutation) : Eff unit :=
  match data with
  | Some data => on_task o data
  | None =>
      pg ← gets usePostgres;
      if pg : bool then throw else mret ()
  end.

(** ** The server without the realtime channel

    The file holds an earlier server as well, whose [saveTaskPG] writes
    every column of the row.  Its client is read off before the arguments
    of [query] are evaluated, so a null client throws before the clock is
    read. *)
Module ServerPg.

Definition update_values (task : obj) (updated : option json)
  : list (column * option json) :=
  [ (c_title, task !! "title"); (c_description, task !! "description");
    (c_column_name, task !! "column"); (c_tag, task !! "tag");
    (c_assignee, task !! "assignee"); (c_priority, task !! "priority");
    (c_emoji, task !! "emoji"); (c_due_date, task !! "dueDate");
    (c_updated_at, updated) ].

Definition insert_values (task : obj) (created updated : Z) : list (option json) :=
  [ task !! "title"; task !! "description";
    Some (js_or (task !! "column") (JStr "backlog")); task !! "tag";
    task !! "assignee"; task !! "priority"; task !! "emoji"; task !! "dueDate";
    Some (JNum created); Some (JNum updated) ].

Definition saveTaskPG (task : obj) : Eff bool :=
  try_catch
    (client ← gets pgClient;
     (if negb (bool_decide (is_Some client)) then throw
      else if truthy (task !! "id") && js_gt0 (task !! "id") then
        updated ← (if truthy (task !! "updatedAt") then mret (task !! "updatedAt")
                   else now ← Date_now; mret (Some (JNum now)));
        pg_query (λ db, pair () <$> exec_update (update_values task updated) (task !! "id") db)
      else
        created ← Date_now;
        updated ← Date_now;
        pg_query_leaving
          (λ db, pair () <$> exec_insert (insert_values task created updated) db)
          (insert_refused (insert_values task created updated)));;
     mret true)
    (mret false).

End ServerPg.

(** ** The server without a database

    The first server of the file keeps the tasks in the file alone and
    starts from two seed tasks when there is no file to read. *)
Module ServerFile.

(** The list [getTasks] falls back to, stamped with two clock readings. *)
Definition seed_tasks (first second : Z) : list obj :=
  [ {[ "id" := JNum 1;
       "title" := JStr "Finalizar Deploy BTC Monitor";
       "description" :=
         JStr "Conectar Netlify e fazer deploy do painel de monitoramento BTC";
       "column" := JStr "progress";
       "tag" := JStr "purple";
       "assignee" := JStr "Clawd";
       "priority" := JStr "high";
       "emoji" := JStr "🚀";
       "dueDate" := JStr "2026-02-05";
       "updatedAt" := JNum first ]};
    {[ "id" := JNum 2;
       "title" := JStr "Configurar Notificações Email";
       "description" :=
         JStr "Terminar configuração do msmtp para alertas automáticos";
       "column" := JStr "done";
       "tag" := JStr "green";
       "assignee" := JStr "Clawd";
       "priority" := JStr "medium";
       "emoji" := JStr "✅";
       "updatedAt" := JNum second ]} ].

Definition getTasks : Eff (list obj) :=
  found ← try_catch
    (there ← fs_existsSync;
     if there : bool then tasks ← read_and_parse; mret (Some tasks)
     else mret (None : option (list obj)))
    (mret None);
  match found with
  | Some tasks => mret tasks
  | None =>
      first ← Date_now;
      second ← Date_now;
      mret (seed_tasks first second)
  end.

Definition saveTasks (tasks : list obj) : Eff unit :=
  external (λ w, (Ok tt, set_tasks_file (Some (TaskArray tasks)) w)).

Inductive Response : Type :=
  | success_response (tasks : list obj)
  | bad_request.

(** The list the handler goes on with.  The update reads [data.task.id]
    inside the callback of [findIndex], so a request without [task] throws
    only if there is a task to look at. *)
Definition mutate (data : Mutation) (tasks : list obj) : Eff (list obj) :=
  if is_action data "update" then
    match task data with
    | Some payload =>
        match findIndex (payload !! "id") tasks with
        | Some idx =>
            stamp ← Date_now;
            mret (<[idx := <["updatedAt" := JNum stamp]>
                             (payload ∪ default ∅ (tasks !! idx))]> tasks)
        | None => mret tasks
        end
    | None => if bool_decide (tasks = []) then mret tasks else throw
    end
  else if is_action data "add" then
    id ← Date_now;
    createdAt ← Date_now;
    updatedAt ← Date_now;
    mret (tasks ++ [<["updatedAt" := JNum updatedAt]>
                      (<["createdAt" := JNum createdAt]>
                         (<["id" := JNum id]> (default ∅ (task data))))])
  else if is_action data "delete" then
    mret (filter (λ t, t !! "id" ≠ taskId data) tasks)
  else mret tasks.

(** POST /api/tasks. *)
Definition post_tasks (body : option Mutation) : Eff Response :=
  try_catch
    (match body with
     | Some data =>
         tasks ← getTasks;
         tasks ← mutate data tasks;
         saveTasks tasks;;
         mret (success_response tasks)
     | None => throw
     end)
    (mret bad_request).

(** What the module does when it is loaded: the seed tasks are written
    out if there is no file. *)
Definition save_initial_tasks : Eff unit :=
  initialTasks ← getTasks;
  there ← fs_existsSync;
  if there : bool then mret () else saveTasks initialTasks.

End ServerFile.

(** ** Vocabulary of the further statements *)

(** The table behind the client, when there is one, is well formed. *)
Definition world_wf (w : World) : Prop :=
  match pgClient w with
  | Some db => db_wf db
  | None => True
  end.

(** Everything a request can see or change but the clock and the record of
    calls made. *)
Definition same_store (w w' : World) : Prop :=
  usePostgres w' = usePostgres w ∧ io w' = io w ∧ pgClient w' = pgClient w ∧
  tasks_file w' = tasks_file w ∧ clients w' = clients w ∧ sent w' = sent w.

(** The payload properties [saveTaskPG] stores as text, with their
    columns. *)
Definition text_fields : list (string * column) :=
  [ ("title", c_title); ("description", c_description); ("column", c_column_name);
    ("tag", c_tag); ("assignee", c_assignee); ("priority", c_priority);
    ("emoji", c_emoji); ("dueDate", c_due_date) ].

(** A text short enough for its column, in characters. *)
Definition fits (c : column) (s : string) : Prop :=
  match column_type c with
  | Varchar n => (characters s ≤ n)%nat
  | Text | Bigint => True
  end.

(** What one request may do to the table: nothing, or one statement,
    accepted or refused. *)
Definition db_step (db db' : Db) : Prop :=
  db' = db ∨
  (∃ sets idv, exec_update sets idv db = Some db') ∨
  (∃ vals, exec_insert vals db = Some db') ∨
  (∃ vals, db' = insert_refused vals db) ∨
  (∃ idv, exec_delete idv db = Some db').

(** The entry points of a running server: the requests and the realtime
    events a client can send, an event with what came with it, if
    anything did. *)
Inductive request : Type :=
  | req_post (body : option Mutation)
  | req_get_tasks
  | req_get_status
  | req_get_health
  | ev_connection (sid : string)
  | ev_disconnect (sid : string)
  | ev_task (o : op) (data : option Mutation)
  | ev_dev_status (sid : string) (data : option obj)
  | ev_activity (sid : string) (data : option obj).

(** The handler a request reaches, its answer left aside. *)
Definition handle (r : request) : Eff unit :=
  match r with
  | req_post body => post_tasks body;; mret ()
  | req_get_tasks => get_tasks;; mret ()
  | req_get_status => get_status;; mret ()
  | req_get_health => get_health;; mret ()
  | ev_connection sid => on_connection sid
  | ev_disconnect sid => on_disconnect sid
  | ev_task o data => on_task_event o data
  | ev_dev_status sid data => on_dev_status sid data
  | ev_activity sid data => on_activity_broadcast sid data
  end.

(** The world one request leaves, and the world a run of requests served
    one after the other leaves.  Nothing catches what a handler of the
    realtime channel throws: the process ends there, and the requests
    that follow are not served. *)
Definition serve (r : request) (w : World) : World := (handle r w).2.

Fixpoint serve_all (rs : list request) (w : World) : World :=
  match rs with
  | [] => w
  | r :: rs' =>
      match handle r w with
      | (Ok _, w') => serve_all rs' w'
      | (Throw, w') => w'
      end
  end.

(** The requests whose handler throws. *)
Definition crashes (r : request) (w : World) : bool :=
  match r with
  | ev_task _ None => usePostgres w
  | ev_dev_status _ None => true
  | _ => false
  end.

(** The events of the two relays. *)
Definition is_relay (e : gset string * Event) : Prop :=
  match e.2 with
  | dev_status _ | activity_broadcast _ => True
  | _ => False
  end.

(** What some statements, one after the other, may do to the client and
    its table. *)
Definition store_steps (w w' : World) : Prop :=
  match pgClient w with
  | None => pgClient w' = None
  | Some db => ∃ db', pgClient w' = Some db' ∧ rtc db_step db db'
  end.

(** What the running server leaves alone: the choice of backend, the
    socket server and the surroundings; the clock and the record of calls
    only advance, the table changes by statements and the log of pushes
    only grows. *)
Definition advances (w w' : World) : Prop :=
  usePostgres w' = usePostgres w ∧ io w' = io w ∧
  clock w' = clock w ∧ faults w' = faults w ∧
  (reads w ≤ reads w')%nat ∧ (calls w ≤ calls w')%nat ∧
  store_steps w w' ∧
  ∃ more, sent w' = sent w ++ more.

(** What was pushed from [w] to [w'] is relays only. *)
Definition relays_only (w w' : World) : Prop :=
  ∃ more, sent w' = sent w ++ more ∧ Forall is_relay more.

(** The backend that is not in use is not touched: with the relational
    one ([b] true) the file stays, with the file the client stays and
    nothing is pushed but what the relays pass on. *)
Definition untouched (b : bool) (w w' : World) : Prop :=
  if b then tasks_file w' = tasks_file w
  else pgClient w' = pgClient w ∧ relays_only w w'.

Definition evolves (w w' : World) : Prop :=
  advances w w' ∧ untouched (usePostgres w) w w'.

(** A computation that keeps to the side of backend [b], whatever it
    returns, and leaves the sessions alone. *)
Definition side (b : bool) {A} (m : Eff A) : Prop :=
  ∀ w r w', usePostgres w = b → m w = (r, w') →
    advances w w' ∧ clients w' = clients w ∧ untouched b w w'.

(** A computation that never throws. *)
Definition returns {A} (m : Eff A) : Prop := ∀ w, ∃ a w', m w = (Ok a, w').

(** An id the sequence has passed and no row carries: that of a deleted
    task. *)
Definition retired (n : Z) (db : Db) : Prop :=
  n < tasks_id_seq db ∧ n ∉ r_id <$> rows db.

(** A variable of the environment that is not set, or set to nothing. *)
Definition unset (v : option string) : Prop := v = None ∨ v = Some "".

(** A request the first server's handler does nothing for: an action
    that is none of the three, or an update naming an id no task has. *)
Definition no_op (data : Mutation) (tasks : list obj) : Prop :=
  (∀ o, is_action data (op_name o) = false) ∨
  (is_action data "update" = true ∧
   ∃ payload, task data = Some payload ∧
              Forall (λ t, t !! "id" ≠ payload !! "id") tasks).

(** ** Worlds and payloads of the further examples *)

(** The process as the module leaves it before [start] runs. *)
Definition boot_world : World :=
  mkWorld false false None (Some (TaskArray [demo_task])) ∅ [] demo_clock 0 (λ _, false) 0.

Definition railway_env : Env := mkEnv (Some "postgres://db/railway") None.
Definition railway_tables (url : string) : option Db :=
  if bool_decide (url = "postgres://db/railway") then Some demo_db else None.

(** A relational world whose second call fails, and a file-backed one whose
    first call fails. *)
Definition second_call_fails (k : nat) : bool := bool_decide (k = 1%nat).
Definition first_call_fails (k : nat) : bool := bool_decide (k = 0%nat).

Definition reread_fails_world : World :=
  mkWorld true true (Some demo_db) None {["s1"; "s2"]} [] demo_clock 0 second_call_fails 0.

Definition read_fails_world : World :=
  mkWorld false true None (Some (TaskArray [demo_task])) {["s1"; "s2"]} []
          demo_clock 0 first_call_fails 0.

Definition numbered_card : obj := {[ "title" := JStr "N"; "assignee" := JNum 42 ]}.
Definition rocket_card : obj := {[ "title" := JStr "T"; "emoji" := JStr "🚀🚀🚀" ]}.
Definition wordy_card : obj :=
  {[ "title" := JStr "T"; "priority" := JStr "as soon as it can be done" ]}.
Definition untitled_card : obj := {[ "column" := JStr "done" ]}.
Definition untitled_update : obj := {[ "id" := JNum 1; "column" := JStr "done" ]}.
Definition full_update : obj :=
  {[ "id" := JNum 1; "title" := JStr "Deploy now"; "updatedAt" := JNum 3000 ]}.
Definition file_minted : Z := 1700000000000.
Definition status_note : obj :=
  {[ "status" := JStr "building"; "clientId" := JStr "admin"; "timestamp" := JNum 0 ]}.

(** The first server's surroundings before it has ever run: no file. *)
Definition missing_file_world : World :=
  mkWorld false false None None ∅ [] demo_clock 0 (λ _, false) 0.

Definition no_url : Env := mkEnv None (Some "").
Definition move_request : Mutation := mkMutation (Some (JStr "move")) (Some retitle) None.
Definition update_new_card : Mutation :=
  mkMutation (Some (JStr "update")) (Some new_card) None.

(** * Properties *)

(** ** Running the primitives *)

Ltac eff_unfold :=
  unfold mbind, mret, Eff_bind, Eff_ret, eff_bind, eff_ret, try_catch, throw,
         gets, Date_now, pg_query, pg_query_leaving, external, io_emit, socket_emit in *.

Lemma getTasksPG_run w :
  getTasksPG w =
    match pgClient w with
    | None => (Ok [], w)
    | Some db =>
        (Ok (if faults w (calls w) then [] else row_to_task <$> exec_select db),
         set_calls (S (calls w)) w)
    end.
Proof.
  unfold getTasksPG. eff_unfold.
  destruct w as [up i pc tf cl se ck rd fl ca]; simpl.
  destruct pc as [db|]; [|done]. simpl.
  by destruct (fl ca).
Qed.

Lemma getTasksLocal_run w :
  getTasksLocal w =
    match tasks_file w with
    | None => (Ok [], w)
    | Some f =>
        (Ok (if faults w (calls w) then []
             else match f with TaskArray tasks => tasks | Unparsable => [] end),
         set_calls (S (calls w)) w)
    end.
Proof.
  unfold getTasksLocal, fs_existsSync, read_and_parse. eff_unfold.
  destruct w as [up i pc tf cl se ck rd fl ca]; simpl.
  destruct tf as [[tasks|]|]; simpl; try done; by destruct (fl ca).
Qed.

Lemma saveTasksLocal_run tasks w :
  saveTasksLocal tasks w =
    if faults w (calls w) then (Throw, set_calls (S (calls w)) w)
    else (Ok (), set_tasks_file (Some (TaskArray tasks)) (set_calls (S (calls w)) w)).
Proof. done. Qed.

Lemma deleteTaskPG_run taskId w :
  deleteTaskPG taskId w =
    match pgClient w with
    | None => (Ok false, w)
    | Some db =>
        if faults w (calls w) then (Ok false, set_calls (S (calls w)) w)
        else match exec_delete taskId db with
             | Some db' => (Ok true, set_pgClient (Some db') (set_calls (S (calls w)) w))
             | None => (Ok false, set_calls (S (calls w)) w)
             end
    end.
Proof.
  unfold deleteTaskPG. eff_unfold.
  destruct w as [up i pc tf cl se ck rd fl ca]; simpl.
  destruct pc as [db|]; [|done]. simpl.
  destruct (fl ca); [done|].
  by destruct (exec_delete taskId db).
Qed.

(** ** The status endpoint *)

Lemma count_column_cons name t tasks :
  count_column name (t :: tasks) =
    ((if decide (t !! "column" = Some (JStr name)) then 1 else 0) +
     count_column name tasks)%nat.
Proof. unfold count_column. rewrite filter_cons. by case_decide. Qed.

Lemma buckets_sum (tasks : list obj) :
  (count_column "backlog" tasks + count_column "progress" tasks +
   count_column "done" tasks + count_column "paused" tasks)%nat
  = length (filter known_column tasks).
Proof.
  induction tasks as [|t tasks IH]; [done|].
  rewrite !count_column_cons, filter_cons.
  destruct (decide (known_column t)) as [Hk|Hk]; unfold known_column in Hk.
  - simpl. rewrite <- IH.
    destruct Hk as [H|[H|[H|H]]]; rewrite H;
      repeat (case_decide; [simplify_eq|]); try done; simpl; lia.
  - rewrite <- IH.
    repeat (case_decide; [exfalso; apply Hk; tauto|]). done.
Qed.

Lemma bucket_ignores_unknown name (tasks : list obj) :
  name ∈ ["backlog"; "progress"; "done"; "paused"] →
  count_column name (filter known_column tasks) = count_column name tasks.
Proof.
  intros Hname. unfold count_column. f_equal.
  induction tasks as [|t tasks IH]; [done|].
  rewrite (filter_cons known_column), (filter_cons (λ t, t !! "column" = _) t tasks).
  destruct (decide (known_column t)) as [Hk|Hk].
  - rewrite filter_cons, IH. done.
  - rewrite IH. case_decide as Hc; [|done].
    exfalso. apply Hk. unfold known_column. rewrite Hc.
    repeat (apply elem_of_cons in Hname as [->|Hname]; [tauto|]).
    by apply elem_of_nil in Hname.
Qed.

Lemma list_tasks_returns w : ∃ tasks w', list_tasks w = (Ok tasks, w').
Proof.
  unfold list_tasks. eff_unfold.
  destruct (usePostgres w).
  - rewrite getTasksPG_run. destruct (pgClient w); eauto.
  - rewrite getTasksLocal_run. destruct (tasks_file w); eauto.
Qed.

(** ** Running [saveTaskPG] *)

Lemma saveTaskPG_no_client task w :
  pgClient w = None → saveTaskPG task w = (Ok false, w).
Proof.
  intros H. unfold saveTaskPG. eff_unfold. rewrite H. done.
Qed.

Lemma positive_id_branch (task : obj) n :
  task !! "id" = Some (JNum n) → 0 < n →
  truthy (task !! "id") && js_gt0 (task !! "id") = true.
Proof.
  intros -> Hn. unfold js_gt0. simpl.
  destruct (Z.eqb_spec n 0); [lia|]. destruct (Z.ltb_spec 0 n); [done|lia].
Qed.

Lemma saveTaskPG_update_run task w db :
  pgClient w = Some db →
  truthy (task !! "id") && js_gt0 (task !! "id") = true →
  saveTaskPG task w =
    let w1 := set_calls (S (calls w)) (set_reads (S (reads w)) w) in
    if faults w (calls w) then (Ok false, w1)
    else match exec_update (update_sets task (clock w (reads w))) (task !! "id") db with
         | Some db' => (Ok true, set_pgClient (Some db') w1)
         | None => (Ok false, w1)
         end.
Proof.
  intros Hc Hid. unfold saveTaskPG, update_sets. eff_unfold.
  rewrite Hc, Hid.
  destruct w as [up i pc tf cl se ck rd fl ca]; simpl in *. subst pc.
  assert (∀ l : list (column * option json),
            (0 <? length (l ++ [(c_updated_at, Some (JNum (ck rd)))]))%nat = true) as Hlen.
  { intros l. rewrite length_app. simpl. apply Nat.ltb_lt. lia. }
  rewrite Hlen. simpl.
  destruct (fl ca); [done|].
  by destruct (exec_update _ _ db).
Qed.

Lemma insert_payload_branch (task : obj) :
  insert_payload task → truthy (task !! "id") && js_gt0 (task !! "id") = false.
Proof.
  intros [->|(n & -> & Hn)]; [done|].
  unfold js_gt0. simpl. destruct (Z.ltb_spec 0 n); [lia|]. apply andb_false_r.
Qed.

Lemma broadcastClawdNotification_run task w :
  broadcastClawdNotification task w =
    if io w && usePostgres w then
      match js_or (task !! "assignee") (JStr "") with
      | JStr s =>
          if mentions_clawd (toLowerCase s)
          then (Ok (), set_sent (sent w ++ [(clients w,
                         clawd_task task (clawd_message task) (clock w (reads w)))])
                         (set_reads (S (reads w)) w))
          else (Ok (), w)
      | _ => (Throw, w)
      end
    else (Ok (), w).
Proof.
  unfold broadcastClawdNotification. eff_unfold.
  destruct (io w && usePostgres w); [|done].
  destruct (js_or (task !! "assignee") (JStr "")); try done. simpl.
  by destruct (mentions_clawd (toLowerCase s)).
Qed.

Lemma saveTaskPG_insert_run task w db :
  pgClient w = Some db →
  truthy (task !! "id") && js_gt0 (task !! "id") = false →
  saveTaskPG task w =
    let w2 := set_calls (S (calls w)) (set_reads (2 + reads w) w) in
    if faults w (calls w) then (Ok false, w2)
    else match exec_insert
                 (insert_values task (clock w (reads w)) (clock w (S (reads w)))) db with
         | None =>
             (Ok false,
              set_pgClient
                (Some (insert_refused
                         (insert_values task (clock w (reads w)) (clock w (S (reads w))))
                         db)) w2)
         | Some db' =>
             let w3 := set_pgClient (Some db') w2 in
             match js_or (task !! "assignee") (JStr "") with
             | JStr s =>
                 if mentions_clawd (toLowerCase s) then
                   if io w && usePostgres w
                   then (Ok true, set_sent (sent w ++ [clawd_event task w])
                                    (set_reads (4 + reads w) w3))
                   else (Ok true, set_reads (3 + reads w) w3)
                 else (Ok true, w3)
             | _ => (Ok false, w3)
             end
         end.
Proof.
  intros Hc Hins. unfold saveTaskPG, insert_values, clawd_event. eff_unfold.
  rewrite Hc, Hins.
  destruct w as [up i pc tf cl se ck rd fl ca]; simpl in *. subst pc.
  destruct (fl ca); [done|].
  destruct (exec_insert _ db) as [db'|]; [|done]. simpl.
  destruct (js_or (task !! "assignee") (JStr "")) as [|b|m|s] eqn:Ha; try done. simpl.
  destruct (mentions_clawd (toLowerCase s)) eqn:Hm; [|done].
  rewrite broadcastClawdNotification_run. simpl.
  unfold clawd_message. rewrite !lookup_insert_ne by done.
  rewrite Ha, Hm.
  destruct (i && up); done.
Qed.

(** ** The statements of the relational store *)

Lemma store_spec c d r r' :
  store c d r = Some r' →
  r_id r' = r_id r ∧ get_col c r' = d ∧ ∀ c', c' ≠ c → get_col c' r' = get_col c' r.
Proof.
  destruct r; destruct c, d; simpl; intros H; simplify_eq;
    (split; [done|split; [done|]]); intros []; done.
Qed.

Lemma store_all_spec sets : ∀ r r',
  store_all sets r = Some r' →
  r_id r' = r_id r ∧
  (∀ c, c ∉ sets.*1 → get_col c r' = get_col c r) ∧
  (NoDup sets.*1 → ∀ c d, (c, d) ∈ sets → get_col c r' = d).
Proof.
  induction sets as [|[c d] sets IH]; intros r r' H; simpl in H.
  - simplify_eq. split; [done|]. split; [done|]. intros _ c d Hin.
    by apply elem_of_nil in Hin.
  - destruct (store c d r) as [r1|] eqn:Hs; [|done].
    apply store_spec in Hs as (Hid & Hc & Hother).
    apply IH in H as (Hid' & Hout & Hin).
    split; [congruence|]. split.
    + intros c' Hc'. rewrite fmap_cons in Hc'. simpl in Hc'.
      apply not_elem_of_cons in Hc' as [Hne Hc'].
      rewrite Hout by done. by apply Hother.
    + rewrite fmap_cons. simpl. intros Hnd c' d' Hel.
      apply NoDup_cons in Hnd as [Hfresh Hnd].
      apply elem_of_cons in Hel as [Heq|Hel].
      * simplify_eq. by rewrite Hout.
      * by apply Hin.
Qed.

Lemma repeated_column_NoDup cs : repeated_column cs = false ↔ NoDup cs.
Proof.
  induction cs as [|c cs IH]; simpl.
  - split; [constructor|done].
  - rewrite orb_false_iff, bool_decide_eq_false, IH, NoDup_cons. done.
Qed.

Lemma coerce_all_spec sets : ∀ ds,
  coerce_all sets = Some ds →
  ds.*1 = sets.*1 ∧
  ∀ c v, (c, v) ∈ sets → ∃ d, (c, d) ∈ ds ∧ coerce c v = Some d.
Proof.
  induction sets as [|[c v] sets IH]; intros ds H; simpl in H.
  - simplify_eq. split; [done|]. intros c v Hin. by apply elem_of_nil in Hin.
  - destruct (coerce c v) as [d|] eqn:Hc; [|done].
    destruct (coerce_all sets) as [ds'|]; [|done]. simplify_eq.
    destruct (IH ds' eq_refl) as [Hfst Hin].
    split; [by rewrite !fmap_cons, Hfst|].
    intros c' v' Hel. apply elem_of_cons in Hel as [Heq|Hel].
    + simplify_eq. exists d. split; [left|done].
    + destruct (Hin c' v' Hel) as (d' & Hd' & Hco). exists d'. split; [by right|done].
Qed.

Lemma update_rows_spec n ds : ∀ rs rs',
  update_rows n ds rs = Some rs' →
  Forall2 (λ r r', if decide (r_id r = n) then store_all ds r = Some r' else r' = r) rs rs'.
Proof.
  induction rs as [|r rs IH]; intros rs' H; simpl in H.
  - simplify_eq. constructor.
  - destruct (Z.eqb_spec (r_id r) n) as [He|He].
    + destruct (store_all ds r) as [r1|] eqn:Hs; [|done].
      destruct (update_rows n ds rs) as [rs1|]; [|done]. simplify_eq.
      constructor; [|by apply IH]. by rewrite decide_True.
    + destruct (update_rows n ds rs) as [rs1|]; [|done]. simplify_eq.
      constructor; [|by apply IH]. by rewrite decide_False.
Qed.

Lemma update_rows_no_match n ds rs :
  Forall (λ r, r_id r ≠ n) rs → update_rows n ds rs = Some rs.
Proof.
  induction 1 as [|r rs Hr _ IH]; [done|]. simpl.
  destruct (Z.eqb_spec (r_id r) n); [done|]. by rewrite IH.
Qed.

(** The columns and bindings of the [SET] list the update branch builds. *)
Lemma update_sets_columns task now c :
  c ∈ (update_sets task now).*1 ↔
    (c = c_column_name ∧ is_Some (task !! "column")) ∨
    (c = c_title ∧ is_Some (task !! "title")) ∨
    (c = c_description ∧ is_Some (task !! "description")) ∨
    c = c_updated_at.
Proof.
  unfold update_sets, push_if.
  destruct (task !! "column"), (task !! "title"), (task !! "description"),
    (task !! "updatedAt"); simpl;
    rewrite ?elem_of_cons, elem_of_nil, ?is_Some_alt; naive_solver.
Qed.

Lemma update_sets_NoDup task now :
  NoDup (update_sets task now).*1 → task !! "updatedAt" = None.
Proof.
  unfold update_sets, push_if.
  destruct (task !! "updatedAt"); [|done].
  destruct (task !! "column"), (task !! "title"), (task !! "description"); simpl;
    rewrite ?NoDup_cons, ?elem_of_cons; naive_solver.
Qed.

Lemma update_sets_binds task now :
  (c_updated_at, Some (JNum now)) ∈ update_sets task now ∧
  (∀ v, task !! "title" = Some v → (c_title, Some v) ∈ update_sets task now) ∧
  (∀ v, task !! "description" = Some v → (c_description, Some v) ∈ update_sets task now) ∧
  (∀ v, task !! "column" = Some v → (c_column_name, Some v) ∈ update_sets task now).
Proof.
  unfold update_sets, push_if.
  destruct (task !! "column"), (task !! "title"), (task !! "description"),
    (task !! "updatedAt"); simpl;
    repeat split; intros; simplify_eq; rewrite ?elem_of_cons; naive_solver.
Qed.

Lemma from_option_DText_inj (a b : option string) :
  from_option DText DNull a = from_option DText DNull b → a = b.
Proof. destruct a, b; simpl; congruence. Qed.

Lemma from_option_DInt_inj (a b : option Z) :
  from_option DInt DNull a = from_option DInt DNull b → a = b.
Proof. destruct a, b; simpl; congruence. Qed.

Lemma coerce_bigint_num c n d :
  column_type c = Bigint → coerce c (Some (JNum n)) = Some d → d = DInt n.
Proof.
  unfold coerce. intros ->. simpl.
  destruct (_ && _); simpl; congruence.
Qed.

Lemma store_all_update_frame task n now ds r r' :
  coerce_all (update_sets task now) = Some ds →
  NoDup (update_sets task now).*1 →
  r_id r = n →
  store_all ds r = Some r' →
  pg_update_frame task n now r r'.
Proof.
  intros Hco Hnd Hn Hst.
  apply coerce_all_spec in Hco as [Hcols Hbind].
  apply store_all_spec in Hst as (Hid & Hout & Hin).
  rewrite Hcols in Hout, Hin. specialize (Hin Hnd).
  assert (∀ c v, (c, v) ∈ update_sets task now → coerce c v = Some (get_col c r')) as Hset.
  { intros c v Hel. destruct (Hbind c v Hel) as (d & Hd & ->). f_equal.
    symmetry. by apply Hin. }
  assert (∀ c, c ≠ c_updated_at →
               (c = c_column_name → task !! "column" = None) →
               (c = c_title → task !! "title" = None) →
               (c = c_description → task !! "description" = None) →
               get_col c r' = get_col c r) as Hkeep.
  { intros c H1 H2 H3 H4. apply Hout. rewrite update_sets_columns.
    intros [[-> [? Hs]] | [[-> [? Hs]] | [[-> [? Hs]] | -> ]]]; try done.
    - rewrite H2 in Hs; done.
    - rewrite H3 in Hs; done.
    - rewrite H4 in Hs; done. }
  destruct (update_sets_binds task now) as (Hup & Hti & Hde & Hcn).
  split; [done|]. split; [congruence|]. intros _.
  repeat split.
  - intros Hnone. assert (get_col c_title r' = get_col c_title r) as He
      by (apply Hkeep; done). simpl in He. congruence.
  - intros Hnone. apply from_option_DText_inj, (Hkeep c_description); done.
  - intros Hnone. apply from_option_DText_inj, (Hkeep c_column_name); done.
  - intros v Hv. apply (Hset c_title), Hti, Hv.
  - intros v Hv. apply (Hset c_description), Hde, Hv.
  - intros v Hv. apply (Hset c_column_name), Hcn, Hv.
  - apply from_option_DText_inj, (Hkeep c_tag); done.
  - apply from_option_DText_inj, (Hkeep c_assignee); done.
  - apply from_option_DText_inj, (Hkeep c_priority); done.
  - apply from_option_DText_inj, (Hkeep c_emoji); done.
  - apply from_option_DText_inj, (Hkeep c_due_date); done.
  - apply from_option_DInt_inj, (Hkeep c_created_at); done.
  - pose proof (Hset _ _ Hup) as Hc.
    apply coerce_bigint_num in Hc; [|done]. simpl in Hc.
    destruct (r_updated_at r'); simpl in Hc; congruence.
Qed.

Lemma exec_update_frame task now n db db' :
  exec_update (update_sets task now) (Some (JNum n)) db = Some db' →
  task !! "updatedAt" = None ∧
  tasks_id_seq db' = tasks_id_seq db ∧
  Forall2 (pg_update_frame task n now) (rows db) (rows db').
Proof.
  unfold exec_update.
  destruct (repeated_column _) eqn:Hrep; [done|].
  apply repeated_column_NoDup in Hrep.
  destruct (coerce_all _) as [ds|] eqn:Hco; [|done].
  simpl. destruct (_ && _); [|done].
  destruct (update_rows n ds (rows db)) as [rs|] eqn:Hup; [|done].
  simpl. intros [= <-]. simpl.
  split; [by eapply update_sets_NoDup|]. split; [done|].
  apply update_rows_spec in Hup.
  eapply Forall2_impl; [exact Hup|].
  intros r r' Hr. simpl in Hr. case_decide as Hn.
  - by eapply store_all_update_frame.
  - subst r'. split; [done|]. split; [done|]. intros; done.
Qed.

(** ** The statements of the file-backed store *)

Lemma findIndex_Some id : ∀ (tasks : list obj) idx,
  findIndex id tasks = Some idx →
  ∃ old, tasks !! idx = Some old ∧ old !! "id" = id.
Proof.
  induction tasks as [|t tasks IH]; intros idx H; simpl in H; [done|].
  unfold strict_eq in H. case_bool_decide as Heq.
  - simplify_eq. by exists t.
  - destruct (findIndex id tasks) as [i|]; [|done]. simpl in H. simplify_eq.
    simpl. by apply IH.
Qed.

Lemma findIndex_None id (tasks : list obj) :
  Forall (λ t, t !! "id" ≠ id) tasks ↔ findIndex id tasks = None.
Proof.
  induction tasks as [|t tasks IH]; simpl; [split; [done|constructor]|].
  unfold strict_eq. rewrite Forall_cons, IH. case_bool_decide as Heq.
  - split; [intros [? _]; done|done].
  - destruct (findIndex id tasks); simpl; naive_solver.
Qed.

Lemma merged_frame (task old : obj) now :
  local_update_frame task old (<["updatedAt" := JNum now]> (task ∪ old)) now.
Proof.
  split; [by rewrite lookup_insert_eq|].
  intros k Hk. rewrite lookup_insert_ne by done.
  rewrite lookup_union. by destruct (task !! k), (old !! k).
Qed.

Lemma update_local_run task w :
  update_local task w =
    let '(found, w1) :=
      match tasks_file w with
      | None => ([], w)
      | Some f => (if faults w (calls w) then []
                   else match f with TaskArray tasks => tasks | Unparsable => [] end,
                   set_calls (S (calls w)) w)
      end in
    match findIndex (task !! "id") found with
    | None => (Ok false, w1)
    | Some idx =>
        let merged := <["updatedAt" := JNum (clock w (reads w))]>
                        (task ∪ default ∅ (found !! idx)) in
        let w2 := set_reads (S (reads w)) w1 in
        if faults w (calls w1) then (Throw, set_calls (S (calls w1)) w2)
        else (Ok true, set_tasks_file (Some (TaskArray (<[idx:=merged]> found)))
                         (set_calls (S (calls w1)) w2))
    end.
Proof.
  unfold update_local. unfold mbind at 1. unfold Eff_bind, eff_bind.
  rewrite getTasksLocal_run.
  destruct w as [up i pc tf cl se ck rd fl ca]; simpl.
  destruct tf as [f|]; simpl.
  - destruct (findIndex _ _); [|done]. eff_unfold. simpl.
    rewrite saveTasksLocal_run. simpl. by destruct (fl (S ca)).
  - eff_unfold. simpl. done.
Qed.

(** ** C1: updates *)

(** C1 (as amended).  A successful update with a positive id keeps every
    stored field the payload does not carry, except [updatedAt], which is
    set to the clock reading of the update.  On the relational backend
    only [column], [title] and [description] are applied and [created_at]
    never changes; on the file backend every field the payload carries
    takes the payload's value, [createdAt] included. *)
Theorem update_keeps_absent_fields (task : obj) (n : Z) (w w' : World) :
  task !! "id" = Some (JNum n) → 0 < n →
  upsert_update task w = (Ok true, w') →
  update_effect task n w w'.
Proof.
  intros Hid Hn. unfold upsert_update, update_effect. eff_unfold.
  destruct (usePostgres w).
  - destruct (pgClient w) as [db|] eqn:Hc.
    + rewrite (saveTaskPG_update_run _ _ db) by eauto using positive_id_branch.
      simpl. destruct (faults w (calls w)); [done|].
      rewrite Hid.
      destruct (exec_update _ _ db) as [db'|] eqn:Hup; [|done].
      intros [= <-]. apply exec_update_frame in Hup as (_ & Hseq & Hrows).
      by exists db, db'.
    + by rewrite saveTaskPG_no_client.
  - rewrite update_local_run.
    destruct (tasks_file w) as [[tasks|]|] eqn:Hf; simpl;
      [destruct (faults w (calls w)) | destruct (faults w (calls w)) |]; simpl; try done.
    destruct (findIndex (task !! "id") tasks) as [idx|] eqn:Hidx; [|done].
    destruct (faults w (S (calls w))); [done|]. intros [= <-].
    destruct (findIndex_Some _ _ _ Hidx) as (old & Hold & Hoid).
    exists tasks, idx, old. eexists. rewrite Hold. simpl.
    repeat split; try done. apply merged_frame. apply merged_frame.
Qed.


Lemma update_keeps_absent_fields_witness :
  update_effect retitle 1 pg_world (upsert_update retitle pg_world).2 ∧
  update_effect redate 7 file_world (upsert_update redate file_world).2.
Proof.
  split; apply update_keeps_absent_fields;
    [reflexivity | lia | vm_compute; reflexivity
    |reflexivity | lia | vm_compute; reflexivity].
Defined.

(** C1, as stated, fails on the file backend: an update whose payload
    carries [createdAt] overwrites the stored [createdAt]. *)
Lemma update_overwrites_createdAt :
  let request := mkMutation (Some (JStr "update")) (Some redate) None in
  let result := post_tasks (Some request) file_world in
  result.1 = Ok (mutation_response true (demo_clock 1)) ∧
  (λ t, t !! "createdAt") <$> listing file_world = [Some (JNum 1000)] ∧
  (λ t, t !! "createdAt") <$> listing result.2 = [Some (JNum 5)].
Proof. repeat split; vm_compute; reflexivity. Qed.

(** ** C2: inserts *)

Ltac in_list :=
  simpl; repeat first [apply list_elem_of_here | apply list_elem_of_further].

Lemma exec_insert_spec task created updated db db' :
  exec_insert (insert_values task created updated) db = Some db' →
  ∃ r, db' = mkDb (rows db ++ [r]) (tasks_id_seq db + 1) ∧
       r_id r = tasks_id_seq db ∧
       tasks_id_seq db ≤ int4_max ∧
       r_created_at r = Some created ∧
       r_updated_at r = Some updated ∧
       insert_defaults task r.
Proof.
  unfold exec_insert. simpl length. simpl negb.
  destruct (Z.ltb_spec int4_max (tasks_id_seq db)) as [|Hseq]; [done|].
  destruct (coerce_all _) as [ds|] eqn:Hco; [|done].
  destruct (store_all ds _) as [r|] eqn:Hst; [|done].
  simpl. intros [= <-]. exists r.
  apply coerce_all_spec in Hco as [Hcols Hbind].
  apply store_all_spec in Hst as (Hid & _ & Hin).
  rewrite Hcols in Hin.
  assert (NoDup (zip insert_columns (insert_values task created updated)).*1) as Hnd.
  { simpl. repeat (apply NoDup_cons; split; [rewrite ?elem_of_cons, elem_of_nil; naive_solver|]).
    constructor. }
  specialize (Hin Hnd).
  assert (∀ c v, (c, v) ∈ zip insert_columns (insert_values task created updated) →
                 coerce c v = Some (get_col c r)) as Hset.
  { intros c v Hel. destruct (Hbind c v Hel) as (d & Hd & ->). f_equal.
    symmetry. by apply Hin. }
  assert (∀ c (get : Row → option string) k dflt,
            (∀ x, get_col c x = from_option DText DNull (get x)) →
            (c, Some (js_or (task !! k) (JStr dflt))) ∈
               zip insert_columns (insert_values task created updated) →
            coerce c (Some (JStr dflt)) = Some (DText dflt) →
            task !! k = None → get r = Some dflt) as Hdef.
  { intros c get k dflt Hget Hel Hco Hnone.
    apply Hset in Hel. rewrite Hnone in Hel.
    change (js_or None (JStr dflt)) with (JStr dflt) in Hel.
    rewrite Hco, Hget in Hel.
    symmetry. apply from_option_DText_inj. simpl. by injection Hel. }
  split; [done|]. split; [done|]. split; [done|].
  split; [|split].
  - assert (coerce c_created_at (Some (JNum created)) = Some (get_col c_created_at r)) as Hc
      by (apply Hset; in_list).
    apply coerce_bigint_num in Hc; [|done]. simpl in Hc.
    destruct (r_created_at r); simpl in Hc; congruence.
  - assert (coerce c_updated_at (Some (JNum updated)) = Some (get_col c_updated_at r)) as Hc
      by (apply Hset; in_list).
    apply coerce_bigint_num in Hc; [|done]. simpl in Hc.
    destruct (r_updated_at r); simpl in Hc; congruence.
  - repeat split.
    + apply (Hdef c_column_name); [done| |done].
      in_list.
    + apply (Hdef c_priority); [done| |done].
      in_list.
    + intros Hnone.
      assert (coerce c_title (Some (js_or (task !! "title") (JStr ""))) =
              Some (get_col c_title r)) as Hc
        by (apply Hset; in_list).
      rewrite Hnone in Hc.
      change (coerce c_title (Some (js_or None (JStr "")))) with (Some (DText "")) in Hc.
      simpl in Hc. congruence.
    + apply (Hdef c_description); [done| |done].
      in_list.
    + apply (Hdef c_tag); [done| |done].
      in_list.
    + apply (Hdef c_assignee); [done| |done].
      in_list.
    + apply (Hdef c_emoji); [done| |done].
      in_list.
    + apply (Hdef c_due_date); [done| |done].
      in_list.
Qed.

Lemma saveTaskPG_insert_true task w w' db :
  pgClient w = Some db →
  truthy (task !! "id") && js_gt0 (task !! "id") = false →
  saveTaskPG task w = (Ok true, w') →
  ∃ db' s,
    exec_insert (insert_values task (clock w (reads w)) (clock w (S (reads w)))) db
      = Some db' ∧
    pgClient w' = Some db' ∧
    js_or (task !! "assignee") (JStr "") = JStr s ∧
    sent w' = sent w ++
      (if mentions_clawd (toLowerCase s) && (io w && usePostgres w)
       then [clawd_event task w] else []).
Proof.
  intros Hc Hins. rewrite (saveTaskPG_insert_run _ _ db) by done. simpl.
  destruct (faults w (calls w)); [done|].
  destruct (exec_insert _ db) as [db'|]; [|done].
  destruct (js_or (task !! "assignee") (JStr "")) as [| | |s]; try done.
  intros H. exists db', s. split; [done|]. split; [|split; [done|]].
  - destruct (mentions_clawd _), (io w && usePostgres w); by simplify_eq.
  - destruct (mentions_clawd _), (io w && usePostgres w); simplify_eq; simpl;
      by rewrite ?app_nil_r.
Qed.

Lemma add_local_run task w :
  add_local task w =
    let '(found, w1) :=
      match tasks_file w with
      | None => ([], w)
      | Some f => (if faults w (calls w) then []
                   else match f with TaskArray tasks => tasks | Unparsable => [] end,
                   set_calls (S (calls w)) w)
      end in
    let newTask :=
      <["updatedAt" := JNum (clock w (S (S (reads w))))]>
        (<["createdAt" := JNum (clock w (S (reads w)))]>
           (<["id" := JNum (clock w (reads w))]> task)) in
    let w2 := set_reads (3 + reads w) w1 in
    if faults w (calls w1) then (Throw, set_calls (S (calls w1)) w2)
    else (Ok true, set_tasks_file (Some (TaskArray (found ++ [newTask])))
                     (set_calls (S (calls w1)) w2)).
Proof.
  unfold add_local. unfold mbind at 1. unfold Eff_bind, eff_bind.
  rewrite getTasksLocal_run.
  destruct w as [up i pc tf cl se ck rd fl ca]; simpl.
  destruct tf as [f|]; eff_unfold; simpl.
  - rewrite saveTasksLocal_run. simpl. by destruct (fl (S ca)).
  - rewrite saveTasksLocal_run. simpl. by destruct (fl ca).
Qed.

(** C2 (as amended).  A successful relational insert appends a row whose
    id is the next value of the sequence, hence distinct from every id of
    a well-formed table, with [created_at] and [updated_at] the two clock
    readings of the insert and with [column], [priority] and the string
    fields defaulted; a successful file-backed insert appends the payload
    with [id], [createdAt] and [updatedAt] set to three successive clock
    readings and defaults nothing. *)
Theorem insert_assigns_id_and_stamps (task : obj) (w w' : World) :
  insert_payload task →
  upsert_insert task w = (Ok true, w') →
  insert_effect task w w'.
Proof.
  intros Hins. unfold upsert_insert, insert_effect. eff_unfold.
  destruct (usePostgres w).
  - destruct (pgClient w) as [db|] eqn:Hc; [|by rewrite saveTaskPG_no_client].
    intros H.
    apply (saveTaskPG_insert_true _ _ _ db) in H
      as (db' & s & Hex & Hpg & _); [|done|by apply insert_payload_branch].
    apply exec_insert_spec in Hex as (r & -> & Hid & _ & Hcr & Hup & Hdef).
    exists db, r. split; [done|]. split; [done|]. split; [done|]. split; [|done].
    intros [_ Hlt] Hel. apply list_elem_of_fmap in Hel as (r0 & Heq & Hel).
    rewrite Forall_forall in Hlt. specialize (Hlt r0 Hel). lia.
  - rewrite add_local_run.
    rewrite getTasksLocal_run.
    destruct (tasks_file w) as [f|]; simpl.
    + destruct (faults w (S (calls w))); [done|]. intros [= <-].
      eexists _, _, _. split; [done|]. simpl. split; [done|].
      rewrite lookup_insert_eq.
      rewrite !(lookup_insert_ne _ "updatedAt") by done.
      rewrite lookup_insert_eq.
      rewrite !(lookup_insert_ne _ "createdAt") by done.
      rewrite lookup_insert_eq. repeat split.
      intros k Hk. rewrite !not_elem_of_cons in Hk.
      rewrite !lookup_insert_ne by naive_solver. done.
    + destruct (faults w (calls w)); [done|]. intros [= <-].
      eexists _, _, _. split; [done|]. simpl. split; [done|].
      rewrite lookup_insert_eq.
      rewrite !(lookup_insert_ne _ "updatedAt") by done.
      rewrite lookup_insert_eq.
      rewrite !(lookup_insert_ne _ "createdAt") by done.
      rewrite lookup_insert_eq. repeat split.
      intros k Hk. rewrite !not_elem_of_cons in Hk.
      rewrite !lookup_insert_ne by naive_solver. done.
Qed.


Lemma insert_assigns_id_and_stamps_witness :
  insert_effect new_card pg_world (upsert_insert new_card pg_world).2 ∧
  insert_effect new_card file_world (upsert_insert new_card file_world).2.
Proof.
  split; apply insert_assigns_id_and_stamps;
    [left; reflexivity | reflexivity | left; reflexivity | reflexivity].
Defined.

(** C2, as stated, fails on the file backend: an added task that carries
    no [column] and no [priority] is stored without them; its [createdAt]
    and [updatedAt] are separate clock readings, which differ when the
    clock ticks in between; and its [id] is a clock reading too, so two
    tasks added at the same reading share their id. *)
Lemma add_local_applies_no_defaults :
  let result := post_tasks (Some add_new_card) file_world in
  let twice := post_tasks (Some add_new_card)
                 (post_tasks (Some add_plain_card) steady_file_world).2 in
  result.1 = Ok (mutation_response true (demo_clock 3)) ∧
  (λ t, (t !! "title", t !! "column", t !! "priority")) <$> listing result.2
  = [ (Some (JStr "Deploy"), Some (JStr "progress"), None);
      (Some (JStr "X"), None, None) ] ∧
  (λ t, (t !! "createdAt", t !! "updatedAt")) <$> listing result.2
  = [ (Some (JNum 1000), Some (JNum 2000));
      (Some (JNum 1700000000001), Some (JNum 1700000000002)) ] ∧
  twice.1 = Ok (mutation_response true 1700000000000) ∧
  (λ t, (t !! "title", t !! "id")) <$> listing twice.2
  = [ (Some (JStr "Y"), Some (JNum 1700000000000));
      (Some (JStr "X"), Some (JNum 1700000000000)) ].
Proof. repeat split; vm_compute; reflexivity. Qed.

(** ** C3: errors at the store boundary *)

Lemma saveTaskPG_returns task w :
  ∃ b w', saveTaskPG task w = (Ok b, w') ∧ (faults w (calls w) = true → b = false).
Proof.
  destruct (pgClient w) as [db|] eqn:Hc.
  - destruct (truthy (task !! "id") && js_gt0 (task !! "id")) eqn:Hb.
    + rewrite (saveTaskPG_update_run _ _ db) by done. simpl.
      destruct (faults w (calls w)); [by eexists _, _|].
      destruct (exec_update _ _ db); eexists _, _; (split; [done|done]).
    + rewrite (saveTaskPG_insert_run _ _ db) by done. simpl.
      destruct (faults w (calls w)); [by eexists _, _|].
      destruct (exec_insert _ db); [|by eexists _, _].
      destruct (js_or _ _); try (by eexists _, _).
      destruct (mentions_clawd _); [|by eexists _, _].
      destruct (io w && usePostgres w); by eexists _, _.
  - rewrite saveTaskPG_no_client by done. by eexists _, _.
Qed.

(** C3 (as amended).  [getTasksPG], [saveTaskPG], [deleteTaskPG] and
    [getTasksLocal] never throw: a failing call inside them comes back as
    an empty list or as [false].  [saveTasksLocal] has no handler and
    throws when the write fails, leaving the file as it was. *)
Theorem store_errors_are_caught (task : obj) (taskId : option json)
    (tasks : list obj) (w : World) :
  (∃ l w', getTasksPG w = (Ok l, w') ∧ (faults w (calls w) = true → l = [])) ∧
  (∃ b w', saveTaskPG task w = (Ok b, w') ∧ (faults w (calls w) = true → b = false)) ∧
  (∃ b w', deleteTaskPG taskId w = (Ok b, w') ∧ (faults w (calls w) = true → b = false)) ∧
  (∃ l w', getTasksLocal w = (Ok l, w') ∧ (faults w (calls w) = true → l = [])) ∧
  (faults w (calls w) = true →
     ∃ w', saveTasksLocal tasks w = (Throw, w') ∧ tasks_file w' = tasks_file w).
Proof.
  split; [|split; [|split; [|split]]].
  - rewrite getTasksPG_run. destruct (pgClient w); eexists _, _; (split; [done|]);
      [by intros ->|done].
  - apply saveTaskPG_returns.
  - rewrite deleteTaskPG_run. destruct (pgClient w) as [db|]; [|by eexists _, _].
    destruct (faults w (calls w)); [by eexists _, _|].
    destruct (exec_delete taskId db); by eexists _, _.
  - rewrite getTasksLocal_run. destruct (tasks_file w); eexists _, _; (split; [done|]);
      [by intros ->|done].
  - intros Hf. rewrite saveTasksLocal_run, Hf. by eexists.
Qed.

Lemma store_errors_are_caught_witness :
  (getTasksLocal failing_world).1 = Ok [] ∧
  (saveTasksLocal [demo_task] failing_world).1 = Throw.
Proof.
  destruct (store_errors_are_caught demo_task (Some (JNum 7)) [demo_task] failing_world)
    as (_ & _ & _ & (l & w1 & Hl & Hempty) & Hsave).
  destruct (Hsave eq_refl) as (w2 & Hw & _).
  rewrite Hl, Hw, (Hempty eq_refl). split; reflexivity.
Defined.

(** C3, as stated, fails on the file backend: a write that fails is thrown
    out of [saveTasksLocal], and the add request ends in the 400 reply
    rather than in [success: false]. *)
Lemma saveTasksLocal_throws :
  let request := mkMutation (Some (JStr "add")) (Some demo_task) None in
  (saveTasksLocal [demo_task] failing_world).1 = Throw ∧
  (add_local demo_task failing_world).1 = Throw ∧
  (post_tasks (Some request) failing_world).1 = Ok bad_request.
Proof. repeat split; vm_compute; reflexivity. Qed.

(** ** Listing: [ORDER BY id DESC] *)

Lemma insert_desc_perm r rs : insert_desc r rs ≡ₚ r :: rs.
Proof.
  induction rs as [|r' rs IH]; simpl; [done|].
  destruct (r_id r' <=? r_id r); [done|].
  rewrite IH. apply Permutation_swap.
Qed.

Lemma sort_desc_perm rs : sort_desc rs ≡ₚ rs.
Proof.
  induction rs as [|r rs IH]; simpl; [done|].
  by rewrite insert_desc_perm, IH.
Qed.


Lemma insert_desc_sorted r rs : descending rs → descending (insert_desc r rs).
Proof.
  unfold descending. induction 1 as [|r' rs Hs IH Hall]; simpl.
  - repeat constructor.
  - destruct (Z.leb_spec (r_id r') (r_id r)).
    + constructor; [by constructor|].
      constructor; [done|]. eapply Forall_impl; [exact Hall|]. simpl. lia.
    + constructor; [done|]. rewrite insert_desc_perm.
      constructor; [lia|done].
Qed.

Lemma sort_desc_sorted rs : descending (sort_desc rs).
Proof.
  induction rs as [|r rs IH]; simpl; [constructor|]. by apply insert_desc_sorted.
Qed.

Lemma insert_desc_head r rs :
  Forall (λ x, r_id x ≤ r_id r) rs → insert_desc r rs = r :: rs.
Proof.
  destruct 1 as [|r' rs Hle _]; simpl; [done|].
  destruct (Z.leb_spec (r_id r') (r_id r)); [done|lia].
Qed.

Section order_by_and_filter.
Context (P : Row → Prop) `{!∀ r, Decision (P r)}.

Lemma filter_insert_desc r rs :
  descending rs →
  filter P (insert_desc r rs) =
    if decide (P r) then insert_desc r (filter P rs) else filter P rs.
Proof.
  unfold descending. induction 1 as [|r' rs Hs IH Hall]; simpl.
  - rewrite filter_cons, filter_nil. by case_decide.
  - destruct (Z.leb_spec (r_id r') (r_id r)) as [Hle|Hgt].
    + rewrite (filter_cons P r). case_decide; [|done].
      rewrite insert_desc_head; [done|].
      apply Forall_forall. intros x Hx. apply list_elem_of_filter in Hx as [_ Hx].
      apply elem_of_cons in Hx as [->|Hx]; [done|].
      rewrite Forall_forall in Hall. specialize (Hall x Hx). simpl in Hall. lia.
    + rewrite (filter_cons P r'), IH, (filter_cons P r' rs).
      destruct (decide (P r')), (decide (P r)); simpl; try done.
      destruct (Z.leb_spec (r_id r') (r_id r)); [lia|done].
Qed.

(** Selecting after a delete is deleting from the selection. *)
Lemma sort_desc_filter rs :
  sort_desc (filter P rs) = filter P (sort_desc rs).
Proof.
  induction rs as [|r rs IH]; simpl; [done|].
  rewrite filter_cons, filter_insert_desc by apply sort_desc_sorted.
  case_decide; simpl; by rewrite IH.
Qed.

End order_by_and_filter.

Lemma row_to_task_id r : row_to_task r !! "id" = Some (JNum (r_id r)).
Proof. unfold row_to_task. by rewrite lookup_insert_eq. Qed.

Lemma filter_all {A} (P : A → Prop) `{!∀ x, Decision (P x)} (l : list A) :
  Forall P l → filter P l = l.
Proof.
  induction 1 as [|x l Hx _ IH]; [done|].
  rewrite filter_cons, decide_True by done. by rewrite IH.
Qed.

Lemma filter_rows_tasks n (rs : list Row) :
  row_to_task <$> filter (λ r, r_id r ≠ n) rs =
  filter (λ t, t !! "id" ≠ Some (JNum n)) (row_to_task <$> rs).
Proof.
  induction rs as [|r rs IH]; [done|].
  rewrite fmap_cons, !filter_cons, row_to_task_id.
  destruct (decide (r_id r ≠ n)) as [Hn|Hn].
  - rewrite decide_True by congruence. by rewrite fmap_cons, IH.
  - rewrite decide_False by (intros H; apply Hn; congruence). done.
Qed.

Lemma listing_ids n w db :
  usePostgres w = true → pgClient w = Some db →
  Forall (λ t, t !! "id" ≠ Some (JNum n)) (listing w) →
  Forall (λ r, r_id r ≠ n) (rows db).
Proof.
  unfold listing, exec_select. intros -> -> H.
  rewrite Forall_fmap in H. rewrite <- (sort_desc_perm (rows db)).
  eapply Forall_impl; [exact H|]. intros r Hr. simpl in Hr.
  rewrite row_to_task_id in Hr. congruence.
Qed.

Lemma list_tasks_listing w :
  faults w (calls w) = false → (list_tasks w).1 = Ok (listing w).
Proof.
  intros Hf. unfold list_tasks, listing. eff_unfold.
  destruct (usePostgres w).
  - rewrite getTasksPG_run. destruct (pgClient w); [|done]. by rewrite Hf.
  - rewrite getTasksLocal_run. destruct (tasks_file w) as [[|]|]; by rewrite ?Hf.
Qed.

(** ** C8: the status buckets *)

(** C8.  When the read of the store goes through, the status reply counts
    the stored collection: [total] is the number of its tasks, the four
    buckets add up to the number of its tasks whose [column] is one of
    backlog, progress, done and paused, and a task with any other
    [column] is counted by none of them. *)
Theorem status_buckets (w : World) :
  faults w (calls w) = false →
  ∃ st w2,
    get_status w = (Ok st, w2) ∧
    total st = length (listing w) ∧
    (backlog st + progress st + done st + paused st)%nat
      = length (filter known_column (listing w)) ∧
    backlog st = count_column "backlog" (filter known_column (listing w)) ∧
    progress st = count_column "progress" (filter known_column (listing w)) ∧
    done st = count_column "done" (filter known_column (listing w)) ∧
    paused st = count_column "paused" (filter known_column (listing w)).
Proof.
  intros Hok. pose proof (list_tasks_listing w Hok) as Hl.
  destruct (list_tasks w) as [r w1] eqn:Hrun. simpl in Hl. subst r.
  unfold get_status. eff_unfold. rewrite Hrun. simpl.
  eexists _, _. split; [done|]. simpl.
  split; [done|]. split; [apply buckets_sum|].
  rewrite !bucket_ignores_unknown by (repeat constructor). done.
Qed.

Lemma status_buckets_witness :
  ∃ st w2,
    get_status pg_world = (Ok st, w2) ∧
    total st = length (listing pg_world) ∧
    (backlog st + progress st + done st + paused st)%nat
      = length (filter known_column (listing pg_world)) ∧
    backlog st = count_column "backlog" (filter known_column (listing pg_world)) ∧
    progress st = count_column "progress" (filter known_column (listing pg_world)) ∧
    done st = count_column "done" (filter known_column (listing pg_world)) ∧
    paused st = count_column "paused" (filter known_column (listing pg_world)).
Proof. apply (status_buckets pg_world). reflexivity. Defined.

Example status_skips_archived :
  (λ st, (total st, backlog st, progress st, done st, paused st))
    <$> match (get_status pg_world).1 with Ok st => Some st | Throw => None end
  = Some (2, 0, 1, 0, 0)%nat.
Proof. vm_compute. reflexivity. Qed.

(** ** C5: an update whose id matches nothing *)

Lemma coerce_all_update_sets task now :
  task !! "updatedAt" = None →
  is_Some (coerce c_column_name (task !! "column")) →
  is_Some (coerce c_title (task !! "title")) →
  is_Some (coerce c_description (task !! "description")) →
  - int8_max - 1 ≤ now ≤ int8_max →
  repeated_column (update_sets task now).*1 = false ∧
  is_Some (coerce_all (update_sets task now)).
Proof.
  intros Hup [d1 H1] [d2 H2] [d3 H3] Hnow.
  assert (coerce c_updated_at (Some (JNum now)) = Some (DInt now)) as Hc.
  { unfold coerce. simpl.
    destruct (Z.leb_spec (- int8_max - 1) now); [|lia].
    destruct (Z.leb_spec now int8_max); [done|lia]. }
  unfold update_sets, push_if. rewrite Hup.
  destruct (task !! "column"), (task !! "title"), (task !! "description");
    simpl; rewrite ?H1, ?H2, ?H3, ?Hc; split; done.
Qed.

Lemma exec_update_no_match task now n db :
  0 < n → n ≤ int4_max →
  repeated_column (update_sets task now).*1 = false →
  is_Some (coerce_all (update_sets task now)) →
  Forall (λ r, r_id r ≠ n) (rows db) →
  exec_update (update_sets task now) (Some (JNum n)) db = Some db.
Proof.
  intros Hn Hmax Hrep [ds Hds] Hall. unfold exec_update.
  rewrite Hrep, Hds. simpl.
  destruct (Z.leb_spec (- int4_max - 1) n); [|unfold int4_max in *; lia].
  destruct (Z.leb_spec n int4_max); [|lia]. simpl.
  rewrite update_rows_no_match by done. by destruct db.
Qed.

Lemma exec_update_no_match_unchanged sets n db db' :
  Forall (λ r, r_id r ≠ n) (rows db) →
  exec_update sets (Some (JNum n)) db = Some db' → db' = db.
Proof.
  intros Hall. unfold exec_update.
  destruct (repeated_column _); [done|].
  destruct (coerce_all sets) as [ds|]; [|done].
  simpl. destruct (_ && _); [|done].
  rewrite update_rows_no_match by done. simpl. intros [= <-]. by destruct db.
Qed.

(** C5 (as amended).  An update whose positive id matches no stored task
    leaves the store as it was.  The relational backend answers [true]
    whenever the server accepts the statement; the file backend answers
    [false]. *)
Theorem update_of_missing_id (task : obj) (n : Z) (w : World) :
  task !! "id" = Some (JNum n) → 0 < n →
  Forall (λ t, t !! "id" ≠ Some (JNum n)) (listing w) →
  ∃ b w',
    upsert_update task w = (Ok b, w') ∧
    pgClient w' = pgClient w ∧ tasks_file w' = tasks_file w ∧
    if usePostgres w
    then is_Some (pgClient w) → update_accepted task n w → b = true
    else b = false.
Proof.
  intros Hid Hn Hmiss. unfold upsert_update. eff_unfold.
  destruct (usePostgres w) eqn:Hpg.
  - destruct (pgClient w) as [db|] eqn:Hc.
    + pose proof (listing_ids n w db Hpg Hc Hmiss) as Hrows.
      rewrite (saveTaskPG_update_run _ _ db) by eauto using positive_id_branch.
      simpl. rewrite Hid.
      destruct (faults w (calls w)) eqn:Hf.
      { eexists _, _. split; [done|]. split; [done|]. split; [done|].
        intros _ (Hf' & _). congruence. }
      destruct (exec_update _ _ db) as [db'|] eqn:Hex.
      * apply exec_update_no_match_unchanged in Hex as ->; [|done].
        eexists _, _. split; [done|]. simpl. done.
      * eexists _, _. split; [done|]. simpl. split; [done|]. split; [done|].
        intros _ (_ & Hup & Hmax & H1 & H2 & H3 & Hnow).
        destruct (coerce_all_update_sets task (clock w (reads w)) Hup H1 H2 H3 Hnow)
          as [Hrep Hco].
        rewrite exec_update_no_match in Hex; done.
    + rewrite saveTaskPG_no_client by done.
      eexists _, _. split; [done|]. split; [done|]. split; [done|].
      by intros [? ?].
  - rewrite update_local_run.
    unfold listing in Hmiss. rewrite Hpg in Hmiss.
    destruct (tasks_file w) as [[tasks|]|] eqn:Hfile; simpl.
    + destruct (faults w (calls w)); simpl.
      * by eexists _, _.
      * rewrite <- Hid in Hmiss. apply findIndex_None in Hmiss.
        rewrite Hmiss. by eexists _, _.
    + destruct (faults w (calls w)); simpl; by eexists _, _.
    + by eexists _, _.
Qed.


Lemma update_of_missing_id_witness :
  (∃ b w', upsert_update retitle_9 pg_world = (Ok b, w') ∧
           pgClient w' = pgClient pg_world ∧ tasks_file w' = tasks_file pg_world ∧
           (is_Some (pgClient pg_world) → update_accepted retitle_9 9 pg_world → b = true)) ∧
  (∃ b w', upsert_update retitle_9 file_world = (Ok b, w') ∧
           pgClient w' = pgClient file_world ∧ tasks_file w' = tasks_file file_world ∧
           b = false).
Proof.
  split.
  - apply (update_of_missing_id retitle_9 9 pg_world); [reflexivity | lia |].
    compute_done.
  - apply (update_of_missing_id retitle_9 9 file_world); [reflexivity | lia |].
    compute_done.
Defined.

Example update_missing_row_pg :
  (λ r, (r.1, pgClient r.2)) (upsert_update retitle_9 pg_world)
  = (Ok true, Some demo_db).
Proof. vm_compute. reflexivity. Qed.

(** C5, as stated, fails on the file backend: an update whose id matches
    no stored task is answered with [success: false]. *)
Lemma update_local_missing_reports_failure :
  let request := mkMutation (Some (JStr "update")) (Some retitle_9) None in
  let result := post_tasks (Some request) file_world in
  Forall (λ t, t !! "id" ≠ Some (JNum 9)) (listing file_world) ∧
  result.1 = Ok (mutation_response false (demo_clock 0)) ∧
  listing result.2 = listing file_world.
Proof.
  split; [|split].
  - compute_done.
  - vm_compute. reflexivity.
  - vm_compute. reflexivity.
Qed.

(** ** C6: delete *)

Lemma delete_local_run taskId w :
  delete_local taskId w =
    let '(found, w1) :=
      match tasks_file w with
      | None => ([], w)
      | Some f => (if faults w (calls w) then []
                   else match f with TaskArray tasks => tasks | Unparsable => [] end,
                   set_calls (S (calls w)) w)
      end in
    if faults w (calls w1) then (Throw, set_calls (S (calls w1)) w1)
    else (Ok true,
          set_tasks_file (Some (TaskArray (filter (λ t, t !! "id" ≠ taskId) found)))
            (set_calls (S (calls w1)) w1)).
Proof.
  unfold delete_local. unfold mbind at 1. unfold Eff_bind, eff_bind.
  rewrite getTasksLocal_run.
  destruct w as [up i pc tf cl se ck rd fl ca]; simpl.
  destruct tf as [f|]; eff_unfold; simpl.
  - rewrite saveTasksLocal_run. simpl. by destruct (fl (S ca)).
  - rewrite saveTasksLocal_run. simpl. by destruct (fl ca).
Qed.

Lemma filter_out_one (rs : list Row) n :
  NoDup (r_id <$> rs) →
  (length rs ≤ S (length (filter (λ r, r_id r ≠ n) rs)))%nat.
Proof.
  induction rs as [|r rs IH]; [simpl; lia|].
  rewrite fmap_cons. intros [Hfresh Hnd]%NoDup_cons.
  rewrite filter_cons. case_decide as Hr.
  - simpl. specialize (IH Hnd). lia.
  - rewrite filter_all; [done|].
    apply Forall_forall. intros x Hx Heq. apply Hfresh.
    rewrite Hr, <- Heq. by apply list_elem_of_fmap_2.
Qed.

(** C6.  When no call fails, deleting an integer id answers [true] and the
    tasks listed afterwards are the tasks listed before without those
    carrying that id, in their order: the list is unchanged when none
    carries it, and a well-formed table loses one row at most.  The one
    exception is an id outside the range of the [INTEGER] column on the
    relational backend: the server refuses it, the answer is [false] and
    the list is unchanged. *)
Theorem delete_removes_exactly (n : Z) (w : World) :
  no_faults w →
  (usePostgres w = true → is_Some (pgClient w)) →
  ∃ b w',
    store_delete (Some (JNum n)) w = (Ok b, w') ∧
    (list_tasks w').1 = Ok (listing w') ∧
    if usePostgres w && negb (int4 n)
    then b = false ∧ listing w' = listing w
    else
      b = true ∧
      listing w' = filter (λ t, t !! "id" ≠ Some (JNum n)) (listing w) ∧
      (Forall (λ t, t !! "id" ≠ Some (JNum n)) (listing w) → listing w' = listing w) ∧
      (usePostgres w = true → world_wf w →
         (length (listing w) ≤ S (length (listing w')))%nat).
Proof.
  intros Hnf Hpg.
  assert (∀ w', faults w' = faults w → (list_tasks w').1 = Ok (listing w')) as Hlist.
  { intros w' Hfl. apply list_tasks_listing. rewrite Hfl. apply Hnf. }
  unfold store_delete. eff_unfold.
  destruct (usePostgres w) eqn:Hup.
  - destruct (Hpg eq_refl) as [db Hc].
    rewrite deleteTaskPG_run, Hc, Hnf. unfold exec_delete, int4. simpl.
    destruct ((- int4_max - 1 <=? n) && (n <=? int4_max)); simpl.
    + eexists _, _. split; [done|]. split; [by apply Hlist|].
      split; [done|].
      assert (listing (set_pgClient
                (Some (mkDb (filter (λ r, r_id r ≠ n) (rows db)) (tasks_id_seq db)))
                (set_calls (S (calls w)) w))
              = filter (λ t, t !! "id" ≠ Some (JNum n)) (listing w)) as Hl.
      { unfold listing. simpl. rewrite Hup, Hc. unfold exec_select. simpl.
        by rewrite sort_desc_filter, filter_rows_tasks. }
      split; [exact Hl|]. split.
      * intros Hall. rewrite Hl. by apply filter_all.
      * intros _ Hwf. unfold world_wf in Hwf. rewrite Hc in Hwf. destruct Hwf as [Hnd _].
        unfold listing. simpl. rewrite Hup, Hc. unfold exec_select. simpl.
        rewrite sort_desc_filter, !length_fmap. apply filter_out_one.
        by rewrite (sort_desc_perm (rows db)).
    + eexists _, _. split; [done|]. split; [by apply Hlist|].
      split; [done|]. unfold listing. simpl. by rewrite Hup, Hc.
  - rewrite delete_local_run.
    destruct (tasks_file w) as [[tasks|]|] eqn:Hfile; simpl; rewrite ?Hnf;
      (eexists _, _; split; [done|]); (split; [by apply Hlist|]);
      (split; [done|]);
      (assert (∀ l l' : list obj, l' = filter (λ t, t !! "id" ≠ Some (JNum n)) l →
                 l' = filter (λ t, t !! "id" ≠ Some (JNum n)) l ∧
                 (Forall (λ t, t !! "id" ≠ Some (JNum n)) l → l' = l) ∧
                 (false = true → world_wf w → (length l ≤ S (length l'))%nat)) as Hrest
         by (intros l l' ->; split; [done|]; split; [by apply filter_all|done]));
      apply Hrest; unfold listing; simpl; rewrite Hup, Hfile; done.
Qed.

Lemma delete_removes_exactly_witness :
  (∃ b w',
     store_delete (Some (JNum 2)) pg_world = (Ok b, w') ∧
     (list_tasks w').1 = Ok (listing w') ∧
     b = true ∧
     listing w' = filter (λ t, t !! "id" ≠ Some (JNum 2)) (listing pg_world) ∧
     (Forall (λ t, t !! "id" ≠ Some (JNum 2)) (listing pg_world) →
        listing w' = listing pg_world) ∧
     (usePostgres pg_world = true → world_wf pg_world →
        (length (listing pg_world) ≤ S (length (listing w')))%nat)) ∧
  (∃ b w',
     store_delete (Some (JNum 1700000000000)) pg_world = (Ok b, w') ∧
     (list_tasks w').1 = Ok (listing w') ∧
     b = false ∧ listing w' = listing pg_world) ∧
  (∃ b w',
     store_delete (Some (JNum 7)) file_world = (Ok b, w') ∧
     (list_tasks w').1 = Ok (listing w') ∧
     b = true ∧
     listing w' = filter (λ t, t !! "id" ≠ Some (JNum 7)) (listing file_world) ∧
     (Forall (λ t, t !! "id" ≠ Some (JNum 7)) (listing file_world) →
        listing w' = listing file_world) ∧
     (usePostgres file_world = true → world_wf file_world →
        (length (listing file_world) ≤ S (length (listing w')))%nat)).
Proof.
  split; [|split].
  - apply (delete_removes_exactly 2 pg_world); [intros k; reflexivity|].
    intros _. by eexists.
  - apply (delete_removes_exactly 1700000000000 pg_world); [intros k; reflexivity|].
    intros _. by eexists.
  - apply (delete_removes_exactly 7 file_world); [intros k; reflexivity|].
    intros H. discriminate H.
Defined.

(** C6, as stated, fails twice.  On the relational backend the delete of an
    id no task has is answered [success: false] when the id is beyond the
    [INTEGER] range, as every id minted from the clock is.  In the file
    two tasks added at one clock reading share their id, and one delete
    removes both. *)
Lemma delete_of_absent_id_refused :
  let twice := (post_tasks (Some add_new_card)
                  (post_tasks (Some add_plain_card) steady_file_world).2).2 in
  Forall (λ t, t !! "id" ≠ Some (JNum 1700000000000)) (listing pg_world) ∧
  (post_tasks (Some delete_minted) pg_world).1
    = Ok (mutation_response false (demo_clock 0)) ∧
  sent (post_tasks (Some delete_minted) pg_world).2 = [] ∧
  (λ t, (t !! "title", t !! "id")) <$> listing twice
    = [ (Some (JStr "Y"), Some (JNum 1700000000000));
        (Some (JStr "X"), Some (JNum 1700000000000)) ] ∧
  (post_tasks (Some delete_minted) twice).1
    = Ok (mutation_response true 1700000000000) ∧
  listing (post_tasks (Some delete_minted) twice).2 = [].
Proof.
  cbv zeta. split; [compute_done|].
  repeat split; vm_compute; reflexivity.
Qed.

Example delete_row2 :
  (λ r, (r.1, listing r.2)) (store_delete (Some (JNum 2)) pg_world)
  = (Ok true, [row_to_task demo_row1]).
Proof. vm_compute. reflexivity. Qed.

(** ** Broadcasts *)

Lemma quiet_refl w : quiet w w.
Proof.
  repeat split. exists []. by rewrite app_nil_r.
Qed.

Lemma quiet_trans w1 w2 w3 : quiet w1 w2 → quiet w2 w3 → quiet w1 w3.
Proof.
  intros (H1 & H2 & H3 & H4 & H5 & H6 & pre & Hs & Hp)
         (G1 & G2 & G3 & G4 & G5 & G6 & pre' & Gs & Gp).
  repeat split; try congruence.
  exists (pre ++ pre'). split; [by rewrite Gs, Hs, app_assoc|].
  by apply Forall_app.
Qed.

Lemma quiet_set_reads n w : quiet w (set_reads n w).
Proof. repeat split. exists []. simpl. by rewrite app_nil_r. Qed.

Lemma quiet_set_calls n w : quiet w (set_calls n w).
Proof. repeat split. exists []. simpl. by rewrite app_nil_r. Qed.

Lemma quiet_set_pgClient d w : quiet w (set_pgClient d w).
Proof. repeat split. exists []. simpl. by rewrite app_nil_r. Qed.

Lemma quiet_clawd task w0 w s :
  s = sent w → quiet w (set_sent (s ++ [clawd_event task w0]) w).
Proof.
  intros ->. repeat split. exists [clawd_event task w0]. split; [done|].
  constructor; [|constructor]. unfold is_tasks_update. simpl. tauto.
Qed.

Ltac quiet_chain :=
  repeat first
    [ apply quiet_refl
    | apply quiet_set_reads | apply quiet_set_calls | apply quiet_set_pgClient
    | eapply quiet_trans; [|first [apply quiet_set_reads | apply quiet_set_calls
                                  | apply quiet_set_pgClient]] ].

Lemma saveTaskPG_quiet task w b w' : saveTaskPG task w = (Ok b, w') → quiet w w'.
Proof.
  destruct (pgClient w) as [db|] eqn:Hc.
  - destruct (truthy (task !! "id") && js_gt0 (task !! "id")) eqn:Hb.
    + rewrite (saveTaskPG_update_run _ _ db) by done. simpl.
      destruct (faults w (calls w)); [intros [= <- <-]; quiet_chain|].
      destruct (exec_update _ _ db); intros [= <- <-]; quiet_chain.
    + rewrite (saveTaskPG_insert_run _ _ db) by done. simpl.
      destruct (faults w (calls w)); [intros [= <- <-]; quiet_chain|].
      destruct (exec_insert _ db); [|intros [= <- <-]; quiet_chain].
      destruct (js_or _ _); try (intros [= <- <-]; quiet_chain).
      destruct (mentions_clawd _); [|intros [= <- <-]; quiet_chain].
      destruct (io w && usePostgres w); intros [= <- <-]; [|quiet_chain].
      eapply quiet_trans; [|by apply quiet_clawd]. quiet_chain.
  - rewrite saveTaskPG_no_client by done. intros [= <- <-]. apply quiet_refl.
Qed.

Lemma deleteTaskPG_quiet taskId w b w' :
  deleteTaskPG taskId w = (Ok b, w') → quiet w w'.
Proof.
  rewrite deleteTaskPG_run. destruct (pgClient w) as [db|].
  - destruct (faults w (calls w)); [intros [= <- <-]; quiet_chain|].
    destruct (exec_delete taskId db); intros [= <- <-]; quiet_chain.
  - intros [= <- <-]. apply quiet_refl.
Qed.

Lemma deleteTaskPG_returns taskId w : ∃ b w', deleteTaskPG taskId w = (Ok b, w').
Proof.
  rewrite deleteTaskPG_run. destruct (pgClient w) as [db|]; [|by eexists _, _].
  destruct (faults w (calls w)); [by eexists _, _|].
  destruct (exec_delete taskId db); by eexists _, _.
Qed.

Lemma pg_write_returns o data w :
  ∃ b w1, pg_write o data w = (Ok b, w1) ∧ quiet w w1.
Proof.
  destruct o; unfold pg_write; eff_unfold.
  - destruct (saveTaskPG_returns
                (<["updatedAt":=JNum (clock w (reads w))]> (default ∅ (task data)))
                (set_reads (S (reads w)) w)) as (b & w1 & H & _).
    rewrite H. exists b, w1. split; [done|].
    eapply quiet_trans; [apply quiet_set_reads|]. by eapply saveTaskPG_quiet.
  - simpl.
    destruct (saveTaskPG_returns
                (<["updatedAt":=JNum (clock w (S (reads w)))]>
                   (<["createdAt":=JNum (clock w (reads w))]> (default ∅ (task data))))
                (set_reads (S (S (reads w))) (set_reads (S (reads w)) w)))
      as (b & w1 & H & _).
    unfold set_reads in *. simpl in *.
    rewrite H. exists b, w1. split; [done|].
    eapply quiet_trans; [|by eapply saveTaskPG_quiet].
    apply (quiet_set_reads (S (S (reads w))) w).
  - destruct (deleteTaskPG_returns (taskId data) w) as (b & w1 & H).
    exists b, w1. split; [done|]. by eapply deleteTaskPG_quiet.
Qed.

Lemma broadcastTasks_run w :
  broadcastTasks w =
    if io w && usePostgres w then
      let '(tasks, w1) :=
        match pgClient w with
        | None => ([], w)
        | Some db =>
            (if faults w (calls w) then [] else row_to_task <$> exec_select db,
             set_calls (S (calls w)) w)
        end in
      (Ok (), set_sent (sent w ++ [(clients w, tasks_update tasks (clock w (reads w)))])
                (set_reads (S (reads w)) w1))
    else (Ok (), w).
Proof.
  unfold broadcastTasks. unfold mbind, Eff_bind, eff_bind. unfold gets at 1 2.
  destruct (io w && usePostgres w); [|done].
  rewrite getTasksPG_run. destruct (pgClient w); done.
Qed.

Lemma broadcastTasks_once w0 w :
  quiet w0 w → io w0 = true → usePostgres w0 = true →
  ∃ w', broadcastTasks w = (Ok (), w') ∧ broadcast_once w0 w' ∧
        pgClient w' = pgClient w ∧ tasks_file w' = tasks_file w.
Proof.
  intros (Hup & Hio & Hcl & Hck & Hfl & Hfile & pre & Hs & Hpre) Hi Hu.
  rewrite broadcastTasks_run, Hio, Hup, Hi, Hu. simpl.
  destruct (pgClient w) as [db|] eqn:Hc.
  - eexists. split; [done|]. simpl. split; [|done].
    exists pre. eexists _, _. split; [by rewrite Hs, Hcl, <- app_assoc|].
    split; [done|]. simpl. rewrite <- Hfl. intros ->.
    unfold listing. simpl. by rewrite Hup, Hu, Hc.
  - eexists. split; [done|]. simpl. split; [|done].
    exists pre. eexists _, _. split; [by rewrite Hs, Hcl, <- app_assoc|].
    split; [done|]. intros _. unfold listing. simpl. by rewrite Hup, Hu, Hc.
Qed.

Lemma on_task_run o data w :
  on_task o data w =
    if usePostgres w && op_guard o data then
      match pg_write o data w with
      | (Ok _, w1) => broadcastTasks w1
      | (Throw, w1) => (Throw, w1)
      end
    else (Ok (), w).
Proof.
  destruct o; simpl; unfold on_task_update, on_task_add, on_task_delete;
    unfold mbind, mret, Eff_bind, Eff_ret, eff_bind, eff_ret; unfold gets at 1;
    (destruct (usePostgres w && _); [|done]).
  - unfold Date_now. by destruct (saveTaskPG _ _) as [[b|] w1].
  - unfold Date_now. simpl. by destruct (saveTaskPG _ _) as [[b|] w1].
  - by destruct (deleteTaskPG _ _) as [[b|] w1].
Qed.

Lemma is_action_op o t i name :
  is_action (mkMutation (Some (JStr (op_name o))) t i) name
  = bool_decide (op_name o = name).
Proof.
  unfold is_action, strict_eq. simpl.
  apply bool_decide_ext. split; congruence.
Qed.

Lemma post_op_pg_run o data w :
  usePostgres w = true →
  post_op o data w =
    if op_guard o data then
      match pg_write o data w with
      | (Ok b, w1) =>
          let reply := mutation_response b (clock w1 (reads w1)) in
          let w2 := set_reads (S (reads w1)) w1 in
          if b then
            match broadcastTasks w2 with
            | (Ok _, w3) => (Ok reply, w3)
            | (Throw, w3) => (Throw, w3)
            end
          else (Ok reply, w2)
      | (Throw, w1) => (Ok bad_request, w1)
      end
    else (Ok (mutation_response false (clock w (reads w))), set_reads (S (reads w)) w).
Proof.
  intros Hup. destruct data as [a t i].
  unfold post_op, post_tasks, post_tasks_try.
  rewrite !is_action_op.
  unfold mbind, mret, Eff_bind, Eff_ret, eff_bind, eff_ret, try_catch.
  unfold gets at 1. rewrite Hup.
  destruct o; cbn [op_name op_guard task taskId action].
  - change (bool_decide ("update" = "update")) with true. simpl andb.
    destruct t as [payload|]; simpl.
    + unfold pg_write. unfold mbind, Eff_bind, eff_bind, Date_now.
      destruct (saveTaskPG _ _) as [[[|]|] w1]; simpl; try done;
        by destruct (broadcastTasks _) as [[|] w3].
    + done.
  - change (bool_decide ("add" = "update")) with false.
    change (bool_decide ("add" = "add")) with true. simpl andb.
    destruct t as [payload|]; simpl.
    + unfold pg_write. unfold mbind, Eff_bind, eff_bind, Date_now. simpl.
      destruct (saveTaskPG _ _) as [[[|]|] w1]; simpl; try done;
        by destruct (broadcastTasks _) as [[|] w3].
    + done.
  - change (bool_decide ("delete" = "update")) with false.
    change (bool_decide ("delete" = "add")) with false.
    change (bool_decide ("delete" = "delete")) with true. simpl andb.
    destruct (truthy i); simpl.
    + unfold pg_write.
      destruct (deleteTaskPG _ _) as [[[|]|] w1]; simpl; try done;
        by destruct (broadcastTasks _) as [[|] w3].
    + done.
Qed.

(** On the relational backend a POST with any body: its reply comes, and
    a reply with [success: true] has been followed by one broadcast. *)
Lemma is_action_body_op data :
  (∃ o, is_action data (op_name o) = true ∧ op_guard o data = true ∧
        ∀ w, post_tasks (Some data) w = post_op o data w) ∨
  (∀ w, post_tasks (Some data) w =
          (Ok (mutation_response false (clock w (reads w))), set_reads (S (reads w)) w)).
Proof.
  destruct data as [a t i].
  assert (∀ o, is_action (mkMutation a t i) (op_name o) = true →
               mkMutation (Some (JStr (op_name o))) t i = mkMutation a t i) as Hname.
  { intros o H. unfold is_action, strict_eq in H. simpl in H.
    apply bool_decide_eq_true in H. by rewrite H. }
  destruct (is_action (mkMutation a t i) "update" && bool_decide (is_Some t)) eqn:H1.
  { left. exists op_update. apply andb_true_iff in H1 as [Ha Ht].
    split; [done|]. split; [done|]. intros w. unfold post_op. cbn [task taskId].
    by rewrite (Hname op_update Ha). }
  destruct (is_action (mkMutation a t i) "add" && bool_decide (is_Some t)) eqn:H2.
  { left. exists op_add. apply andb_true_iff in H2 as [Ha Ht].
    split; [done|]. split; [done|]. intros w. unfold post_op. cbn [task taskId].
    by rewrite (Hname op_add Ha). }
  destruct (is_action (mkMutation a t i) "delete" && truthy i) eqn:H3.
  { left. exists op_delete. apply andb_true_iff in H3 as [Ha Ht].
    split; [done|]. split; [done|]. intros w. unfold post_op. cbn [task taskId].
    by rewrite (Hname op_delete Ha). }
  right. intros w. unfold post_tasks, post_tasks_try.
  simpl task. simpl taskId. rewrite H1, H2, H3.
  unfold mbind, mret, Eff_bind, Eff_ret, eff_bind, eff_ret, try_catch, gets, Date_now.
  done.
Qed.

Lemma post_op_pg_broadcast o data w stamp w' :
  io w = true → usePostgres w = true →
  post_op o data w = (Ok (mutation_response true stamp), w') →
  broadcast_once w w'.
Proof.
  intros Hio Hup. rewrite post_op_pg_run by done.
  destruct (op_guard o data); [|done].
  destruct (pg_write_returns o data w) as (b & w1 & -> & Hq).
  destruct b; [|done]. simpl.
  destruct (broadcastTasks_once w (set_reads (S (reads w1)) w1))
    as (w3 & -> & Hb & _); [|done|done|].
  { eapply quiet_trans; [exact Hq|apply quiet_set_reads]. }
  by intros [= _ <-].
Qed.

Lemma on_task_pg_broadcast o data w :
  io w = true → usePostgres w = true → op_guard o data = true →
  ∃ w', on_task o data w = (Ok (), w') ∧ broadcast_once w w'.
Proof.
  intros Hio Hup Hg. rewrite on_task_run, Hup, Hg. simpl.
  destruct (pg_write_returns o data w) as (b & w1 & -> & Hq).
  destruct (broadcastTasks_once w w1) as (w3 & -> & Hb & _); try done.
  by exists w3.
Qed.

Lemma post_op_local_run o data w :
  usePostgres w = false →
  post_op o data w =
    if op_guard o data then
      match local_write o data w with
      | (Ok b, w1) =>
          (Ok (mutation_response b (clock w1 (reads w1))), set_reads (S (reads w1)) w1)
      | (Throw, w1) => (Ok bad_request, w1)
      end
    else (Ok (mutation_response false (clock w (reads w))), set_reads (S (reads w)) w).
Proof.
  intros Hup. destruct data as [a t i].
  unfold post_op, post_tasks, post_tasks_try.
  rewrite !is_action_op.
  unfold mbind, mret, Eff_bind, Eff_ret, eff_bind, eff_ret, try_catch.
  unfold gets at 1. rewrite Hup.
  destruct o; cbn [op_name op_guard task taskId action local_write].
  - change (bool_decide ("update" = "update")) with true. simpl andb.
    destruct t as [payload|]; simpl; [|done].
    unfold Date_now. by destruct (update_local _ _) as [[[|]|] w1].
  - change (bool_decide ("add" = "update")) with false.
    change (bool_decide ("add" = "add")) with true. simpl andb.
    destruct t as [payload|]; simpl; [|done].
    unfold Date_now. by destruct (add_local _ _) as [[[|]|] w1].
  - change (bool_decide ("delete" = "update")) with false.
    change (bool_decide ("delete" = "add")) with false.
    change (bool_decide ("delete" = "delete")) with true. simpl andb.
    destruct (truthy i); simpl; [|done].
    unfold Date_now. by destruct (delete_local _ _) as [[[|]|] w1].
Qed.

Lemma local_write_sent o data w :
  sent (local_write o data w).2 = sent w ∧
  pgClient (local_write o data w).2 = pgClient w.
Proof.
  destruct o; unfold local_write.
  - rewrite update_local_run.
    destruct (tasks_file w) as [[tasks|]|]; simpl;
      repeat (match goal with |- context [if ?b then _ else _] => destruct b end; simpl);
      repeat (match goal with |- context [match ?b with Some _ => _ | None => _ end] =>
                                destruct b end; simpl);
      repeat (match goal with |- context [if ?b then _ else _] => destruct b end; simpl);
      done.
  - rewrite add_local_run.
    destruct (tasks_file w) as [[tasks|]|]; simpl;
      repeat (match goal with |- context [if ?b then _ else _] => destruct b end; simpl);
      done.
  - rewrite delete_local_run.
    destruct (tasks_file w) as [[tasks|]|]; simpl;
      repeat (match goal with |- context [if ?b then _ else _] => destruct b end; simpl);
      done.
Qed.

Lemma post_tasks_local_sent body w :
  usePostgres w = false → sent (post_tasks body w).2 = sent w.
Proof.
  intros Hup. destruct body as [data|]; [|done].
  destruct (is_action_body_op data) as [(o & _ & _ & ->)| ->]; [|done].
  rewrite post_op_local_run by done.
  destruct (op_guard o data); [|done].
  pose proof (local_write_sent o data w) as [Hs _].
  destruct (local_write o data w) as [[b|] w1]; simpl in *; done.
Qed.

Lemma on_task_local o data w :
  usePostgres w = false → on_task o data w = (Ok (), w).
Proof. intros Hup. by rewrite on_task_run, Hup. Qed.

(** A session that connects is registered, and on the relational backend
    it alone is sent the current list. *)
Lemma on_connection_greets sid w :
  usePostgres w = true →
  ∃ tasks stamp w',
    on_connection sid w = (Ok (), w') ∧
    clients w' = {[sid]} ∪ clients w ∧
    sent w' = sent w ++ [({[sid]}, tasks_update tasks stamp)] ∧
    (faults w (calls w) = false → tasks = listing w).
Proof.
  intros Hup. unfold on_connection.
  unfold mbind, mret, Eff_bind, Eff_ret, eff_bind, eff_ret, gets, Date_now, socket_emit.
  simpl. rewrite Hup, getTasksPG_run. simpl.
  unfold listing. rewrite Hup.
  destruct (pgClient w) as [db|]; simpl.
  - eexists _, _, _. repeat split. by intros ->.
  - eexists _, _, _. repeat split.
Qed.

(** ** C4: a successful relational mutation is broadcast *)

(** C4.  With the realtime channel set up: on the relational backend,
    after a POST that reports success, and after a realtime mutation,
    exactly one [tasks:update] has been pushed to all connected sessions,
    carrying the list as re-read (the complete listing when that read went
    through); on the file backend neither entry point pushes anything. *)
Theorem mutation_is_broadcast (w : World) :
  io w = true →
  if usePostgres w then
    (∀ body stamp w',
        post_tasks body w = (Ok (mutation_response true stamp), w') →
        broadcast_once w w') ∧
    (∀ o data, op_guard o data = true →
        ∃ w', on_task o data w = (Ok (), w') ∧ broadcast_once w w')
  else
    (∀ body, sent (post_tasks body w).2 = sent w) ∧
    (∀ o data, on_task o data w = (Ok (), w)).
Proof.
  intros Hio. destruct (usePostgres w) eqn:Hup.
  - split.
    + intros [data|] stamp w'; [|done].
      destruct (is_action_body_op data) as [(o & _ & _ & ->)| ->]; [|done].
      by apply post_op_pg_broadcast.
    + intros o data Hg. by apply on_task_pg_broadcast.
  - split.
    + intros body. by apply post_tasks_local_sent.
    + intros o data. by apply on_task_local.
Qed.


Lemma mutation_is_broadcast_witness :
  broadcast_once pg_world (post_tasks (Some delete_2) pg_world).2 ∧
  sent (post_tasks (Some add_new_card) file_world).2 = sent file_world.
Proof.
  split.
  - apply (proj1 (mutation_is_broadcast pg_world eq_refl) (Some delete_2) (demo_clock 0)).
    vm_compute. reflexivity.
  - apply (proj1 (mutation_is_broadcast file_world eq_refl)).
Defined.

Example broadcast_after_delete :
  (λ r, (r.1, (λ e, (e.1, match e.2 with
                          | tasks_update l t => (length l, t)
                          | clawd_task _ _ t => (O, t)
                          | _ => (O, 0)
                          end)) <$> sent r.2))
    (post_tasks (Some delete_2) pg_world)
  = (Ok (mutation_response true (demo_clock 0)),
     [({["s1"; "s2"]}, (1%nat, demo_clock 1))]).
Proof. vm_compute. reflexivity. Qed.

(** ** C7: the realtime operations and the POST actions *)

Lemma broadcastTasks_untimed w n :
  untimed <$> sent (broadcastTasks (set_reads n w)).2
  = untimed <$> sent (broadcastTasks w).2.
Proof.
  rewrite !broadcastTasks_run. simpl.
  destruct (io w && usePostgres w); [|done].
  destruct (pgClient w); simpl; by rewrite !fmap_app.
Qed.

(** C7 (as amended).  For a message both entry points accept: on the
    relational backend the realtime operation makes the same store write
    as the POST action and then broadcasts to all sessions, whatever the
    write returned, while the POST broadcasts only after a write that
    returned [true] (and then pushes the same, up to the time stamp); on
    the file backend the POST action makes the file write and the realtime
    operation does nothing. *)
Theorem realtime_matches_post (o : op) (data : Mutation) (w : World) :
  io w = true → op_guard o data = true →
  if usePostgres w then
    ∃ b w1 ws wh,
      pg_write o data w = (Ok b, w1) ∧
      on_task o data w = (Ok (), ws) ∧
      post_op o data w = (Ok (mutation_response b (clock w1 (reads w1))), wh) ∧
      pgClient ws = pgClient w1 ∧ pgClient wh = pgClient w1 ∧
      tasks_file ws = tasks_file w ∧ tasks_file wh = tasks_file w ∧
      broadcast_once w ws ∧
      (if b then untimed <$> sent wh = untimed <$> sent ws else sent wh = sent w1)
  else
    on_task o data w = (Ok (), w) ∧
    tasks_file (post_op o data w).2 = tasks_file (local_write o data w).2 ∧
    sent (post_op o data w).2 = sent w.
Proof.
  intros Hio Hg. destruct (usePostgres w) eqn:Hup.
  - destruct (pg_write_returns o data w) as (b & w1 & Hw & Hq).
    pose proof Hq as (Hup1 & Hio1 & Hcl1 & Hck1 & Hfl1 & Hfile1 & _).
    destruct (broadcastTasks_once w w1 Hq Hio Hup) as (ws & Hbs & Hone & Hpgs & Hfs).
    destruct (broadcastTasks_once w (set_reads (S (reads w1)) w1))
      as (wh & Hbh & _ & Hpgh & Hfh); [|done|done|].
    { eapply quiet_trans; [exact Hq|apply quiet_set_reads]. }
    simpl in Hpgh, Hfh.
    exists b, w1, ws. rewrite on_task_run, post_op_pg_run, Hup, Hg, Hw by done. simpl.
    destruct b.
    + exists wh. rewrite Hbs, Hbh. repeat split; try congruence.
      pose proof (broadcastTasks_untimed w1 (S (reads w1))) as Hu.
      by rewrite Hbs, Hbh in Hu.
    + eexists. rewrite Hbs. repeat split; try congruence. simpl. congruence.
  - split; [by apply on_task_local|].
    rewrite post_op_local_run, Hg by done.
    pose proof (local_write_sent o data w) as [Hs _].
    destruct (local_write o data w) as [[b|] w1]; simpl in *; done.
Qed.

Lemma realtime_matches_post_witness :
  (∃ b w1 ws wh,
      pg_write op_delete delete_2 pg_world = (Ok b, w1) ∧
      on_task op_delete delete_2 pg_world = (Ok (), ws) ∧
      post_op op_delete delete_2 pg_world
        = (Ok (mutation_response b (clock w1 (reads w1))), wh) ∧
      pgClient ws = pgClient w1 ∧ pgClient wh = pgClient w1 ∧
      tasks_file ws = tasks_file pg_world ∧ tasks_file wh = tasks_file pg_world ∧
      broadcast_once pg_world ws ∧
      (if b then untimed <$> sent wh = untimed <$> sent ws else sent wh = sent w1)) ∧
  (on_task op_add add_new_card file_world = (Ok (), file_world) ∧
   tasks_file (post_op op_add add_new_card file_world).2
     = tasks_file (local_write op_add add_new_card file_world).2 ∧
   sent (post_op op_add add_new_card file_world).2 = sent file_world).
Proof.
  split.
  - apply (realtime_matches_post op_delete delete_2 pg_world); reflexivity.
  - apply (realtime_matches_post op_add add_new_card file_world); reflexivity.
Defined.

(** C7, as stated, fails.  On the file backend the realtime [task:add]
    leaves the file as it is and pushes nothing, while the POST action adds
    the task to the file.  On the relational backend, when the store write
    fails, the realtime [task:delete] still pushes a [tasks:update] (here
    with the empty list of a failed re-read) and the POST action pushes
    nothing. *)
Lemma realtime_add_ignored_on_file_backend :
  on_task_add add_new_card file_world = (Ok (), file_world) ∧
  listing file_world = [demo_task] ∧
  (post_tasks (Some add_new_card) file_world).1
    = Ok (mutation_response true (demo_clock 3)) ∧
  length (listing (post_tasks (Some add_new_card) file_world).2) = 2%nat ∧
  sent (on_task_delete delete_2 failing_pg_world).2
    = [({["s1"; "s2"]}, tasks_update [] (demo_clock 0))] ∧
  (post_tasks (Some delete_2) failing_pg_world).1
    = Ok (mutation_response false (demo_clock 0)) ∧
  sent (post_tasks (Some delete_2) failing_pg_world).2 = [].
Proof. repeat split; vm_compute; reflexivity. Qed.

(** ** C9 and C10: the notification *)

Lemma append_String c t b : String c t +:+ b = String c (t +:+ b).
Proof. reflexivity. Qed.

Lemma prefix_spec t : ∀ s, String.prefix t s = true ↔ ∃ b, s = t +:+ b.
Proof.
  induction t as [|c t IH]; intros s.
  - split; [by exists s|by destruct s].
  - destruct s as [|c' s]; [split; [done|by intros [b ?]]|]. simpl.
    setoid_rewrite append_String.
    destruct (Ascii.ascii_dec c c') as [->|Hne].
    + rewrite IH. split; intros [b Hb]; exists b; congruence.
    + split; [done|]. intros [b Hb]. congruence.
Qed.

(** [includes] is substring containment. *)
Lemma includes_spec t : ∀ s, includes s t = true ↔ ∃ a b, s = a +:+ t +:+ b.
Proof.
  induction s as [|c s IH].
  - change (includes "" t) with (String.prefix t "" || false).
    rewrite orb_true_iff, prefix_spec. split.
    + intros [[b Hb]|?]; [|done]. by exists "", b.
    + intros (a & b & H). left. destruct a; [by exists b|done].
  - change (includes (String c s) t)
      with (String.prefix t (String c s) || includes s t).
    rewrite orb_true_iff, prefix_spec, IH. split.
    + intros [[b Hb]|(a & b & Hab)]; [by exists "", b|].
      exists (String c a), b. by rewrite append_String, Hab.
    + intros (a & b & H). destruct a as [|c' a].
      * left. by exists b.
      * right. exists a, b. rewrite append_String in H. congruence.
Qed.

Lemma mentions_clawd_spec s :
  mentions_clawd s = true ↔
    (∃ a b, s = a +:+ "clawd" +:+ b) ∨ (∃ a b, s = a +:+ "jarvis" +:+ b).
Proof. unfold mentions_clawd. by rewrite orb_true_iff, !includes_spec. Qed.

(** C9 (as amended).  With the realtime channel set up, a successful
    insert on the relational backend whose assignee (the empty string when
    the payload has none), lower-cased, contains "clawd" or "jarvis" pushes
    one [clawd:task] to all connected sessions, carrying the payload and
    the message; a successful relational insert with any other assignee
    pushes nothing, and neither does any insert on the file backend. *)
Theorem insert_notifies_clawd (task : obj) (w w' : World) :
  io w = true →
  insert_payload task →
  upsert_insert task w = (Ok true, w') →
  if usePostgres w then
    ∃ assignee,
      js_or (task !! "assignee") (JStr "") = JStr assignee ∧
      sent w' = sent w ++
        (if mentions_clawd (toLowerCase assignee) then [clawd_event task w] else [])
  else sent w' = sent w.
Proof.
  intros Hio Hins. unfold upsert_insert. eff_unfold.
  destruct (usePostgres w) eqn:Hup; intros H.
  - destruct (pgClient w) as [db|] eqn:Hc; [|by rewrite saveTaskPG_no_client in H].
    pose proof (saveTaskPG_insert_true task w w' db Hc (insert_payload_branch _ Hins) H)
      as (db' & s & _ & _ & Hs & Hsent).
    exists s. split; [done|]. rewrite Hsent, Hio, Hup. simpl.
    by rewrite andb_true_r.
  - rewrite add_local_run in H.
    destruct (tasks_file w) as [f|]; simpl in H.
    + destruct (faults w (S (calls w))); [done|]. by injection H as <-.
    + destruct (faults w (calls w)); [done|]. by injection H as <-.
Qed.

Lemma insert_notifies_clawd_witness :
  (∃ assignee,
     js_or (new_card !! "assignee") (JStr "") = JStr assignee ∧
     sent (upsert_insert new_card pg_world).2 = sent pg_world ++
       (if mentions_clawd (toLowerCase assignee)
        then [clawd_event new_card pg_world] else [])) ∧
  (∃ assignee,
     js_or (plain_card !! "assignee") (JStr "") = JStr assignee ∧
     sent (upsert_insert plain_card pg_world).2 = sent pg_world ++
       (if mentions_clawd (toLowerCase assignee)
        then [clawd_event plain_card pg_world] else [])) ∧
  sent (upsert_insert new_card file_world).2 = sent file_world.
Proof.
  split; [|split].
  - apply (insert_notifies_clawd new_card pg_world);
      [reflexivity | left; reflexivity | reflexivity].
  - apply (insert_notifies_clawd plain_card pg_world);
      [reflexivity | left; reflexivity | reflexivity].
  - apply (insert_notifies_clawd new_card file_world);
      [reflexivity | left; reflexivity | reflexivity].
Defined.

Example clawd_notified :
  (λ r, (r.1, sent r.2)) (saveTaskPG new_card pg_world)
  = (Ok true,
     [({["s1"; "s2"]},
       clawd_task (<["id" := JNum (demo_clock 2)]> new_card)
                  "📋 Nova task para Clawd: X" (demo_clock 3))]).
Proof. vm_compute. reflexivity. Qed.

Example ada_not_notified :
  (λ r, (r.1, sent r.2)) (saveTaskPG plain_card pg_world) = (Ok true, []).
Proof. vm_compute. reflexivity. Qed.

(** C9, as stated, fails on the file backend: a task added for "Clawd" is
    stored and the request succeeds, and no event is pushed. *)
Lemma add_local_notifies_nobody :
  let result := post_tasks (Some add_new_card) file_world in
  mentions_clawd (toLowerCase "Clawd") = true ∧
  result.1 = Ok (mutation_response true (demo_clock 3)) ∧
  (λ t, t !! "assignee") <$> listing result.2 = [None; Some (JStr "Clawd")] ∧
  sent result.2 = [].
Proof. repeat split; vm_compute; reflexivity. Qed.

(** C10.  When a relational insert pushes the notification, the task it
    carries has as [id] the clock reading taken for that purpose, while
    the row just stored has the sequence value; the sequence stays within
    32 bits, so with a clock past that range (any date after January 1970)
    the two ids differ. *)
Theorem notification_id_is_not_row_id (task : obj) (db : Db) (w w' : World) :
  usePostgres w = true → io w = true → pgClient w = Some db →
  insert_payload task →
  saveTaskPG task w = (Ok true, w') →
  (∃ s, js_or (task !! "assignee") (JStr "") = JStr s ∧
        mentions_clawd (toLowerCase s) = true) →
  int4_max < clock w (2 + reads w)%nat →
  ∃ r carried message stamp,
    pgClient w' = Some (mkDb (rows db ++ [r]) (tasks_id_seq db + 1)) ∧
    sent w' = sent w ++ [(clients w, clawd_task carried message stamp)] ∧
    carried !! "id" = Some (JNum (clock w (2 + reads w)%nat)) ∧
    row_to_task r !! "id" = Some (JNum (tasks_id_seq db)) ∧
    carried !! "id" ≠ row_to_task r !! "id".
Proof.
  intros Hup Hio Hc Hins H (s & Hs & Hm) Hclock.
  pose proof (saveTaskPG_insert_true task w w' db Hc (insert_payload_branch _ Hins) H)
    as (db' & s' & Hex & Hpg & Hs' & Hsent).
  rewrite Hs in Hs'. injection Hs' as <-.
  rewrite Hm, Hio, Hup in Hsent. simpl in Hsent.
  apply exec_insert_spec in Hex as (r & -> & Hid & Hmax & _).
  exists r. eexists _, _, _. split; [done|]. split; [exact Hsent|].
  rewrite lookup_insert_eq, row_to_task_id, Hid.
  split; [done|]. split; [done|]. intros [= Heq].
  change (2 + reads w)%nat with (S (S (reads w))) in *. lia.
Qed.

Lemma notification_id_is_not_row_id_witness :
  ∃ r carried message stamp,
    pgClient (saveTaskPG new_card pg_world).2
      = Some (mkDb (rows demo_db ++ [r]) (tasks_id_seq demo_db + 1)) ∧
    sent (saveTaskPG new_card pg_world).2
      = sent pg_world ++ [(clients pg_world, clawd_task carried message stamp)] ∧
    carried !! "id" = Some (JNum (clock pg_world (2 + reads pg_world)%nat)) ∧
    row_to_task r !! "id" = Some (JNum (tasks_id_seq demo_db)) ∧
    carried !! "id" ≠ row_to_task r !! "id".
Proof.
  apply (notification_id_is_not_row_id new_card demo_db pg_world);
    [reflexivity | reflexivity | reflexivity | left; reflexivity | reflexivity | | ].
  - exists "Clawd". split; reflexivity.
  - vm_compute. reflexivity.
Defined.

(** ** Further facts about the relational store *)

(** A payload that carries [updatedAt] makes [saveTaskPG] name
    [updated_at] twice in the [SET] list, and the server refuses that. *)
Lemma exec_update_updatedAt_refused task now idv db :
  is_Some (task !! "updatedAt") →
  exec_update (update_sets task now) idv db = None.
Proof.
  intros [v Hv]. unfold exec_update.
  destruct (repeated_column _) eqn:Hrep; [done|].
  apply repeated_column_NoDup, update_sets_NoDup in Hrep. congruence.
Qed.

(** Both handlers add [updatedAt] to the payload before they call
    [saveTaskPG], so an update with a positive id that reaches the
    relational backend through them is refused: the store write returns
    [false] and the table stays as it was. *)
Lemma handlers_update_refused data payload n w :
  task data = Some payload → payload !! "id" = Some (JNum n) → 0 < n →
  ∃ w1, pg_write op_update data w = (Ok false, w1) ∧ pgClient w1 = pgClient w.
Proof.
  intros Ht Hid Hn. unfold pg_write. eff_unfold. rewrite Ht. simpl.
  set (sent_payload := <["updatedAt" := JNum (clock w (reads w))]> payload).
  destruct (pgClient w) as [db|] eqn:Hc.
  - rewrite (saveTaskPG_update_run _ _ db).
    + simpl. destruct (faults w (calls w)); [by eexists|].
      rewrite exec_update_updatedAt_refused; [by eexists|].
      unfold sent_payload. rewrite lookup_insert_eq. by eexists.
    + done.
    + apply (positive_id_branch _ n); [|done].
      unfold sent_payload. by rewrite lookup_insert_ne.
  - rewrite saveTaskPG_no_client by done. by eexists.
Qed.

Example post_update_refused :
  (λ r, (r.1, pgClient r.2, sent r.2)) (post_tasks (Some update_retitle) pg_world)
  = (Ok (mutation_response false (demo_clock 2)), Some demo_db, []).
Proof. vm_compute. reflexivity. Qed.

Example saveTaskPG_retitle :
  (λ r, (r.1, rows <$> pgClient r.2)) (saveTaskPG retitle pg_world)
  = (Ok true,
     Some [ mkRow 1 "Deploy now" (Some "") (Some "progress") (Some "purple")
                  (Some "Clawd") (Some "high") (Some "") (Some "2026-02-05")
                  (Some 1000) (Some (demo_clock 0));
            demo_row2 ]).
Proof. vm_compute. reflexivity. Qed.

(** [db_wf] is an invariant of the three statements. *)
Lemma ids_preserved (rs rs' : list Row) :
  Forall2 (λ r r', r_id r' = r_id r) rs rs' → r_id <$> rs' = r_id <$> rs.
Proof. induction 1; [done|]. rewrite !fmap_cons. congruence. Qed.

Lemma ids_bounded (rs rs' : list Row) bound :
  Forall2 (λ r r', r_id r' = r_id r) rs rs' →
  Forall (λ r, r_id r < bound) rs → Forall (λ r, r_id r < bound) rs'.
Proof.
  induction 1 as [|r r' rs rs' Hr _ IH]; [done|].
  intros [Hlt Hall]%Forall_cons. constructor; [lia|by apply IH].
Qed.

Lemma exec_update_wf sets idv db db' :
  db_wf db → exec_update sets idv db = Some db' → db_wf db'.
Proof.
  intros [Hnd Hlt]. unfold exec_update.
  destruct (repeated_column _); [done|].
  destruct (coerce_all sets) as [ds|]; [|done].
  destruct (pg_int int4_max idv) as [[n|]|]; [| |done].
  - destruct (update_rows n ds (rows db)) as [rs|] eqn:Hup; [|done].
    simpl. intros [= <-]. apply update_rows_spec in Hup.
    assert (Forall2 (λ r r', r_id r' = r_id r) (rows db) rs) as Hids.
    { eapply Forall2_impl; [exact Hup|]. intros r r' H. simpl in H.
      case_decide; [|by subst]. by apply store_all_spec in H as [? _]. }
    split; simpl.
    + by rewrite (ids_preserved _ _ Hids).
    + by eapply ids_bounded.
  - by intros [= <-].
Qed.

Lemma exec_insert_wf vals db db' :
  db_wf db → exec_insert vals db = Some db' → db_wf db'.
Proof.
  intros [Hnd Hlt]. unfold exec_insert.
  destruct (negb _); [done|]. destruct (_ <? _); [done|].
  destruct (coerce_all _) as [ds|]; [|done].
  destruct (store_all ds _) as [r|] eqn:Hst; [|done].
  simpl. intros [= <-]. apply store_all_spec in Hst as [Hid _]. simpl in Hid.
  split; simpl.
  - rewrite fmap_app. apply NoDup_app. split; [done|]. split; [|apply NoDup_singleton].
    intros i Hi Hi'. apply list_elem_of_singleton in Hi'. subst i.
    apply list_elem_of_fmap in Hi as (r0 & Heq & Hel).
    rewrite Forall_forall in Hlt. specialize (Hlt r0 Hel). simpl in Hlt. lia.
  - apply Forall_app. split.
    + eapply Forall_impl; [exact Hlt|]. simpl. lia.
    + constructor; [lia|constructor].
Qed.

Lemma exec_delete_wf idv db db' :
  db_wf db → exec_delete idv db = Some db' → db_wf db'.
Proof.
  intros [Hnd Hlt]. unfold exec_delete.
  destruct (pg_int int4_max idv) as [[n|]|]; [| |done].
  - intros [= <-]. split; simpl.
    + eapply sublist_NoDup; [exact Hnd|]. apply fmap_sublist, sublist_filter.
    + rewrite Forall_forall in *. intros r Hr.
      apply list_elem_of_filter in Hr as [_ Hr]. by apply Hlt.
  - by intros [= <-].
Qed.

Lemma demo_db_wf : db_wf demo_db.
Proof.
  split.
  - compute_done.
  - repeat constructor.
Qed.

(** ** The value model at work *)

Example includes_jarvis : includes (toLowerCase "Sir JARVIS II") "jarvis" = true.
Proof. reflexivity. Qed.

Example includes_split_word : mentions_clawd (toLowerCase "claw d") = false.
Proof. reflexivity. Qed.

Example to_display_negative : to_display (Some (JNum (-120))) = "-120".
Proof. reflexivity. Qed.

Example to_number_signed : to_number (Some (JStr "+042")) = Decimal 42 0.
Proof. reflexivity. Qed.

Example to_number_forms :
  to_number <$> [Some (JStr " 1"); Some (JStr "1e3"); Some (JStr "0x10");
                 Some (JStr "1.5"); Some (JStr "-Infinity"); Some (JStr "1e");
                 Some (JStr "+0x10"); Some (JStr ""); Some (JStr "12px")]
  = [Decimal 1 0; Decimal 1 3; Decimal 16 0; Decimal 15 (-1); Infinity true; NaN;
     NaN; Decimal 0 0; NaN].
Proof. reflexivity. Qed.

Example js_gt0_forms :
  js_gt0 <$> [Some (JStr " 1"); Some (JStr "1e3"); Some (JStr "0x10");
              Some (JStr "1.5"); Some (JStr "0.0"); Some (JStr "1e-400");
              Some (JStr "-2"); Some (JStr "abc")]
  = [true; true; true; true; false; false; false; false].
Proof. vm_compute. reflexivity. Qed.

Example pg_int_blanks : pg_int int4_max (Some (JStr " 7 ")) = Some (Some 7).
Proof. reflexivity. Qed.

Example zero_id_is_an_insert :
  truthy (Some (JNum 0)) && js_gt0 (Some (JNum 0)) = false.
Proof. reflexivity. Qed.

Example varchar_too_long : varchar_in 10 "01234567890" = None.
Proof. reflexivity. Qed.

Example varchar_blank_excess : varchar_in 3 "ab   " = Some "ab ".
Proof. reflexivity. Qed.

Example varchar_counts_characters : varchar_in 10 "🚀🚀🚀" = Some "🚀🚀🚀".
Proof. reflexivity. Qed.

Example get_tasks_local :
  (get_tasks file_world).1 = Ok (mkTasksReply [demo_task] (demo_clock 0) "local").
Proof. vm_compute. reflexivity. Qed.

Example select_orders_by_id :
  r_id <$> exec_select (mkDb [demo_row1; demo_row2] 3) = [2; 1].
Proof. reflexivity. Qed.

(** * Further properties *)

(** ** What a computation leaves alone *)

Lemma store_steps_refl w w' : pgClient w' = pgClient w → store_steps w w'.
Proof.
  unfold store_steps. intros ->. destruct (pgClient w); [|done].
  by eexists.
Qed.

Lemma store_steps_trans w1 w2 w3 :
  store_steps w1 w2 → store_steps w2 w3 → store_steps w1 w3.
Proof.
  unfold store_steps. destruct (pgClient w1) as [db|].
  - intros (db2 & -> & H12) (db3 & -> & H23). exists db3. split; [done|].
    by etrans.
  - by intros ->.
Qed.

Lemma advances_refl w : advances w w.
Proof.
  repeat split; try done. - by apply store_steps_refl. - exists []. by rewrite app_nil_r.
Qed.

Lemma advances_trans w1 w2 w3 : advances w1 w2 → advances w2 w3 → advances w1 w3.
Proof.
  intros (H1 & H2 & H3 & H4 & H5 & H6 & H7 & m1 & H8)
         (G1 & G2 & G3 & G4 & G5 & G6 & G7 & m2 & G8).
  repeat split; try congruence; try lia.
  - by eapply store_steps_trans.
  - exists (m1 ++ m2). rewrite G8, H8. by rewrite app_assoc.
Qed.

Lemma relays_only_refl w w' : sent w' = sent w → relays_only w w'.
Proof. intros H. exists []. by rewrite app_nil_r. Qed.

Lemma relays_only_trans w1 w2 w3 :
  relays_only w1 w2 → relays_only w2 w3 → relays_only w1 w3.
Proof.
  intros (m1 & H1 & F1) (m2 & H2 & F2). exists (m1 ++ m2).
  rewrite H2, H1, app_assoc. split; [done|]. by apply Forall_app.
Qed.

Lemma untouched_refl b w w' :
  tasks_file w' = tasks_file w → pgClient w' = pgClient w → sent w' = sent w →
  untouched b w w'.
Proof.
  intros Hf Hc Hs. destruct b; simpl; [done|]. split; [done|].
  by apply relays_only_refl.
Qed.

Lemma untouched_trans b w1 w2 w3 :
  untouched b w1 w2 → untouched b w2 w3 → untouched b w1 w3.
Proof.
  destruct b; simpl; [congruence|].
  intros [H1 R1] [H2 R2]. split; [congruence|]. by eapply relays_only_trans.
Qed.

(** A step that changes nothing but the clock and the record of calls. *)
Lemma side_of_same b {A} (m : Eff A) :
  (∀ w r w', m w = (r, w') →
     same_store w w' ∧ clock w' = clock w ∧ faults w' = faults w ∧
     (reads w ≤ reads w')%nat ∧ (calls w ≤ calls w')%nat) →
  side b m.
Proof.
  intros Hm w r w' _ H.
  destruct (Hm _ _ _ H) as ((H1 & H2 & H3 & H4 & H5 & H6) & H7 & H8 & H9 & H10).
  split; [|split; [done|by apply untouched_refl]].
  repeat split; try done.
  - by apply store_steps_refl.
  - exists []. by rewrite app_nil_r.
Qed.

Lemma side_ret b {A} (a : A) : side b (mret a).
Proof. apply side_of_same. intros w r w' [= <- <-]. repeat split; lia. Qed.

Lemma side_throw b {A} : side b (@throw A).
Proof. apply side_of_same. intros w r w' [= <- <-]. repeat split; lia. Qed.

Lemma side_gets b {A} (f : World → A) : side b (gets f).
Proof. apply side_of_same. intros w r w' [= <- <-]. repeat split; lia. Qed.

Lemma side_then b w w1 w' :
  usePostgres w = b →
  advances w w1 ∧ clients w1 = clients w ∧ untouched b w w1 →
  (usePostgres w1 = b → advances w1 w' ∧ clients w' = clients w1 ∧ untouched b w1 w') →
  advances w w' ∧ clients w' = clients w ∧ untouched b w w'.
Proof.
  intros Hb (Ha & Hc & Hs) Hnext.
  assert (usePostgres w1 = b) as Hb1 by (destruct Ha as (-> & _); done).
  destruct (Hnext Hb1) as (Ha' & Hc' & Hs').
  split; [by eapply advances_trans|]. split; [congruence|].
  by eapply untouched_trans.
Qed.

Lemma side_bind b {A B} (m : Eff A) (f : A → Eff B) :
  side b m → (∀ a, side b (f a)) → side b (m ≫= f).
Proof.
  intros Hm Hf w r w' Hb. unfold mbind, Eff_bind, eff_bind.
  destruct (m w) as [[a|] w1] eqn:E; intros H.
  - eapply side_then; [done|by eapply Hm|]. intros Hb1. by eapply Hf.
  - injection H as <- <-. by eapply Hm.
Qed.

Lemma side_try_catch b {A} (m h : Eff A) :
  side b m → side b h → side b (try_catch m h).
Proof.
  intros Hm Hh w r w' Hb. unfold try_catch.
  destruct (m w) as [[a|] w1] eqn:E; intros H.
  - injection H as <- <-. by eapply Hm.
  - eapply side_then; [done|by eapply Hm|]. intros Hb1. by eapply Hh.
Qed.

(** The branch on [usePostgres] goes the way the backend says. *)
Lemma side_usePostgres b {A} (k : bool → Eff A) :
  side b (k b) → side b (gets usePostgres ≫= k).
Proof.
  intros Hk w r w' Hb. unfold mbind, Eff_bind, eff_bind, gets. rewrite Hb.
  by apply Hk.
Qed.

Lemma side_Date_now b : side b Date_now.
Proof.
  apply side_of_same. intros [up i pc tf cl se ck rd fl ca] r w' [= <- <-].
  repeat split; simpl; lia.
Qed.

Lemma side_external b {A} (m : Eff A) : side b m → side b (external m).
Proof.
  intros Hm w r w' Hb. unfold external.
  assert (side b (λ w, (Ok (), set_calls (S (calls w)) w))) as Hc.
  { apply side_of_same. clear. intros [up i pc tf cl se ck rd fl ca] r w' [= <- <-].
    repeat split; simpl; lia. }
  pose proof (Hc w (Ok ()) _ Hb eq_refl) as Hstep.
  destruct (faults w (calls w)).
  - intros [= <- <-]. done.
  - intros H. eapply side_then; [done|exact Hstep|]. intros Hb1. by eapply Hm.
Qed.

Lemma side_pg_query_leaving {A} (run : Db → option (A * Db)) (refused : Db → Db) :
  (∀ db a db', run db = Some (a, db') → db_step db db') →
  (∀ db, db_step db (refused db)) →
  side true (pg_query_leaving run refused).
Proof.
  intros Hrun Href [up i pc tf cl se ck rd fl ca] r w' Hb.
  unfold pg_query_leaving, external. simpl.
  destruct pc as [db|]; simpl.
  - destruct (fl ca); [|destruct (run db) as [[a db']|] eqn:E]; intros [= <- <-];
      (split; [|done]); repeat split; simpl; try done; try lia;
      try (by apply store_steps_refl); try (exists []; by rewrite app_nil_r).
    + unfold store_steps; simpl. exists db'. split; [done|].
      apply rtc_once. by eapply Hrun.
    + unfold store_steps; simpl. eexists. split; [done|]. by apply rtc_once.
  - intros [= <- <-]. split; [apply advances_refl|done].
Qed.

Lemma side_pg_query {A} (run : Db → option (A * Db)) :
  (∀ db a db', run db = Some (a, db') → db_step db db') → side true (pg_query run).
Proof.
  intros Hrun [up i pc tf cl se ck rd fl ca] r w' Hb. unfold pg_query, external. simpl.
  destruct pc as [db|]; simpl.
  - destruct (fl ca); [|destruct (run db) as [[a db']|] eqn:E]; intros [= <- <-];
      (split; [|done]); repeat split; simpl; try done; try lia;
      try (by apply store_steps_refl); try (exists []; by rewrite app_nil_r).
    unfold store_steps; simpl. exists db'. split; [done|].
    apply rtc_once. by eapply Hrun.
  - intros [= <- <-]. split; [apply advances_refl|done].
Qed.

Lemma side_io_emit ev : side true (io_emit ev).
Proof.
  intros [up i pc tf cl se ck rd fl ca] r w' _ [= <- <-].
  split; [|done]. repeat split; simpl; try done; try lia.
  - by apply store_steps_refl. - by eexists.
Qed.

Lemma side_relay b ev : is_relay (∅, ev) → side b (io_emit ev).
Proof.
  intros Hev [up i pc tf cl se ck rd fl ca] r w' _ [= <- <-].
  split; [|split; [done|]].
  - repeat split; simpl; try done; try lia.
    + by apply store_steps_refl. + by eexists.
  - destruct b; simpl; [done|]. split; [done|].
    eexists. split; [done|]. constructor; [|constructor]. exact Hev.
Qed.

Lemma side_saveTasksLocal tasks : side false (saveTasksLocal tasks).
Proof.
  apply side_external.
  intros [up i pc tf cl se ck rd fl ca] r w' _ [= <- <-].
  split; [|split; [done|split; [done|by apply relays_only_refl]]].
  repeat split; simpl; try done; try lia.
  - by apply store_steps_refl. - exists []. by rewrite app_nil_r.
Qed.

Lemma side_read_and_parse b : side b read_and_parse.
Proof.
  apply side_external. apply side_of_same.
  intros w r w' H.
  assert (w' = w) as -> by (destruct (tasks_file w) as [[|]|]; by injection H).
  repeat split; lia.
Qed.

Ltac side_step :=
  lazymatch goal with
  | |- side _ (mbind _ (gets usePostgres)) => apply side_usePostgres
  | |- side _ (mbind _ _) => apply side_bind; [|intros ?]
  | |- side _ (try_catch _ _) => apply side_try_catch
  | |- side _ (mret _) => apply side_ret
  | |- side _ throw => apply side_throw
  | |- side _ (gets _) => apply side_gets
  | |- side _ Date_now => apply side_Date_now
  | |- side true (io_emit _) => apply side_io_emit
  | |- side _ (saveTasksLocal _) => apply side_saveTasksLocal
  | |- side _ read_and_parse => apply side_read_and_parse
  end.

Lemma side_getTasksPG : side true getTasksPG.
Proof.
  unfold getTasksPG. repeat side_step.
  apply side_pg_query. intros db a db' [= <- <-]. by left.
Qed.

Lemma side_getTasksLocal b : side b getTasksLocal.
Proof.
  unfold getTasksLocal, fs_existsSync. repeat side_step.
  destruct a; repeat side_step.
Qed.

Lemma side_js_toLowerCase b v : side b (js_toLowerCase v).
Proof. destruct v; apply side_throw || apply side_ret. Qed.

Lemma side_broadcastClawdNotification task : side true (broadcastClawdNotification task).
Proof.
  unfold broadcastClawdNotification. repeat side_step.
  destruct (a && true); repeat side_step.
  - apply side_js_toLowerCase.
  - destruct (mentions_clawd _); repeat side_step.
Qed.

Lemma side_saveTaskPG task : side true (saveTaskPG task).
Proof.
  unfold saveTaskPG. repeat side_step.
  destruct (negb _); [apply side_ret|].
  destruct (truthy _ && js_gt0 _); repeat side_step.
  - destruct (0 <? _)%nat; repeat side_step.
    apply side_pg_query. intros db [] db' H.
    apply fmap_Some in H as (x & H & [= ->]). right; left. eauto.
  - apply side_pg_query_leaving.
    + intros db [] db' H.
      apply fmap_Some in H as (x & H & [= ->]). right; right; left. eauto.
    + intros db. right; right; right; left. eauto.
  - apply side_js_toLowerCase.
  - destruct (mentions_clawd _); [|apply side_ret].
    apply side_bind; [apply side_Date_now|intros stamp].
    apply side_broadcastClawdNotification.
Qed.

Lemma side_deleteTaskPG taskId : side true (deleteTaskPG taskId).
Proof.
  unfold deleteTaskPG. repeat side_step.
  apply side_pg_query. intros db [] db' H.
  apply fmap_Some in H as (x & H & [= ->]). right; right; right; right. eauto.
Qed.

Lemma side_broadcastTasks b : side b broadcastTasks.
Proof.
  unfold broadcastTasks. apply side_bind; [apply side_gets|intros i].
  apply side_usePostgres. destruct b.
  - destruct (i && true); repeat side_step. apply side_getTasksPG.
  - rewrite andb_false_r. apply side_ret.
Qed.

Lemma side_update_local task : side false (update_local task).
Proof.
  unfold update_local. apply side_bind; [apply side_getTasksLocal|intros tasks].
  destruct (findIndex _ _); repeat side_step.
Qed.

Lemma side_add_local task : side false (add_local task).
Proof.
  unfold add_local. apply side_bind; [apply side_getTasksLocal|intros tasks].
  repeat side_step.
Qed.

Lemma side_delete_local taskId : side false (delete_local taskId).
Proof.
  unfold delete_local. apply side_bind; [apply side_getTasksLocal|intros tasks].
  repeat side_step.
Qed.

Lemma side_post_tasks b body : side b (post_tasks body).
Proof.
  unfold post_tasks. apply side_bind; [|intros reply].
  - apply side_try_catch; [|apply side_ret].
    destruct body as [data|]; [|apply side_throw].
    unfold post_tasks_try. apply side_usePostgres.
    apply side_bind; [|intros; repeat side_step].
    destruct (is_action data "update" && _).
    { destruct b; repeat side_step.
      - apply side_saveTaskPG. - apply side_update_local. }
    destruct (is_action data "add" && _).
    { destruct b; repeat side_step.
      - apply side_saveTaskPG. - apply side_add_local. }
    destruct (is_action data "delete" && _).
    { destruct b; repeat side_step.
      - apply side_deleteTaskPG. - apply side_delete_local. }
    apply side_ret.
  - apply side_bind; [|intros; apply side_ret].
    destruct (reply.2); [apply side_broadcastTasks|apply side_ret].
Qed.

(** ** The handlers, one by one *)

Lemma side_on_task b o data : side b (on_task o data).
Proof.
  destruct o; simpl; unfold on_task_update, on_task_add, on_task_delete;
    apply side_usePostgres; (destruct b; [|apply side_ret]);
    rewrite andb_true_l;
    match goal with |- side _ (if ?c then _ else _) => destruct c end;
    repeat side_step;
    first [apply side_saveTaskPG | apply side_deleteTaskPG | apply side_broadcastTasks].
Qed.

Lemma side_list_tasks b : side b list_tasks.
Proof.
  unfold list_tasks. apply side_usePostgres.
  destruct b; [apply side_getTasksPG|apply side_getTasksLocal].
Qed.

Lemma side_get_tasks b : side b get_tasks.
Proof. unfold get_tasks. repeat side_step. apply side_list_tasks. Qed.

Lemma side_get_status b : side b get_status.
Proof.
  unfold get_status. apply side_bind; [apply side_list_tasks|intros tasks].
  repeat side_step.
Qed.

Lemma side_get_health b : side b get_health.
Proof. unfold get_health. repeat side_step. Qed.

Lemma side_relays b sid data :
  side b (on_dev_status sid data) ∧ side b (on_activity_broadcast sid data).
Proof.
  unfold on_dev_status, on_activity_broadcast.
  split; repeat side_step; try (by apply side_relay); destruct data; repeat side_step.
Qed.

Lemma side_on_task_event b o data : side b (on_task_event o data).
Proof.
  destruct data as [data|]; simpl; [apply side_on_task|].
  apply side_usePostgres. destruct b; repeat side_step.
Qed.

Lemma side_evolves b {A} (m : Eff A) w :
  side b m → usePostgres w = b → evolves w (m w).2.
Proof.
  intros Hm Hb. destruct (m w) as [r w'] eqn:E.
  destruct (Hm _ _ _ Hb E) as (Ha & _ & Hs). split; [done|]. by rewrite Hb.
Qed.

Lemma advances_set_clients c w : advances w (set_clients c w).
Proof.
  repeat split; try done. - by apply store_steps_refl. - exists []. by rewrite app_nil_r.
Qed.

Lemma evolves_trans w1 w2 w3 : evolves w1 w2 → evolves w2 w3 → evolves w1 w3.
Proof.
  intros [H1 H2] [G1 G2]. split; [by eapply advances_trans|].
  assert (usePostgres w2 = usePostgres w1) as Hb by (by destruct H1).
  rewrite Hb in G2. by eapply untouched_trans.
Qed.

Lemma evolves_refl w : evolves w w.
Proof. split; [apply advances_refl|]. by apply untouched_refl. Qed.

Lemma serve_evolves r w : evolves w (serve r w).
Proof.
  unfold serve. destruct r as [body| | | |sid|sid|o data|sid data|sid data];
    unfold handle.
  - apply (side_evolves (usePostgres w)); [|done].
    apply side_bind; [apply side_post_tasks|intros; apply side_ret].
  - apply (side_evolves (usePostgres w)); [|done].
    apply side_bind; [apply side_get_tasks|intros; apply side_ret].
  - apply (side_evolves (usePostgres w)); [|done].
    apply side_bind; [apply side_get_status|intros; apply side_ret].
  - apply (side_evolves (usePostgres w)); [|done].
    apply side_bind; [apply side_get_health|intros; apply side_ret].
  - unfold on_connection.
    change (evolves w
      ((pg ← gets usePostgres;
        if pg : bool then
          tasks ← getTasksPG; timestamp ← Date_now;
          socket_emit sid (tasks_update tasks timestamp)
        else mret ()) (set_clients ({[sid]} ∪ clients w) w)).2).
    eapply evolves_trans.
    + split; [apply advances_set_clients|]. by apply untouched_refl.
    + apply (side_evolves (usePostgres w)); [|done].
      apply side_usePostgres. destruct (usePostgres w); [|apply side_ret].
      repeat side_step; [apply side_getTasksPG|].
      intros [up i pc tf cl se ck rd fl ca] r w' _ [= <- <-].
      split; [|done]. repeat split; simpl; try done; try lia.
      * by apply store_steps_refl. * by eexists.
  - split; [apply advances_set_clients|]. by apply untouched_refl.
  - apply (side_evolves (usePostgres w)); [apply side_on_task_event|done].
  - apply (side_evolves (usePostgres w)); [apply side_relays|done].
  - apply (side_evolves (usePostgres w)); [apply side_relays|done].
Qed.

Lemma serve_all_evolves rs : ∀ w, evolves w (serve_all rs w).
Proof.
  induction rs as [|r rs IH]; intros w; [apply evolves_refl|].
  simpl. pose proof (serve_evolves r w) as Hr. unfold serve in Hr.
  destruct (handle r w) as [[[]|] w1]; simpl in Hr; [|done].
  eapply evolves_trans; [exact Hr|apply IH].
Qed.

(** Never throwing. *)
Lemma returns_ret {A} (a : A) : returns (mret a).
Proof. intros w. by eexists _, _. Qed.

Lemma returns_gets {A} (f : World → A) : returns (gets f).
Proof. intros w. by eexists _, _. Qed.

Lemma returns_Date_now : returns Date_now.
Proof. intros w. by eexists _, _. Qed.

Lemma returns_bind {A B} (m : Eff A) (f : A → Eff B) :
  returns m → (∀ a, returns (f a)) → returns (m ≫= f).
Proof.
  intros Hm Hf w. destruct (Hm w) as (a & w1 & E).
  unfold mbind, Eff_bind, eff_bind. rewrite E. apply Hf.
Qed.

Lemma returns_try_catch {A} (m h : Eff A) : returns h → returns (try_catch m h).
Proof.
  intros Hh w. unfold try_catch. destruct (m w) as [[a|] w1]; [by eexists _, _|apply Hh].
Qed.

Lemma returns_io_emit ev : returns (io_emit ev).
Proof. intros w. by eexists _, _. Qed.

Ltac returns_step :=
  lazymatch goal with
  | |- returns (mbind _ _) => apply returns_bind; [|intros ?]
  | |- returns (try_catch _ _) => apply returns_try_catch
  | |- returns (mret _) => apply returns_ret
  | |- returns (gets _) => apply returns_gets
  | |- returns Date_now => apply returns_Date_now
  | |- returns (io_emit _) => apply returns_io_emit
  end.

Lemma returns_getTasksPG : returns getTasksPG.
Proof. unfold getTasksPG. repeat returns_step. Qed.

Lemma returns_getTasksLocal : returns getTasksLocal.
Proof. unfold getTasksLocal. repeat returns_step. Qed.

Lemma returns_broadcastTasks : returns broadcastTasks.
Proof.
  unfold broadcastTasks. repeat returns_step.
  destruct (_ && _); repeat returns_step. apply returns_getTasksPG.
Qed.

Lemma returns_post_tasks body : returns (post_tasks body).
Proof.
  unfold post_tasks. repeat returns_step.
  destruct (a.2); [apply returns_broadcastTasks|apply returns_ret].
Qed.

Lemma returns_list_tasks : returns list_tasks.
Proof.
  unfold list_tasks. repeat returns_step.
  destruct a; [apply returns_getTasksPG|apply returns_getTasksLocal].
Qed.

Lemma returns_on_task o data : returns (on_task o data).
Proof.
  destruct o; simpl; unfold on_task_update, on_task_add, on_task_delete;
    repeat returns_step;
    match goal with |- returns (if ?c then _ else _) => destruct c end;
    repeat returns_step;
    try apply returns_broadcastTasks;
    unfold saveTaskPG, deleteTaskPG; repeat returns_step.
Qed.

(** What each handler answers with: the ones that throw are those of
    [crashes]. *)
Lemma handle_result r w : (handle r w).1 = if crashes r w then Throw else Ok ().
Proof.
  assert (∀ (m : Eff unit), returns m → ∀ w, (m w).1 = Ok ()) as Hret.
  { intros m Hm w0. destruct (Hm w0) as ([] & w' & ->). done. }
  destruct r as [body| | | |sid|sid|o [data|]|sid [data|]|sid data];
    unfold handle, crashes.
  - apply Hret. repeat returns_step. apply returns_post_tasks.
  - apply Hret. unfold get_tasks. repeat returns_step. apply returns_list_tasks.
  - apply Hret. unfold get_status. repeat returns_step. apply returns_list_tasks.
  - apply Hret. unfold get_health. repeat returns_step.
  - apply Hret. unfold on_connection.
    apply returns_bind; [intros w0; by eexists _, _|intros _].
    repeat returns_step. destruct a; repeat returns_step.
    + apply returns_getTasksPG. + intros w0; by eexists _, _.
  - done.
  - apply Hret. apply returns_on_task.
  - unfold on_task_event. eff_unfold. by destruct (usePostgres w).
  - apply Hret. unfold on_dev_status. repeat returns_step.
  - done.
  - apply Hret. unfold on_activity_broadcast. repeat returns_step.
Qed.

(** ** Invariants of the running server *)

Lemma exec_update_ids sets idv db db' :
  exec_update sets idv db = Some db' →
  r_id <$> rows db' = r_id <$> rows db ∧ tasks_id_seq db' = tasks_id_seq db.
Proof.
  unfold exec_update.
  destruct (repeated_column _); [done|].
  destruct (coerce_all sets) as [ds|]; [|done].
  destruct (pg_int int4_max idv) as [[n|]|]; [| |done].
  - destruct (update_rows n ds (rows db)) as [rs|] eqn:Hup; [|done].
    simpl. intros [= <-]. apply update_rows_spec in Hup. split; [|done]. simpl.
    apply ids_preserved. eapply Forall2_impl; [exact Hup|]. intros r r' H. simpl in H.
    case_decide; [|by subst]. by apply store_all_spec in H as [? _].
  - by intros [= <-].
Qed.

Lemma exec_insert_ids vals db db' :
  exec_insert vals db = Some db' →
  r_id <$> rows db' = (r_id <$> rows db) ++ [tasks_id_seq db] ∧
  tasks_id_seq db' = tasks_id_seq db + 1.
Proof.
  unfold exec_insert.
  destruct (negb _); [done|]. destruct (_ <? _); [done|].
  destruct (coerce_all _) as [ds|]; [|done].
  destruct (store_all ds _) as [r|] eqn:Hst; [|done].
  simpl. intros [= <-]. apply store_all_spec in Hst as [Hid _]. simpl in Hid.
  simpl. by rewrite fmap_app, <- Hid.
Qed.

Lemma exec_delete_ids idv db db' :
  exec_delete idv db = Some db' →
  r_id <$> rows db' ⊆ r_id <$> rows db ∧ tasks_id_seq db' = tasks_id_seq db.
Proof.
  unfold exec_delete.
  destruct (pg_int int4_max idv) as [[n|]|]; [| |done].
  - intros [= <-]. split; [|done]. simpl. intros i Hi.
    apply list_elem_of_fmap in Hi as (r & -> & Hr).
    apply list_elem_of_filter in Hr as [_ Hr]. by apply list_elem_of_fmap_2.
  - by intros [= <-].
Qed.

Lemma insert_refused_rows vals db :
  rows (insert_refused vals db) = rows db ∧
  tasks_id_seq db ≤ tasks_id_seq (insert_refused vals db) ≤ tasks_id_seq db + 1.
Proof. unfold insert_refused. destruct (_ && _); simpl; split; (done || lia). Qed.

Lemma db_step_wf db db' : db_step db db' → db_wf db → db_wf db'.
Proof.
  intros [->|[(sets & idv & H)|[(vals & H)|[(vals & ->)|(idv & H)]]]] Hwf; [done|..].
  - by eapply exec_update_wf.
  - by eapply exec_insert_wf.
  - destruct Hwf as [Hnd Hlt]. destruct (insert_refused_rows vals db) as [Hr Hs].
    split; rewrite Hr; [done|]. eapply Forall_impl; [exact Hlt|]. simpl. lia.
  - by eapply exec_delete_wf.
Qed.

Lemma db_step_retired n db db' : db_step db db' → retired n db → retired n db'.
Proof.
  intros [->|[(sets & idv & H)|[(vals & H)|[(vals & ->)|(idv & H)]]]] [Hlt Hnot];
    [done|..].
  - apply exec_update_ids in H as [Hi Hs]. split; [lia|]. by rewrite Hi.
  - apply exec_insert_ids in H as [Hi Hs]. split; [lia|]. rewrite Hi.
    intros [Hin|Hin]%elem_of_app; [done|].
    apply list_elem_of_singleton in Hin. lia.
  - destruct (insert_refused_rows vals db) as [Hr Hs]. split; [lia|]. by rewrite Hr.
  - apply exec_delete_ids in H as [Hi Hs]. split; [lia|]. intros Hin. by apply Hnot, Hi.
Qed.

Lemma db_step_seq db db' : db_step db db' → tasks_id_seq db ≤ tasks_id_seq db'.
Proof.
  intros [->|[(sets & idv & H)|[(vals & H)|[(vals & ->)|(idv & H)]]]]; [done|..].
  - apply exec_update_ids in H as [_ ->]. lia.
  - apply exec_insert_ids in H as [_ ->]. lia.
  - destruct (insert_refused_rows vals db) as [_ Hs]. lia.
  - apply exec_delete_ids in H as [_ ->]. lia.
Qed.

Lemma db_steps_keep (P : Db → Prop) db db' :
  (∀ a b, db_step a b → P a → P b) → rtc db_step db db' → P db → P db'.
Proof. intros HP. induction 1; eauto. Qed.

(** X3.  Which requests make their handler throw, which nothing catches on
    the realtime channel: a task event sent without a payload, on the
    relational backend, and a [dev:status] event sent without a payload.
    With a payload (its fields scalars) no event handler throws, and the
    POST handler, the three GET endpoints, connection, disconnection and
    the [activity:broadcast] relay never do. *)
Theorem handlers_throw_only_without_payload (r : request) (w : World) :
  (handle r w).1 = if crashes r w then Throw else Ok ().
Proof. apply handle_result. Qed.

Example payloadless_events :
  ((handle (ev_task op_add None) pg_world).1,
   (handle (ev_task op_add None) file_world).1,
   (handle (ev_dev_status "s1" None) file_world).1,
   (handle (ev_activity "s1" None) file_world).1)
  = (Throw, Ok (), Throw, Ok ()).
Proof. reflexivity. Qed.

(** X4.  Whatever requests are served, the choice of backend and the
    socket server stay as [start] left them, and the backend that is not
    in use is never touched: in relational mode the tasks file is never
    written; in file mode the client is never changed and nothing is
    pushed but what the two relays pass on, no task list and no
    notification. *)
Theorem backend_is_fixed (rs : list request) (w : World) :
  usePostgres (serve_all rs w) = usePostgres w ∧
  io (serve_all rs w) = io w ∧
  if usePostgres w
  then tasks_file (serve_all rs w) = tasks_file w
  else pgClient (serve_all rs w) = pgClient w ∧ relays_only w (serve_all rs w).
Proof.
  destruct (serve_all_evolves rs w) as [(H1 & H2 & _) H]. done.
Qed.

(** X5.  Whatever requests are served, the table stays well formed: the
    ids of its rows are distinct and the sequence is ahead of all of
    them. *)
Theorem table_stays_well_formed (rs : list request) (w : World) :
  world_wf w → world_wf (serve_all rs w).
Proof.
  destruct (serve_all_evolves rs w) as [(_ & _ & _ & _ & _ & _ & Hst & _) _].
  unfold world_wf, store_steps in *.
  destruct (pgClient w) as [db|].
  - destruct Hst as (db' & -> & Hst). intros Hwf.
    by eapply (db_steps_keep db_wf); [apply db_step_wf|..].
  - by rewrite Hst.
Qed.

Lemma table_stays_well_formed_witness :
  world_wf (serve_all [req_post (Some add_new_card); req_post (Some delete_2)] pg_world).
Proof.
  apply (table_stays_well_formed [req_post (Some add_new_card); req_post (Some delete_2)]
           pg_world).
  split; [compute_done | repeat constructor].
Defined.

(** X6.  An id the sequence has passed and that no row carries (the id of
    a deleted task) stays so whatever requests are served: no later insert
    or update brings it back, the client is never lost and the sequence
    never goes back. *)
Theorem ids_are_not_reused (rs : list request) (n : Z) (db : Db) (w : World) :
  pgClient w = Some db → retired n db →
  ∃ db', pgClient (serve_all rs w) = Some db' ∧ retired n db' ∧
         tasks_id_seq db ≤ tasks_id_seq db'.
Proof.
  intros Hdb Hr.
  destruct (serve_all_evolves rs w) as [(_ & _ & _ & _ & _ & _ & Hst & _) _].
  unfold store_steps in Hst. rewrite Hdb in Hst. destruct Hst as (db' & -> & Hst).
  exists db'. split; [done|]. split.
  - by eapply (db_steps_keep (retired n)); [apply db_step_retired|..].
  - eapply (db_steps_keep (λ d, tasks_id_seq db ≤ tasks_id_seq d)); [|exact Hst|lia].
    intros a b Hab%db_step_seq. simpl. lia.
Qed.

Lemma ids_are_not_reused_witness :
  ∃ db', pgClient (serve_all [req_post (Some add_new_card)]
                     (serve (req_post (Some delete_2)) pg_world)) = Some db' ∧
         retired 2 db' ∧ tasks_id_seq (mkDb [demo_row1] 3) ≤ tasks_id_seq db'.
Proof.
  apply (ids_are_not_reused [req_post (Some add_new_card)] 2 (mkDb [demo_row1] 3)
           (serve (req_post (Some delete_2)) pg_world)).
  - reflexivity.
  - split; [simpl; lia | compute_done].
Defined.

(** ** Start-up and the edges of the POST handler *)

Lemma start_run env tables w :
  start env tables w =
    let table := Some (default new_table (tables (default "" (databaseUrl env)))) in
    if bool_decide (default "" (databaseUrl env) = "") then
      (Ok (), set_io true (set_usePostgres false w))
    else if faults w (calls w) then
      (Ok (), set_io true (set_usePostgres false (set_calls (S (calls w)) w)))
    else if faults w (S (calls w)) then
      (Ok (), set_io true (set_usePostgres false
                (set_calls (S (S (calls w))) (set_pgClient table w))))
    else
      (Ok (), set_io true (set_usePostgres (negb (faults w (S (S (calls w)))))
                (set_calls (S (S (S (calls w)))) (set_pgClient table w)))).
Proof.
  unfold start, initDatabase, initWebSocket. eff_unfold.
  destruct w as [up i pc tf cl se ck rd fl ca]; simpl.
  destruct (databaseUrl env) as [url|]; simpl; [|done].
  case_bool_decide; [done|]. simpl.
  destruct (fl ca); [done|]. simpl.
  destruct (fl (S ca)); [done|]. simpl.
  by destruct (fl (S (S ca))).
Qed.

(** X1.  [start] always returns and leaves the socket server set; the file,
    the sessions and the log of pushes are as before.  The relational
    backend is selected exactly when a non-empty connection string is
    configured and none of the three calls (building the client,
    connecting, creating the table) fails; and whenever it is selected the
    client is there, on the table of that connection string. *)
Theorem start_selects_backend (env : Env) (tables : string → option Db) (w : World) :
  ∃ w',
    start env tables w = (Ok (), w') ∧
    io w' = true ∧
    tasks_file w' = tasks_file w ∧ clients w' = clients w ∧ sent w' = sent w ∧
    (usePostgres w' = true ↔
       ∃ url, databaseUrl env = Some url ∧ url ≠ "" ∧
              faults w (calls w) = false ∧ faults w (S (calls w)) = false ∧
              faults w (S (S (calls w))) = false) ∧
    (usePostgres w' = true →
       ∃ url, databaseUrl env = Some url ∧
              pgClient w' = Some (default new_table (tables url))).
Proof.
  rewrite start_run. cbn zeta.
  destruct (databaseUrl env) as [url|] eqn:Hurl; simpl.
  - case_bool_decide as Hempty.
    { eexists. split; [done|]. repeat split; try done.
      intros (u & [= <-] & Hu & _). done. }
    destruct (faults w (calls w)) eqn:F1.
    { eexists. split; [done|]. repeat split; try done.
      intros (u & _ & _ & ? & _). done. }
    destruct (faults w (S (calls w))) eqn:F2.
    { eexists. split; [done|]. repeat split; try done.
      intros (u & _ & _ & _ & ? & _). done. }
    eexists. split; [done|]. repeat split; try done; simpl.
    + intros H. exists url. by destruct (faults w (S (S (calls w)))).
    + intros (u & _ & _ & _ & _ & ->). done.
    + intros _. by exists url.
  - eexists. split; [done|]. repeat split; try done.
    intros (u & ? & _). done.
Qed.

Example start_on_railway :
  (λ r, (r.1, usePostgres r.2, io r.2, pgClient r.2, calls r.2))
    (start railway_env railway_tables boot_world)
  = (Ok (), true, true, Some demo_db, 3%nat).
Proof. reflexivity. Qed.

Lemma databaseUrl_unset env :
  unset (DATABASE_URL env) → unset (DATABASE_PUBLIC_URL env) →
  default "" (databaseUrl env) = "".
Proof.
  unfold databaseUrl. by intros [->| ->] [->| ->].
Qed.

(** X2.  With neither [DATABASE_URL] nor [DATABASE_PUBLIC_URL] set to a
    non-empty string, [start] selects the file backend without making any
    call: the world changes in the two flags only, the client stays null,
    and /api/health then reports [postgres: false, websocket: true]. *)
Theorem start_without_database_url (env : Env) (tables : string → option Db) (w : World) :
  unset (DATABASE_URL env) → unset (DATABASE_PUBLIC_URL env) →
  start env tables w = (Ok (), set_io true (set_usePostgres false w)) ∧
  (get_health (set_io true (set_usePostgres false w))).1
    = Ok (mkHealth false true (size (clients w)) (clock w (reads w))).
Proof.
  intros H1 H2. rewrite start_run. cbn zeta.
  rewrite (databaseUrl_unset env H1 H2). split; [done|].
  by destruct w.
Qed.

Lemma start_without_database_url_witness :
  start no_url railway_tables boot_world
    = (Ok (), set_io true (set_usePostgres false boot_world)) ∧
  (get_health (set_io true (set_usePostgres false boot_world))).1
    = Ok (mkHealth false true (size (clients boot_world))
            (clock boot_world (reads boot_world))).
Proof.
  apply (start_without_database_url no_url railway_tables boot_world).
  - left. reflexivity.
  - right. reflexivity.
Defined.

Lemma broadcastTasks_keeps w :
  ∃ w', broadcastTasks w = (Ok (), w') ∧
        pgClient w' = pgClient w ∧ tasks_file w' = tasks_file w ∧
        (usePostgres w = false → sent w' = sent w).
Proof.
  rewrite broadcastTasks_run.
  destruct (io w && usePostgres w) eqn:E.
  - destruct (pgClient w) eqn:Hc; eexists; (split; [done|]); simpl;
      repeat split; try done; intros Hf; rewrite Hf, andb_false_r in E; done.
  - by eexists.
Qed.

Lemma pg_write_fault o data w :
  ∃ b w1, pg_write o data w = (Ok b, w1) ∧ (faults w (calls w) = true → b = false).
Proof.
  destruct o; unfold pg_write.
  - unfold mbind, Eff_bind, eff_bind, Date_now.
    destruct (saveTaskPG_returns
                (<["updatedAt" := JNum (clock w (reads w))]> (default ∅ (task data)))
                (set_reads (S (reads w)) w)) as (b & w1 & -> & Hb).
    by exists b, w1.
  - unfold mbind, Eff_bind, eff_bind, Date_now. simpl.
    match goal with |- context [saveTaskPG ?t ?w0] =>
      destruct (saveTaskPG_returns t w0) as (b & w1 & -> & Hb) end.
    by exists b, w1.
  - rewrite deleteTaskPG_run. destruct (pgClient w) as [db|]; [|by eexists _, _].
    destruct (faults w (calls w)); [by eexists _, _|].
    destruct (exec_delete _ _); by eexists _, _.
Qed.

(** X7.  On the relational backend a failing store is never answered 400.
    A body the handler throws on before the store is reached is answered
    400 and changes nothing; every request object (action and ids
    scalars) is answered with a [success] flag, and when the first call to
    the database fails the flag is [false] and nothing is pushed. *)
Theorem relational_failure_is_not_bad_request (data : Mutation) (w : World) :
  usePostgres w = true →
  post_tasks None w = (Ok bad_request, w) ∧
  ∃ success stamp w',
    post_tasks (Some data) w = (Ok (mutation_response success stamp), w') ∧
    (faults w (calls w) = true → success = false ∧ sent w' = sent w).
Proof.
  intros Hpg. split; [done|].
  destruct (is_action_body_op data) as [(o & _ & Hg & Hrun)|Hrun]; rewrite Hrun;
    [|by eexists _, _, _].
  rewrite (post_op_pg_run _ _ _ Hpg), Hg.
  destruct (pg_write_fault o data w) as (b & w1 & Hw & Hfalse). rewrite Hw.
  destruct (pg_write_returns o data w) as (b' & w1' & Hw' & Hq).
  rewrite Hw in Hw'. injection Hw' as <- <-.
  cbn zeta. destruct b.
  - destruct (broadcastTasks_keeps (set_reads (S (reads w1)) w1)) as (w3 & Hb & _).
    rewrite Hb. eexists _, _, _. split; [done|]. intros Hf. by specialize (Hfalse Hf).
  - eexists _, _, _. split; [done|]. intros Hf. split; [done|]. simpl.
    destruct Hq as (_ & _ & _ & _ & _ & _ & pre & Hsent & Hpre).
    destruct o; unfold pg_write in Hw.
    + revert Hw. unfold mbind, Eff_bind, eff_bind, Date_now. intros Hw.
      set (t := <["updatedAt" := _]> _) in Hw.
      destruct (pgClient w) as [db|] eqn:Hc.
      * destruct (truthy (t !! "id") && js_gt0 (t !! "id")) eqn:Hbr.
        -- rewrite (saveTaskPG_update_run _ _ db) in Hw by done. cbn zeta in Hw.
           simpl in Hw. rewrite Hf in Hw. by injection Hw as <-.
        -- rewrite (saveTaskPG_insert_run _ _ db) in Hw by done. cbn zeta in Hw.
           simpl in Hw. rewrite Hf in Hw. by injection Hw as <-.
      * rewrite saveTaskPG_no_client in Hw by done. by injection Hw as <-.
    + revert Hw. unfold mbind, Eff_bind, eff_bind, Date_now. simpl. intros Hw.
      set (t := <["updatedAt" := _]> _) in Hw.
      destruct (pgClient w) as [db|] eqn:Hc.
      * destruct (truthy (t !! "id") && js_gt0 (t !! "id")) eqn:Hbr.
        -- rewrite (saveTaskPG_update_run _ _ db) in Hw by done. cbn zeta in Hw.
           simpl in Hw. rewrite Hf in Hw. by injection Hw as <-.
        -- rewrite (saveTaskPG_insert_run _ _ db) in Hw by done. cbn zeta in Hw.
           simpl in Hw. rewrite Hf in Hw. by injection Hw as <-.
      * rewrite saveTaskPG_no_client in Hw by done. by injection Hw as <-.
    + rewrite deleteTaskPG_run in Hw. destruct (pgClient w) as [db|]; [|by injection Hw as <-].
      rewrite Hf in Hw. by injection Hw as <-.
Qed.

Lemma relational_failure_is_not_bad_request_witness :
  post_tasks None failing_pg_world = (Ok bad_request, failing_pg_world) ∧
  ∃ success stamp w',
    post_tasks (Some add_new_card) failing_pg_world
      = (Ok (mutation_response success stamp), w') ∧
    (faults failing_pg_world (calls failing_pg_world) = true →
       success = false ∧ sent w' = sent failing_pg_world).
Proof.
  apply (relational_failure_is_not_bad_request add_new_card failing_pg_world).
  reflexivity.
Defined.

(** X8.  A request object that fits no branch (an action, a scalar, that is
    none of the three; an update or add without [task]; a delete without a
    truthy [taskId]) is answered [success: false] with the current time,
    and the only thing that changes is that the clock was read once; a
    body the handler throws on at once is answered 400 and changes
    nothing.  A task event whose payload lacks its field changes nothing,
    and neither does one without payload on the file backend. *)
Theorem invalid_mutation_changes_nothing (data : Mutation) (w : World) :
  (∀ o, is_action data (op_name o) && op_guard o data = false) →
  post_tasks (Some data) w
    = (Ok (mutation_response false (clock w (reads w))), set_reads (S (reads w)) w) ∧
  post_tasks None w = (Ok bad_request, w) ∧
  (∀ o, op_guard o data = false → on_task_event o (Some data) w = (Ok (), w)) ∧
  (∀ o, usePostgres w = false → on_task_event o None w = (Ok (), w)).
Proof.
  intros Hno. split; [|split; [done|split]].
  - destruct (is_action_body_op data) as [(o & Ha & Hg & _)|Hrun]; [|apply Hrun].
    specialize (Hno o). by rewrite Ha, Hg in Hno.
  - intros o Hg. simpl. rewrite on_task_run, Hg, andb_false_r. done.
  - intros o Hpg. unfold on_task_event. eff_unfold. by rewrite Hpg.
Qed.

Lemma invalid_mutation_changes_nothing_witness :
  post_tasks (Some move_request) pg_world
    = (Ok (mutation_response false (clock pg_world (reads pg_world))),
       set_reads (S (reads pg_world)) pg_world) ∧
  post_tasks None pg_world = (Ok bad_request, pg_world) ∧
  (∀ o, op_guard o move_request = false →
        on_task_event o (Some move_request) pg_world = (Ok (), pg_world)) ∧
  (∀ o, usePostgres pg_world = false → on_task_event o None pg_world = (Ok (), pg_world)).
Proof.
  apply (invalid_mutation_changes_nothing move_request pg_world).
  intros o. destruct o; reflexivity.
Defined.

Lemma pg_write_update_refused data payload w :
  task data = Some payload →
  truthy (payload !! "id") && js_gt0 (payload !! "id") = true →
  ∃ w1, pg_write op_update data w = (Ok false, w1) ∧
        pgClient w1 = pgClient w ∧ sent w1 = sent w ∧ usePostgres w1 = usePostgres w.
Proof.
  intros Ht Hid. unfold pg_write. eff_unfold. rewrite Ht. simpl.
  set (sent_payload := <["updatedAt" := JNum (clock w (reads w))]> payload).
  destruct (pgClient w) as [db|] eqn:Hc.
  - rewrite (saveTaskPG_update_run _ _ db).
    + simpl. destruct (faults w (calls w)); [by eexists|].
      rewrite exec_update_updatedAt_refused; [by eexists|].
      unfold sent_payload. rewrite lookup_insert_eq. by eexists.
    + done.
    + unfold sent_payload. by rewrite lookup_insert_ne.
  - rewrite saveTaskPG_no_client by done. by eexists.
Qed.

(** X9.  On the relational backend an update whose payload carries a
    positive id never changes the table when it comes through the POST
    handler or the [task:update] event: both add [updatedAt] to the payload,
    so the statement assigns [updated_at] twice and is refused.  The POST
    reply is [success: false] and nothing is pushed. *)
Theorem update_through_handlers_refused (data : Mutation) (payload : obj) (w : World) :
  usePostgres w = true →
  task data = Some payload →
  truthy (payload !! "id") && js_gt0 (payload !! "id") = true →
  (∃ stamp w', post_op op_update data w = (Ok (mutation_response false stamp), w') ∧
               pgClient w' = pgClient w ∧ sent w' = sent w) ∧
  (∃ w', on_task op_update data w = (Ok (), w') ∧ pgClient w' = pgClient w).
Proof.
  intros Hpg Ht Hid.
  destruct (pg_write_update_refused data payload w Ht Hid) as (w1 & Hw & Hc & Hs & Hu).
  assert (op_guard op_update data = true) as Hg by (simpl; by rewrite Ht).
  split.
  - rewrite (post_op_pg_run _ _ _ Hpg), Hg, Hw. cbn zeta. by eexists _, _.
  - rewrite on_task_run, Hpg, Hg, Hw. simpl.
    destruct (broadcastTasks_keeps w1) as (w3 & Hb & Hc3 & _).
    exists w3. split; [done|]. congruence.
Qed.

Lemma update_through_handlers_refused_witness :
  (∃ stamp w', post_op op_update update_retitle pg_world
                 = (Ok (mutation_response false stamp), w') ∧
               pgClient w' = pgClient pg_world ∧ sent w' = sent pg_world) ∧
  (∃ w', on_task op_update update_retitle pg_world = (Ok (), w') ∧
         pgClient w' = pgClient pg_world).
Proof.
  apply (update_through_handlers_refused update_retitle retitle pg_world);
    reflexivity.
Defined.

Lemma pg_write_add_refused data payload w :
  task data = Some payload →
  truthy (payload !! "id") && js_gt0 (payload !! "id") = true →
  ∃ w1, pg_write op_add data w = (Ok false, w1) ∧
        pgClient w1 = pgClient w ∧ sent w1 = sent w.
Proof.
  intros Ht Hid. unfold pg_write. eff_unfold. rewrite Ht. simpl.
  set (sent_payload := <["updatedAt" := _]> (<["createdAt" := _]> payload)).
  destruct (pgClient w) as [db|] eqn:Hc.
  - rewrite (saveTaskPG_update_run _ _ db).
    + simpl. destruct (faults w (calls w)); [by eexists|].
      rewrite exec_update_updatedAt_refused; [by eexists|].
      unfold sent_payload. rewrite lookup_insert_eq. by eexists.
    + done.
    + unfold sent_payload. by rewrite !lookup_insert_ne.
  - rewrite saveTaskPG_no_client by done. by eexists.
Qed.

(** X28.  An add never keeps an id the client sent.  On the relational
    backend a payload with a positive id is taken for an update and
    refused like one (the handler has added [updatedAt]): the reply is
    [success: false], no row is created and nothing is pushed.  On the file
    backend the task is appended with the clock reading as its id in place
    of the payload's. *)
Theorem add_with_id_keeps_no_id (data : Mutation) (payload : obj) (w : World) :
  task data = Some payload →
  truthy (payload !! "id") && js_gt0 (payload !! "id") = true →
  if usePostgres w then
    ∃ stamp w', post_op op_add data w = (Ok (mutation_response false stamp), w') ∧
                pgClient w' = pgClient w ∧ sent w' = sent w
  else
    ∀ tasks, tasks_file w = Some (TaskArray tasks) →
             faults w (calls w) = false → faults w (S (calls w)) = false →
             ∃ stamp w' new,
               post_op op_add data w = (Ok (mutation_response true stamp), w') ∧
               tasks_file w' = Some (TaskArray (tasks ++ [new])) ∧
               new !! "id" = Some (JNum (clock w (reads w))).
Proof.
  intros Ht Hid.
  assert (op_guard op_add data = true) as Hg by (simpl; by rewrite Ht).
  destruct (usePostgres w) eqn:Hpg.
  - destruct (pg_write_add_refused data payload w Ht Hid) as (w1 & Hw & Hc & Hs).
    rewrite (post_op_pg_run _ _ _ Hpg), Hg, Hw. cbn zeta. by eexists _, _.
  - intros tasks Hf F1 F2.
    rewrite (post_op_local_run _ _ _ Hpg), Hg. unfold local_write.
    rewrite add_local_run, Hf. cbn zeta. simpl calls. rewrite F1, F2.
    eexists _, _, _. split; [done|]. split; [done|].
    rewrite !lookup_insert_ne by done. by rewrite lookup_insert_eq.
Qed.

Lemma add_with_id_keeps_no_id_witness :
  (∃ stamp w', post_op op_add update_retitle pg_world
                 = (Ok (mutation_response false stamp), w') ∧
               pgClient w' = pgClient pg_world ∧ sent w' = sent pg_world) ∧
  (∀ tasks, tasks_file file_world = Some (TaskArray tasks) →
            faults file_world (calls file_world) = false →
            faults file_world (S (calls file_world)) = false →
            ∃ stamp w' new,
              post_op op_add update_retitle file_world
                = (Ok (mutation_response true stamp), w') ∧
              tasks_file w' = Some (TaskArray (tasks ++ [new])) ∧
              new !! "id" = Some (JNum (clock file_world (reads file_world)))).
Proof.
  split.
  - apply (add_with_id_keeps_no_id update_retitle retitle pg_world); reflexivity.
  - apply (add_with_id_keeps_no_id update_retitle retitle file_world); reflexivity.
Defined.

(** ** Reading back what was inserted *)

Lemma exec_insert_cols vals db db' :
  exec_insert vals db = Some db' →
  ∃ r, db' = mkDb (rows db ++ [r]) (tasks_id_seq db + 1) ∧
       r_id r = tasks_id_seq db ∧
       tasks_id_seq db ≤ int4_max ∧
       ∀ c v, (c, v) ∈ zip insert_columns vals → coerce c v = Some (get_col c r).
Proof.
  unfold exec_insert.
  destruct (length vals =? length insert_columns)%nat eqn:Hlen; [|done]. simpl negb.
  apply Nat.eqb_eq in Hlen.
  destruct (Z.ltb_spec int4_max (tasks_id_seq db)) as [|Hseq]; [done|].
  destruct (coerce_all _) as [ds|] eqn:Hco; [|done].
  destruct (store_all ds _) as [r|] eqn:Hst; [|done].
  simpl. intros [= <-]. exists r.
  apply coerce_all_spec in Hco as [Hcols Hbind].
  apply store_all_spec in Hst as (Hid & _ & Hin).
  rewrite Hcols in Hin.
  assert (NoDup (zip insert_columns vals).*1) as Hnd.
  { rewrite fst_zip by lia. compute_done. }
  specialize (Hin Hnd).
  split; [done|]. split; [done|]. split; [done|].
  intros c v Hel. destruct (Hbind c v Hel) as (d & Hd & ->). f_equal.
  symmetry. by apply Hin.
Qed.

Lemma sort_desc_snoc_max rs r :
  Forall (λ x, r_id x < r_id r) rs → sort_desc (rs ++ [r]) = r :: sort_desc rs.
Proof.
  intros H. unfold sort_desc. rewrite foldr_app. simpl.
  induction H as [|x rs Hx _ IH]; [done|].
  simpl. rewrite IH. simpl.
  destruct (Z.leb_spec (r_id r) (r_id x)); [lia|done].
Qed.

Lemma row_to_task_fields r :
  row_to_task r !! "title" = Some (JStr (r_title r)) ∧
  row_to_task r !! "description" = Some (text_cell (r_description r)) ∧
  row_to_task r !! "column" = Some (text_cell (r_column_name r)) ∧
  row_to_task r !! "tag" = Some (text_cell (r_tag r)) ∧
  row_to_task r !! "assignee" = Some (text_cell (r_assignee r)) ∧
  row_to_task r !! "priority" = Some (text_cell (r_priority r)) ∧
  row_to_task r !! "emoji" = Some (text_cell (r_emoji r)) ∧
  row_to_task r !! "dueDate" = Some (text_cell (r_due_date r)) ∧
  row_to_task r !! "createdAt" = Some (bigint_cell (r_created_at r)) ∧
  row_to_task r !! "updatedAt" = Some (bigint_cell (r_updated_at r)).
Proof. repeat split; reflexivity. Qed.

Lemma coerce_text_fits c s d :
  column_type c ≠ Bigint → fits c s → coerce c (Some (JStr s)) = Some d → d = DText s.
Proof.
  unfold coerce, fits. destruct (column_type c) as [n| |]; simpl; intros Hty Hfit; [| |done].
  - destruct (has_nul s); [done|]. unfold varchar_in.
    destruct (Nat.leb_spec (characters s) n); [|lia]. by intros [= <-].
  - destruct (has_nul s); [done|]. by intros [= <-].
Qed.

Lemma text_field_round_trip k c r s :
  (k, c) ∈ text_fields → fits c s →
  coerce c (Some (JStr s)) = Some (get_col c r) →
  row_to_task r !! k = Some (JStr s).
Proof.
  intros Hel Hfit Hco.
  assert (column_type c ≠ Bigint) as Hty.
  { unfold text_fields in Hel.
    repeat (apply elem_of_cons in Hel as [[= -> ->]|Hel]; [done|]).
    by apply elem_of_nil in Hel. }
  apply coerce_text_fits in Hco; [|done..].
  destruct (row_to_task_fields r) as (F1 & F2 & F3 & F4 & F5 & F6 & F7 & F8 & _).
  unfold text_fields in Hel.
  repeat (apply elem_of_cons in Hel as [[= -> ->]|Hel];
          [simpl in Hco;
           first [ injection Hco as <-; assumption
                 | match goal with
                   | H : from_option DText DNull ?x = DText s |- _ =>
                       destruct x; [injection H as ->|discriminate H]
                   end; assumption ]|]).
  by apply elem_of_nil in Hel.
Qed.

Lemma js_or_string v s dflt : v = Some (JStr s) → s ≠ "" → js_or v dflt = JStr s.
Proof. intros -> Hs. unfold js_or. simpl. by rewrite bool_decide_eq_false_2. Qed.

(** The values bound to the text columns of the insert. *)
Lemma insert_values_text task created updated k c :
  (k, c) ∈ text_fields →
  ∃ dflt, (c, Some (js_or (task !! k) (JStr dflt)))
            ∈ zip insert_columns (insert_values task created updated).
Proof.
  intros Hel. unfold text_fields in Hel.
  repeat (apply elem_of_cons in Hel as [[= -> ->]|Hel]; [eexists; in_list|]).
  by apply elem_of_nil in Hel.
Qed.

Lemma saveTaskPG_insert_shape task w w' db :
  pgClient w = Some db →
  truthy (task !! "id") && js_gt0 (task !! "id") = false →
  saveTaskPG task w = (Ok true, w') →
  ∃ r, pgClient w' = Some (mkDb (rows db ++ [r]) (tasks_id_seq db + 1)) ∧
       usePostgres w' = usePostgres w ∧ tasks_file w' = tasks_file w ∧
       faults w' = faults w ∧ calls w' = S (calls w) ∧
       r_id r = tasks_id_seq db ∧
       ∀ c v, (c, v) ∈ zip insert_columns
                 (insert_values task (clock w (reads w)) (clock w (S (reads w)))) →
              coerce c v = Some (get_col c r).
Proof.
  intros Hc Hins Hrun.
  pose proof (saveTaskPG_quiet _ _ _ _ Hrun) as (Hu & _ & _ & _ & Hf & Ht & _).
  assert (calls w' = S (calls w)) as Hcalls.
  { rewrite (saveTaskPG_insert_run _ _ db) in Hrun by done. cbn zeta in Hrun.
    destruct (faults w (calls w)); [done|].
    destruct (exec_insert _ db); [|done].
    destruct (js_or _ _); try done.
    destruct (mentions_clawd _); [destruct (io w && usePostgres w)|];
      injection Hrun as <-; done. }
  destruct (saveTaskPG_insert_true _ _ _ _ Hc Hins Hrun) as (db' & s & Hex & Hdb' & _).
  apply exec_insert_cols in Hex as (r & -> & Hid & _ & Hcols).
  exists r. done.
Qed.

(** X10.  On the relational backend a successful POST [update] whose task
    has no id (or an id that is not positive) does not update anything: it
    appends a new row under the next id of the sequence, with the
    payload's title. *)
Theorem update_without_id_inserts (data : Mutation) (payload : obj) (db : Db)
    (w w' : World) (stamp : Z) :
  usePostgres w = true → pgClient w = Some db →
  task data = Some payload → insert_payload payload →
  post_op op_update data w = (Ok (mutation_response true stamp), w') →
  ∃ r, pgClient w' = Some (mkDb (rows db ++ [r]) (tasks_id_seq db + 1)) ∧
       r_id r = tasks_id_seq db ∧
       coerce c_title (Some (js_or (payload !! "title") (JStr ""))) = Some (DText (r_title r)).
Proof.
  intros Hpg Hdb Ht Hins Hrun.
  assert (op_guard op_update data = true) as Hg by (simpl; by rewrite Ht).
  rewrite (post_op_pg_run _ _ _ Hpg), Hg in Hrun.
  unfold pg_write in Hrun. rewrite Ht in Hrun. simpl default in Hrun.
  unfold mbind, Eff_bind, eff_bind, Date_now in Hrun.
  set (w0 := set_reads (S (reads w)) w) in *.
  set (sent_payload := <["updatedAt" := JNum (clock w (reads w))]> payload) in *.
  destruct (saveTaskPG sent_payload w0) as [[b|] w1] eqn:Hsave; [|done].
  cbn zeta in Hrun. destruct b; [|by injection Hrun].
  destruct (broadcastTasks_keeps (set_reads (S (reads w1)) w1)) as (w3 & Hb & Hc3 & _).
  rewrite Hb in Hrun. injection Hrun as _ <-.
  assert (truthy (sent_payload !! "id") && js_gt0 (sent_payload !! "id") = false) as Hbr.
  { unfold sent_payload. rewrite lookup_insert_ne by done.
    by apply insert_payload_branch. }
  destruct (saveTaskPG_insert_shape sent_payload w0 w1 db) as (r & Hdb1 & _ & _ & _ & _ & Hid & Hcols);
    [done..|].
  exists r. rewrite Hc3. split; [exact Hdb1|]. split; [done|].
  assert (sent_payload !! "title" = payload !! "title") as Htitle
    by (unfold sent_payload; by rewrite lookup_insert_ne).
  rewrite <- Htitle. apply (Hcols c_title). in_list.
Qed.

Lemma update_without_id_inserts_witness :
  ∃ r, pgClient (post_op op_update update_new_card pg_world).2
         = Some (mkDb (rows demo_db ++ [r]) (tasks_id_seq demo_db + 1)) ∧
       r_id r = tasks_id_seq demo_db ∧
       coerce c_title (Some (js_or (new_card !! "title") (JStr ""))) = Some (DText (r_title r)).
Proof.
  apply (update_without_id_inserts update_new_card new_card demo_db pg_world
           (post_op op_update update_new_card pg_world).2 (demo_clock 5));
    [reflexivity | reflexivity | reflexivity | left; reflexivity | ].
  vm_compute. reflexivity.
Defined.

Lemma listing_after_insert w w' db r :
  usePostgres w = true → usePostgres w' = true →
  pgClient w = Some db → db_wf db →
  pgClient w' = Some (mkDb (rows db ++ [r]) (tasks_id_seq db + 1)) →
  r_id r = tasks_id_seq db →
  listing w' = row_to_task r :: listing w.
Proof.
  intros Hu Hu' Hdb [_ Hlt] Hdb' Hid. unfold listing.
  rewrite Hu, Hu', Hdb, Hdb'. unfold exec_select. simpl.
  rewrite sort_desc_snoc_max; [done|].
  eapply Forall_impl; [exact Hlt|]. simpl. lia.
Qed.

(** X11.  Where a created task shows up in the list: after a successful
    insert (no call failing, the table well formed) the relational backend
    lists the new task first and the file backend lists it last, the tasks
    that were there keeping their order; and the next read returns that
    list. *)
Theorem new_task_position (task : obj) (w w' : World) :
  no_faults w → world_wf w → insert_payload task →
  upsert_insert task w = (Ok true, w') →
  ∃ new,
    (if usePostgres w then listing w' = new :: listing w
     else listing w' = listing w ++ [new]) ∧
    (list_tasks w').1 = Ok (listing w').
Proof.
  intros Hnf Hwf Hins. unfold upsert_insert. eff_unfold.
  destruct (usePostgres w) eqn:Hpg.
  - intros Hrun. destruct (pgClient w) as [db|] eqn:Hdb.
    + pose proof (insert_payload_branch _ Hins) as Hbr.
      destruct (saveTaskPG_insert_shape _ _ _ _ Hdb Hbr Hrun)
        as (r & Hdb' & Hu & _ & Hf & _ & Hid & _).
      exists (row_to_task r). split.
      * apply (listing_after_insert w w' db r); try done; [congruence|].
        unfold world_wf in Hwf. by rewrite Hdb in Hwf.
      * apply list_tasks_listing. rewrite Hf. apply Hnf.
    + by rewrite saveTaskPG_no_client in Hrun.
  - rewrite add_local_run.
    destruct (tasks_file w) as [f|] eqn:Hf; cbn zeta; simpl calls;
      rewrite ?Hnf; intros [= <-]; eexists; (split; [|apply list_tasks_listing; simpl; apply Hnf]);
      unfold listing; simpl; rewrite Hpg, ?Hf; [destruct f|]; done.
Qed.

Lemma new_task_position_witness :
  (∃ new, listing (upsert_insert new_card pg_world).2 = new :: listing pg_world ∧
          (list_tasks (upsert_insert new_card pg_world).2).1
            = Ok (listing (upsert_insert new_card pg_world).2)) ∧
  (∃ new, listing (upsert_insert new_card file_world).2 = listing file_world ++ [new] ∧
          (list_tasks (upsert_insert new_card file_world).2).1
            = Ok (listing (upsert_insert new_card file_world).2)).
Proof.
  split.
  - apply (new_task_position new_card pg_world (upsert_insert new_card pg_world).2);
      [intros k; reflexivity | | left; reflexivity | reflexivity].
    split; [compute_done | repeat constructor].
  - apply (new_task_position new_card file_world (upsert_insert new_card file_world).2);
      [intros k; reflexivity | exact I | left; reflexivity | reflexivity].
Defined.

(** X12.  What a relational insert gives back when the list is read: the
    new task comes first under the next id of the sequence; each text
    property the payload gave as a non-empty string that fits its column
    is read back as that string; [createdAt] and [updatedAt] are the
    store's own two clock readings, read back as decimal strings, not as
    numbers. *)
Theorem insert_round_trip (task : obj) (db : Db) (w w' : World) :
  usePostgres w = true → pgClient w = Some db → db_wf db →
  insert_payload task →
  saveTaskPG task w = (Ok true, w') →
  ∃ new,
    listing w' = new :: listing w ∧
    new !! "id" = Some (JNum (tasks_id_seq db)) ∧
    (∀ k c s, (k, c) ∈ text_fields → task !! k = Some (JStr s) → s ≠ "" → fits c s →
              new !! k = Some (JStr s)) ∧
    new !! "createdAt" = Some (JStr (pretty (clock w (reads w)))) ∧
    new !! "updatedAt" = Some (JStr (pretty (clock w (S (reads w))))).
Proof.
  intros Hpg Hdb Hwf Hins Hrun.
  pose proof (insert_payload_branch _ Hins) as Hbr.
  destruct (saveTaskPG_insert_shape _ _ _ _ Hdb Hbr Hrun)
    as (r & Hdb' & Hu & _ & _ & _ & Hid & Hcols).
  exists (row_to_task r). split; [|split; [|split; [|split]]].
  - apply (listing_after_insert w w' db r); try done. congruence.
  - by rewrite row_to_task_id, Hid.
  - intros k c s Hel Hk Hs Hfit.
    destruct (insert_values_text task (clock w (reads w)) (clock w (S (reads w))) k c Hel)
      as (dflt & Hin).
    apply Hcols in Hin. rewrite (js_or_string _ s) in Hin by done.
    by eapply text_field_round_trip.
  - assert (coerce c_created_at (Some (JNum (clock w (reads w))))
            = Some (get_col c_created_at r)) as Hc by (apply Hcols; in_list).
    apply coerce_bigint_num in Hc; [|done]. simpl in Hc.
    destruct (row_to_task_fields r) as (_ & _ & _ & _ & _ & _ & _ & _ & -> & _).
    destruct (r_created_at r); [|done]. simpl in *. congruence.
  - assert (coerce c_updated_at (Some (JNum (clock w (S (reads w)))))
            = Some (get_col c_updated_at r)) as Hc by (apply Hcols; in_list).
    apply coerce_bigint_num in Hc; [|done]. simpl in Hc.
    destruct (row_to_task_fields r) as (_ & _ & _ & _ & _ & _ & _ & _ & _ & ->).
    destruct (r_updated_at r); [|done]. simpl in *. congruence.
Qed.

Lemma insert_round_trip_witness :
  ∃ new,
    listing (saveTaskPG new_card pg_world).2 = new :: listing pg_world ∧
    new !! "id" = Some (JNum (tasks_id_seq demo_db)) ∧
    (∀ k c s, (k, c) ∈ text_fields → new_card !! k = Some (JStr s) → s ≠ "" → fits c s →
              new !! k = Some (JStr s)) ∧
    new !! "createdAt" = Some (JStr (pretty (clock pg_world (reads pg_world)))) ∧
    new !! "updatedAt" = Some (JStr (pretty (clock pg_world (S (reads pg_world))))).
Proof.
  apply (insert_round_trip new_card demo_db pg_world (saveTaskPG new_card pg_world).2);
    [reflexivity | reflexivity | | left; reflexivity | reflexivity].
  split; [compute_done | repeat constructor].
Defined.

(** X13.  An insert whose [assignee] is truthy but no string (a number,
    [true]) is reported as failed and notifies nobody, although the row is
    stored when the server accepts the statement: [toLowerCase] throws
    after the INSERT has run. *)
Theorem non_string_assignee_reported_failed (task : obj) (db : Db) (w : World) :
  pgClient w = Some db →
  insert_payload task →
  (∀ s, js_or (task !! "assignee") (JStr "") ≠ JStr s) →
  ∃ w',
    saveTaskPG task w = (Ok false, w') ∧ sent w' = sent w ∧
    (faults w (calls w) = false →
     ∀ db', exec_insert (insert_values task (clock w (reads w)) (clock w (S (reads w)))) db
              = Some db' →
            pgClient w' = Some db').
Proof.
  intros Hdb Hins Hns.
  rewrite (saveTaskPG_insert_run _ _ db Hdb (insert_payload_branch _ Hins)). cbn zeta.
  destruct (faults w (calls w)); [by eexists|].
  destruct (exec_insert _ db) as [db'|].
  - destruct (js_or (task !! "assignee") (JStr "")) as [| | |s] eqn:Ha.
    4: { by destruct (Hns s). }
    all: eexists; split; [done|]; split; [done|]; by intros _ ? [= <-].
  - by eexists.
Qed.

Lemma non_string_assignee_reported_failed_witness :
  ∃ w',
    saveTaskPG numbered_card pg_world = (Ok false, w') ∧ sent w' = sent pg_world ∧
    (faults pg_world (calls pg_world) = false →
     ∀ db', exec_insert (insert_values numbered_card (clock pg_world (reads pg_world))
                           (clock pg_world (S (reads pg_world)))) demo_db
              = Some db' →
            pgClient w' = Some db').
Proof.
  apply (non_string_assignee_reported_failed numbered_card demo_db pg_world);
    [reflexivity | left; reflexivity | intros s H; discriminate H].
Defined.

Example numbered_card_is_stored :
  (λ r, (r.1, length <$> (rows <$> pgClient r.2), sent r.2))
    (post_tasks (Some (mkMutation (Some (JStr "add")) (Some numbered_card) None)) pg_world)
  = (Ok (mutation_response false (demo_clock 4)), Some 3%nat, []).
Proof. vm_compute. reflexivity. Qed.

Example emoji_round_trip :
  (λ r, (r.1, (λ t, (t !! "id", t !! "emoji")) <$> head (listing r.2)))
    (saveTaskPG rocket_card pg_world)
  = (Ok true, Some (Some (JNum 3), Some (JStr "🚀🚀🚀"))).
Proof. vm_compute. reflexivity. Qed.

(** A text too long for its column is refused before the statement runs;
    the earlier server's insert without a title runs and is refused for
    the NULL, and the id the row would have had is not handed out again. *)
Example refused_insert_and_the_sequence :
  ((λ r, (r.1, (λ db, (length (rows db), tasks_id_seq db)) <$> pgClient r.2))
     (saveTaskPG wordy_card pg_world),
   (λ r, (r.1, (λ db, (length (rows db), tasks_id_seq db)) <$> pgClient r.2))
     (ServerPg.saveTaskPG untitled_card pg_world))
  = ((Ok false, Some (2%nat, 3)), (Ok false, Some (2%nat, 4))).
Proof. vm_compute. reflexivity. Qed.

(** ** Reads, broadcasts and sessions *)

Lemma list_tasks_run w :
  ∃ w', list_tasks w = (Ok (if faults w (calls w) then [] else listing w), w') ∧
        same_store w w' ∧ clock w' = clock w ∧ reads w' = reads w ∧ faults w' = faults w.
Proof.
  unfold list_tasks, listing. eff_unfold.
  destruct (usePostgres w) eqn:Hpg.
  - rewrite getTasksPG_run. destruct (pgClient w) as [db|] eqn:Hdb.
    + eexists. split; [done|]. done.
    + eexists. split; [by destruct (faults w (calls w))|]. done.
  - rewrite getTasksLocal_run. destruct (tasks_file w) as [f|] eqn:Hf.
    + eexists. split; [by destruct f|]. done.
    + eexists. split; [by destruct (faults w (calls w))|]. done.
Qed.

(** X14.  The three GET endpoints are read-only: the backend flags, the
    client and its table, the tasks file, the sessions and the log of
    pushes are the same afterwards. *)
Theorem reads_change_nothing (w : World) :
  same_store w (get_tasks w).2 ∧
  same_store w (get_status w).2 ∧
  same_store w (get_health w).2.
Proof.
  destruct (list_tasks_run w) as (w1 & Hl & Hs & _).
  split; [|split].
  - unfold get_tasks. eff_unfold. rewrite Hl. simpl. exact Hs.
  - unfold get_status. eff_unfold. rewrite Hl. simpl. exact Hs.
  - done.
Qed.

(** X15.  GET /api/tasks always answers, tagged with the backend in use
    and stamped with the current clock reading; it carries the full
    listing when the read goes through and the empty list when the read
    fails, so a failed read cannot be told from an empty board. *)
Theorem get_tasks_reply (w : World) :
  ∃ reply w',
    get_tasks w = (Ok reply, w') ∧
    reply_source reply = (if usePostgres w then "postgresql" else "local") ∧
    reply_timestamp reply = clock w (reads w) ∧
    reply_tasks reply = if faults w (calls w) then [] else listing w.
Proof.
  destruct (list_tasks_run w) as (w1 & Hl & Hs & Hc & Hr & _).
  unfold get_tasks. eff_unfold. rewrite Hl. simpl.
  eexists _, _. split; [done|]. simpl. by rewrite Hc, Hr.
Qed.

Lemma side_pg_write o data : side true (pg_write o data).
Proof.
  destruct o; unfold pg_write; repeat side_step;
    first [apply side_saveTaskPG | apply side_deleteTaskPG].
Qed.

Lemma pg_write_true_client o data w w1 :
  usePostgres w = true →
  pg_write o data w = (Ok true, w1) → is_Some (pgClient w1).
Proof.
  intros Hpg Hw. destruct (pgClient w) as [db|] eqn:Hdb.
  - destruct (side_pg_write o data _ _ _ Hpg Hw) as ((_ & _ & _ & _ & _ & _ & Hst & _) & _).
    unfold store_steps in Hst. rewrite Hdb in Hst. destruct Hst as (db' & -> & _). done.
  - exfalso. destruct o; unfold pg_write in Hw.
    + revert Hw. eff_unfold. rewrite saveTaskPG_no_client by done. done.
    + revert Hw. eff_unfold. rewrite saveTaskPG_no_client by done. done.
    + rewrite deleteTaskPG_run, Hdb in Hw. done.
Qed.

(** X16.  When a POST mutation succeeds on the relational backend but the
    re-read made for the broadcast fails, the sessions are pushed a
    [tasks:update] with an empty list, whatever the table holds. *)
Theorem failed_reread_broadcasts_empty (body : option Mutation) (w w' : World) (stamp : Z) :
  usePostgres w = true → io w = true →
  post_tasks body w = (Ok (mutation_response true stamp), w') →
  faults w (pred (calls w')) = true →
  ∃ pre at_time,
    sent w' = sent w ++ pre ++ [(clients w, tasks_update [] at_time)] ∧
    Forall (λ e, ¬ is_tasks_update e) pre.
Proof.
  intros Hpg Hio Hrun Hfault.
  destruct body as [data|]; [|done].
  destruct (is_action_body_op data) as [(o & _ & Hg & Hpost)|Hpost];
    rewrite Hpost in Hrun; [|done].
  rewrite (post_op_pg_run _ _ _ Hpg), Hg in Hrun.
  destruct (pg_write_returns o data w) as (b & w1 & Hw & Hq). rewrite Hw in Hrun.
  cbn zeta in Hrun. destruct b; [|done].
  pose proof (pg_write_true_client _ _ _ _ Hpg Hw) as [db1 Hdb1].
  destruct Hq as (Hu & Hi & Hcl & _ & Hf & _ & pre & Hsent & Hpre).
  rewrite broadcastTasks_run in Hrun. simpl in Hrun.
  rewrite Hi, Hu, Hio, Hpg, Hdb1 in Hrun. simpl in Hrun.
  injection Hrun as _ <-. simpl in Hfault. rewrite <- Hf in Hfault. rewrite Hfault.
  simpl. exists pre, (clock w1 (S (reads w1))). rewrite Hsent, Hcl, <- app_assoc. done.
Qed.

Lemma failed_reread_broadcasts_empty_witness :
  ∃ pre at_time,
    sent (post_tasks (Some delete_2) reread_fails_world).2
      = sent reread_fails_world ++ pre
        ++ [(clients reread_fails_world, tasks_update [] at_time)] ∧
    Forall (λ e, ¬ is_tasks_update e) pre.
Proof.
  apply (failed_reread_broadcasts_empty (Some delete_2) reread_fails_world
           (post_tasks (Some delete_2) reread_fails_world).2 (demo_clock 0));
    reflexivity.
Defined.

(** X17.  On the file backend a read that fails (or a file that does not
    parse) followed by a write that goes through loses what was stored: an
    add leaves the new task alone in the file, a delete leaves the empty
    list; an update finds nothing, reports failure and writes nothing. *)
Theorem failed_read_loses_tasks (task : obj) (taskId : option json) (f : FileContent)
    (w : World) :
  tasks_file w = Some f →
  faults w (calls w) = true ∨ f = Unparsable →
  faults w (S (calls w)) = false →
  (∃ new w', add_local task w = (Ok true, w') ∧
             tasks_file w' = Some (TaskArray [new]) ∧
             new !! "id" = Some (JNum (clock w (reads w)))) ∧
  (∃ w', delete_local taskId w = (Ok true, w') ∧ tasks_file w' = Some (TaskArray [])) ∧
  (∃ w', update_local task w = (Ok false, w') ∧ tasks_file w' = tasks_file w).
Proof.
  intros Hf Hbad Hok.
  assert ((if faults w (calls w) then []
           else match f with TaskArray tasks => tasks | Unparsable => [] end) = [])
    as Hfound.
  { destruct Hbad as [-> | ->]; [done|]. by destruct (faults w (calls w)). }
  split; [|split].
  - rewrite add_local_run, Hf. cbn zeta. simpl calls. rewrite Hok, Hfound.
    eexists _, _. split; [done|]. split; [done|].
    rewrite lookup_insert_ne by done. rewrite lookup_insert_ne by done.
    by rewrite lookup_insert_eq.
  - rewrite delete_local_run, Hf. cbn zeta. simpl calls. rewrite Hok, Hfound.
    by eexists.
  - rewrite update_local_run, Hf. cbn zeta. rewrite Hfound. simpl.
    by eexists.
Qed.

Lemma failed_read_loses_tasks_witness :
  (∃ new w', add_local new_card read_fails_world = (Ok true, w') ∧
             tasks_file w' = Some (TaskArray [new]) ∧
             new !! "id" = Some (JNum (clock read_fails_world (reads read_fails_world)))) ∧
  (∃ w', delete_local (Some (JNum 9)) read_fails_world = (Ok true, w') ∧
         tasks_file w' = Some (TaskArray [])) ∧
  (∃ w', update_local new_card read_fails_world = (Ok false, w') ∧
         tasks_file w' = tasks_file read_fails_world).
Proof.
  apply (failed_read_loses_tasks new_card (Some (JNum 9)) (TaskArray [demo_task])
           read_fails_world);
    [reflexivity | left; reflexivity | reflexivity].
Defined.

(** X18.  A connecting socket is registered and, on the relational
    backend, is sent the current list (the empty list if the read fails),
    it alone and not the other sessions; on the file backend it is sent
    nothing.  The stores are not touched. *)
Theorem connection_greeting (sid : string) (w : World) :
  ∃ w',
    on_connection sid w = (Ok (), w') ∧
    clients w' = {[sid]} ∪ clients w ∧
    pgClient w' = pgClient w ∧ tasks_file w' = tasks_file w ∧
    if usePostgres w
    then sent w' = sent w ++
           [({[sid]}, tasks_update (if faults w (calls w) then [] else listing w)
                        (clock w (reads w)))]
    else sent w' = sent w.
Proof.
  unfold on_connection, listing. eff_unfold.
  destruct w as [up i pc tf cl se ck rd fl ca]; simpl.
  destruct up; simpl; [|by eexists].
  rewrite getTasksPG_run. simpl.
  destruct pc as [db|]; simpl.
  - by eexists.
  - eexists. split; [done|]. by destruct (fl ca).
Qed.

(** X19.  After a socket has disconnected, a forced broadcast returns its
    fixed message and whatever it pushes does not go to that socket; it
    pushes exactly one event when the socket server is set on the
    relational backend. *)
Theorem disconnected_session_is_skipped (sid : string) (w : World) :
  ∃ w' pushed,
    (on_disconnect sid;; forceBroadcast) w = (Ok "Broadcast triggered", w') ∧
    clients w' = clients w ∖ {[sid]} ∧
    sent w' = sent w ++ pushed ∧
    (io w && usePostgres w = true → length pushed = 1%nat) ∧
    ∀ e, e ∈ pushed → sid ∉ e.1.
Proof.
  unfold forceBroadcast, on_disconnect.
  unfold mbind, mret, Eff_bind, Eff_ret, eff_bind, eff_ret.
  rewrite broadcastTasks_run.
  destruct w as [up i pc tf cl se ck rd fl ca]; simpl.
  destruct (i && up); simpl.
  - destruct pc as [db|]; simpl; eexists _, [_]; (split; [done|]); (split; [done|]);
      (split; [done|]); (split; [done|]);
      intros e He; apply list_elem_of_singleton in He; subst e; simpl; set_solver.
  - eexists _, []. split; [done|]. split; [done|]. rewrite app_nil_r.
    split; [done|]. split; [done|]. intros e He. by apply elem_of_nil in He.
Qed.

(** X20.  The [dev:status] and [activity:broadcast] relays push one event
    to every connected session (the sender included) on either backend and
    touch nothing else but the clock; the relayed object is the one
    received with [clientId] set to the sending socket and [timestamp] to
    the current clock reading, whatever the sender put there, and every
    other property as sent.  Sent without a payload, the event is relayed
    with those two properties alone, and [dev:status] throws once it has
    been. *)
Theorem relay_tags_sender (sid : string) (data : option obj) (w : World) :
  ∃ payload,
    let pushed (ev : Event) :=
      set_sent (sent w ++ [(clients w, ev)]) (set_reads (S (reads w)) w) in
    on_dev_status sid data w
      = (match data with Some _ => Ok () | None => Throw end,
         pushed (dev_status payload)) ∧
    on_activity_broadcast sid data w = (Ok (), pushed (activity_broadcast payload)) ∧
    payload !! "clientId" = Some (JStr sid) ∧
    payload !! "timestamp" = Some (JNum (clock w (reads w))) ∧
    ∀ k, k ≠ "clientId" → k ≠ "timestamp" → payload !! k = data ≫= (.!! k).
Proof.
  exists (relay_payload (default ∅ data) sid (clock w (reads w))).
  cbn zeta. split; [|split; [|split; [|split]]].
  - unfold on_dev_status. eff_unfold. destruct w, data; reflexivity.
  - unfold on_activity_broadcast. eff_unfold. destruct w; reflexivity.
  - unfold relay_payload. rewrite lookup_insert_ne by done. by rewrite lookup_insert_eq.
  - unfold relay_payload. by rewrite lookup_insert_eq.
  - intros k H1 H2. unfold relay_payload. rewrite !lookup_insert_ne by done.
    by destruct data.
Qed.

Example relay_overrides_client_fields :
  (λ r, (r.1, (λ e, (e.1, match e.2 with
                          | dev_status payload =>
                              (payload !! "status", payload !! "clientId",
                               payload !! "timestamp")
                          | _ => (None, None, None)
                          end)) <$> sent r.2))
    (on_dev_status "s1" (Some status_note) file_world)
  = (Ok (),
     [({["s1"; "s2"]},
       (Some (JStr "building"), Some (JStr "s1"), Some (JNum (demo_clock 0))))]).
Proof. reflexivity. Qed.

(** ** The earlier server, and ids of the wrong shape *)

Lemma exec_update_cols sets n db db' :
  exec_update sets (Some (JNum n)) db = Some db' →
  tasks_id_seq db' = tasks_id_seq db ∧
  Forall2 (λ r r',
             r_id r' = r_id r ∧
             (r_id r ≠ n → r' = r) ∧
             (r_id r = n →
                (∀ c v, (c, v) ∈ sets → coerce c v = Some (get_col c r')) ∧
                (∀ c, c ∉ sets.*1 → get_col c r' = get_col c r)))
          (rows db) (rows db').
Proof.
  unfold exec_update.
  destruct (repeated_column _) eqn:Hrep; [done|].
  apply repeated_column_NoDup in Hrep.
  destruct (coerce_all sets) as [ds|] eqn:Hco; [|done].
  apply coerce_all_spec in Hco as [Hcols Hbind].
  destruct (pg_int int4_max (Some (JNum n))) as [[m|]|] eqn:Hn; [| |done].
  - assert (m = n) as ->.
    { simpl in Hn. destruct (_ && _); by simplify_eq. }
    destruct (update_rows n ds (rows db)) as [rs|] eqn:Hup; [|done].
    simpl. intros [= <-]. split; [done|]. simpl.
    apply update_rows_spec in Hup.
    eapply Forall2_impl; [exact Hup|]. intros r r' H. simpl in H.
    case_decide as Hid.
    + apply store_all_spec in H as (Hid' & Hout & Hin). rewrite Hcols in *.
      split; [done|]. split; [done|]. intros _. split.
      * intros c v Hel. destruct (Hbind c v Hel) as (d & Hd & ->). f_equal.
        symmetry. by apply Hin.
      * done.
    + subst r'. split; [done|]. split; [done|]. intros ?. done.
  - simpl in Hn. destruct (_ && _); done.
Qed.

Lemma server_pg_update_run task w db :
  pgClient w = Some db →
  truthy (task !! "id") && js_gt0 (task !! "id") = true →
  ∃ updated w1,
    ServerPg.saveTaskPG task w =
      (if faults w (calls w) then (Ok false, w1)
       else match exec_update (ServerPg.update_values task updated) (task !! "id") db with
            | Some db' => (Ok true, set_pgClient (Some db') w1)
            | None => (Ok false, w1)
            end) ∧
    pgClient w1 = pgClient w.
Proof.
  intros Hc Hid. unfold ServerPg.saveTaskPG. eff_unfold. rewrite Hc, Hid.
  destruct w as [up i pc tf cl se ck rd fl ca]; simpl in *. subst pc.
  destruct (truthy (task !! "updatedAt")); simpl.
  - exists (task !! "updatedAt"), (mkWorld up i (Some db) tf cl se ck rd fl (S ca)).
    split; [|done]. destruct (fl ca); [done|].
    by destruct (exec_update _ _ _).
  - exists (Some (JNum (ck rd))), (mkWorld up i (Some db) tf cl se ck (S rd) fl (S ca)).
    split; [|done]. destruct (fl ca); [done|].
    by destruct (exec_update _ _ _).
Qed.

Lemma update_values_text task updated k c :
  (k, c) ∈ text_fields → (c, task !! k) ∈ ServerPg.update_values task updated.
Proof.
  intros Hel. unfold text_fields in Hel.
  repeat (apply elem_of_cons in Hel as [[= -> ->]|Hel]; [in_list|]).
  by apply elem_of_nil in Hel.
Qed.

(** X21.  The [saveTaskPG] of the earlier server writes every text column
    on an update: in the row with the payload's id each of the eight text
    columns takes the payload's value, a property the payload lacks
    becomes NULL, [created_at] is kept, and the other rows stay as they
    are. *)
Theorem server_pg_update_writes_every_column (task : obj) (n : Z) (db : Db)
    (w w' : World) :
  pgClient w = Some db →
  task !! "id" = Some (JNum n) → 0 < n →
  ServerPg.saveTaskPG task w = (Ok true, w') →
  ∃ db',
    pgClient w' = Some db' ∧
    Forall2 (λ r r',
               r_id r' = r_id r ∧
               (r_id r ≠ n → r' = r) ∧
               (r_id r = n →
                  (∀ k c, (k, c) ∈ text_fields →
                          coerce c (task !! k) = Some (get_col c r')) ∧
                  (∀ k c, (k, c) ∈ text_fields → task !! k = None →
                          get_col c r' = DNull) ∧
                  r_created_at r' = r_created_at r))
            (rows db) (rows db').
Proof.
  intros Hc Hid Hn Hrun.
  destruct (server_pg_update_run task w db Hc (positive_id_branch _ _ Hid Hn))
    as (updated & w1 & Heq & Hc1).
  rewrite Heq in Hrun. destruct (faults w (calls w)); [done|].
  destruct (exec_update _ _ _) as [db'|] eqn:Hex; [|done].
  injection Hrun as <-. exists db'. split; [done|].
  rewrite Hid in Hex. apply exec_update_cols in Hex as [_ Hrows].
  eapply Forall2_impl; [exact Hrows|]. intros r r' (H1 & H2 & H3).
  split; [done|]. split; [done|]. intros Heq'. destruct (H3 Heq') as [Hin Hout].
  split; [|split].
  - intros k c Hel. apply Hin. by apply update_values_text.
  - intros k c Hel Hnone.
    assert (coerce c (task !! k) = Some (get_col c r')) as Hco
      by (apply Hin; by apply update_values_text).
    rewrite Hnone in Hco.
    assert (coerce c None = Some DNull) as Hnull by (by destruct c).
    congruence.
  - apply from_option_DInt_inj. apply (Hout c_created_at). simpl.
    rewrite !elem_of_cons, elem_of_nil. naive_solver.
Qed.

Lemma server_pg_update_writes_every_column_witness :
  ∃ db',
    pgClient (ServerPg.saveTaskPG full_update pg_world).2 = Some db' ∧
    Forall2 (λ r r',
               r_id r' = r_id r ∧
               (r_id r ≠ 1 → r' = r) ∧
               (r_id r = 1 →
                  (∀ k c, (k, c) ∈ text_fields →
                          coerce c (full_update !! k) = Some (get_col c r')) ∧
                  (∀ k c, (k, c) ∈ text_fields → full_update !! k = None →
                          get_col c r' = DNull) ∧
                  r_created_at r' = r_created_at r))
            (rows demo_db) (rows db').
Proof.
  apply (server_pg_update_writes_every_column full_update 1 demo_db pg_world
           (ServerPg.saveTaskPG full_update pg_world).2);
    [reflexivity | reflexivity | lia | reflexivity].
Defined.

Example server_pg_update_clears :
  (λ r, (r.1, rows <$> pgClient r.2)) (ServerPg.saveTaskPG full_update pg_world)
  = (Ok true,
     Some [ mkRow 1 "Deploy now" None None None None None None None
                  (Some 1000) (Some 3000);
            demo_row2 ]).
Proof. reflexivity. Qed.

(** X22.  The [saveTaskPG] of the earlier server cannot update an existing
    row from a payload without [title]: the statement would set the NOT
    NULL column to NULL, so the call returns [false] and the table stays as
    it was. *)
Theorem server_pg_update_needs_title (task : obj) (n : Z) (db : Db) (w : World) :
  pgClient w = Some db →
  task !! "id" = Some (JNum n) → 0 < n →
  n ∈ r_id <$> rows db →
  task !! "title" = None →
  ∃ w', ServerPg.saveTaskPG task w = (Ok false, w') ∧ pgClient w' = pgClient w.
Proof.
  intros Hc Hid Hn Hrow Htitle.
  destruct (server_pg_update_run task w db Hc (positive_id_branch _ _ Hid Hn))
    as (updated & w1 & Heq & Hc1).
  rewrite Heq. destruct (faults w (calls w)); [by eexists|].
  destruct (exec_update _ _ _) as [db'|] eqn:Hex; [|by eexists].
  exfalso. rewrite Hid in Hex. apply exec_update_cols in Hex as [_ Hrows].
  apply list_elem_of_fmap in Hrow as (r & Hr & Hel).
  apply list_elem_of_lookup in Hel as [i Hi].
  destruct (Forall2_lookup_l _ _ _ _ _ Hrows Hi) as (r' & _ & _ & _ & H3).
  destruct (H3 (eq_sym Hr)) as [Hin _].
  assert (coerce c_title (task !! "title") = Some (get_col c_title r')) as Hco
    by (apply Hin; in_list).
  rewrite Htitle in Hco. done.
Qed.

Lemma server_pg_update_needs_title_witness :
  ∃ w', ServerPg.saveTaskPG untitled_update pg_world = (Ok false, w') ∧
        pgClient w' = pgClient pg_world.
Proof.
  apply (server_pg_update_needs_title untitled_update 1 demo_db pg_world);
    [reflexivity | reflexivity | lia | | reflexivity].
  apply list_elem_of_here.
Defined.

(** X23.  An id above 2147483647 (any id minted from the clock, as the
    file backend and the Clawd notification do) is refused by the
    relational backend: delete and update both return [false] and leave
    the table as it was. *)
Theorem wide_id_is_refused (task : obj) (n : Z) (db : Db) (w : World) :
  pgClient w = Some db →
  int4_max < n →
  task !! "id" = Some (JNum n) →
  (∃ w', deleteTaskPG (Some (JNum n)) w = (Ok false, w') ∧ pgClient w' = pgClient w) ∧
  (∃ w', saveTaskPG task w = (Ok false, w') ∧ pgClient w' = pgClient w).
Proof.
  intros Hc Hn Hid.
  assert (pg_int int4_max (Some (JNum n)) = None) as Hpg.
  { simpl. destruct (Z.leb_spec n int4_max); [lia|]. by rewrite andb_false_r. }
  split.
  - rewrite deleteTaskPG_run, Hc. unfold exec_delete. rewrite Hpg.
    destruct (faults w (calls w)); by eexists.
  - assert (0 < n) as Hpos by (unfold int4_max in Hn; lia).
    rewrite (saveTaskPG_update_run _ _ db Hc (positive_id_branch _ _ Hid Hpos)). cbn zeta.
    destruct (faults w (calls w)); [by eexists|].
    unfold exec_update. rewrite Hid, Hpg.
    destruct (repeated_column _); [by eexists|].
    destruct (coerce_all _); by eexists.
Qed.

Lemma wide_id_is_refused_witness :
  (∃ w', deleteTaskPG (Some (JNum file_minted)) pg_world = (Ok false, w') ∧
         pgClient w' = pgClient pg_world) ∧
  (∃ w', saveTaskPG {[ "id" := JNum file_minted ]} pg_world = (Ok false, w') ∧
         pgClient w' = pgClient pg_world).
Proof.
  apply (wide_id_is_refused {[ "id" := JNum file_minted ]} file_minted demo_db pg_world);
    [reflexivity | unfold int4_max, file_minted; lia | reflexivity].
Defined.

Lemma digit_is_no_blank c : is_digit c = true → is_blank c = false.
Proof. destruct c as [[|] [|] [|] [|] [|] [|] [|] [|]]; done. Qed.

Lemma digits_have_no_blanks s : ∀ acc n,
  digits_value acc s = Some n → drop_blanks s = s ∧ drop_blanks_end s = s.
Proof.
  induction s as [|c s IH]; intros acc n H; [done|].
  simpl in H. destruct (is_digit c) eqn:Hd; [|done].
  apply IH in H as [_ He]. simpl. rewrite He, (digit_is_no_blank c Hd). done.
Qed.

Lemma decimal_literal_no_blanks s n :
  decimal_literal s = Some n → drop_blanks_end (drop_blanks s) = s.
Proof.
  intros H.
  assert (drop_blanks s = s ∧ drop_blanks_end s = s) as [-> ->]; [|done].
  destruct s as [|c s]; [done|].
  destruct (is_digit c) eqn:Hd.
  - assert (digits_value 0 (String c s) = Some n) as Hv.
    { revert H Hd. unfold decimal_literal.
      destruct c as [[|] [|] [|] [|] [|] [|] [|] [|]]; try done. }
    by eapply digits_have_no_blanks.
  - assert (is_blank c = false ∧ ∃ m, digits_value 0 s = Some m) as [Hb [m Hm]].
    { revert H Hd. unfold decimal_literal.
      destruct c as [[|] [|] [|] [|] [|] [|] [|] [|]]; try done;
        (destruct s as [|a s]; [done|]);
        intros H _; (split; [done|]);
        destruct (digits_value 0 (String a s)) as [m|] eqn:E; try done; by exists m. }
    apply digits_have_no_blanks in Hm as [_ He]. simpl. by rewrite He, Hb.
Qed.

(** X24.  An id sent as a decimal string names the row with that number
    on the relational backend (the delete is the same as with the number)
    but none of the tasks in the file, whose ids are numbers: the
    file-backed delete rewrites the file unchanged and the file-backed
    update reports failure. *)
Theorem string_id_names_a_row_only_in_the_table (s : string) (n : Z)
    (tasks : list obj) (w : World) :
  decimal_literal s = Some n →
  - int4_max - 1 ≤ n ≤ int4_max →
  tasks_file w = Some (TaskArray tasks) →
  Forall (λ t, ∃ m, t !! "id" = Some (JNum m)) tasks →
  faults w (calls w) = false → faults w (S (calls w)) = false →
  deleteTaskPG (Some (JStr s)) w = deleteTaskPG (Some (JNum n)) w ∧
  (∃ w', delete_local (Some (JStr s)) w = (Ok true, w') ∧
         tasks_file w' = Some (TaskArray tasks)) ∧
  (∀ task, task !! "id" = Some (JStr s) → (update_local task w).1 = Ok false).
Proof.
  intros Hs Hn Hf Hnum F1 F2.
  assert (Forall (λ t : obj, t !! "id" ≠ Some (JStr s)) tasks) as Hne.
  { eapply Forall_impl; [exact Hnum|]. intros t [m ->]. done. }
  split; [|split].
  - rewrite !deleteTaskPG_run. destruct (pgClient w) as [db|]; [|done].
    assert (exec_delete (Some (JStr s)) db = exec_delete (Some (JNum n)) db) as ->; [|done].
    unfold exec_delete. simpl. rewrite (decimal_literal_no_blanks s n Hs), Hs. done.
  - rewrite delete_local_run, Hf. cbn zeta. simpl calls. rewrite F1, F2.
    eexists. split; [done|]. simpl. by rewrite filter_all.
  - intros task Hid. rewrite update_local_run, Hf. cbn zeta. rewrite F1, Hid.
    by rewrite (proj1 (findIndex_None _ _) Hne).
Qed.

Lemma string_id_names_a_row_only_in_the_table_witness :
  deleteTaskPG (Some (JStr "7")) file_world = deleteTaskPG (Some (JNum 7)) file_world ∧
  (∃ w', delete_local (Some (JStr "7")) file_world = (Ok true, w') ∧
         tasks_file w' = Some (TaskArray [demo_task])) ∧
  (∀ task, task !! "id" = Some (JStr "7") → (update_local task file_world).1 = Ok false).
Proof.
  apply (string_id_names_a_row_only_in_the_table "7" 7 [demo_task] file_world);
    [reflexivity | unfold int4_max; lia | reflexivity | | reflexivity | reflexivity].
  constructor; [|constructor]. exists 7. reflexivity.
Defined.

(** ** The first server *)

Lemma server_file_getTasks_run w :
  ServerFile.getTasks w =
    match tasks_file w with
    | Some (TaskArray tasks) =>
        if faults w (calls w)
        then (Ok (ServerFile.seed_tasks (clock w (reads w)) (clock w (S (reads w)))),
              set_reads (S (S (reads w))) (set_calls (S (calls w)) w))
        else (Ok tasks, set_calls (S (calls w)) w)
    | Some Unparsable =>
        (Ok (ServerFile.seed_tasks (clock w (reads w)) (clock w (S (reads w)))),
         set_reads (S (S (reads w))) (set_calls (S (calls w)) w))
    | None =>
        (Ok (ServerFile.seed_tasks (clock w (reads w)) (clock w (S (reads w)))),
         set_reads (S (S (reads w))) w)
    end.
Proof.
  unfold ServerFile.getTasks, fs_existsSync, read_and_parse. eff_unfold.
  destruct w as [up i pc tf cl se ck rd fl ca]; simpl.
  destruct tf as [[tasks|]|]; simpl; try done; by destruct (fl ca).
Qed.

Lemma server_file_getTasks_file w :
  ∃ tasks w1, ServerFile.getTasks w = (Ok tasks, w1) ∧ tasks_file w1 = tasks_file w ∧
              usePostgres w1 = usePostgres w ∧ pgClient w1 = pgClient w ∧ sent w1 = sent w.
Proof.
  rewrite server_file_getTasks_run.
  destruct (tasks_file w) as [[tasks|]|] eqn:Hf; [destruct (faults w (calls w))| |];
    by eexists _, _.
Qed.

Lemma server_file_mutate_file data tasks w r w' :
  ServerFile.mutate data tasks w = (r, w') →
  w' = w ∨ w' = set_reads (S (reads w)) w ∨ w' = set_reads (S (S (S (reads w)))) w.
Proof.
  unfold ServerFile.mutate. eff_unfold.
  destruct (is_action data "update").
  { destruct (task data) as [payload|].
    - destruct (findIndex _ _); intros [= <- <-]; auto.
    - case_bool_decide; intros [= <- <-]; auto. }
  destruct (is_action data "add").
  { intros [= <- <-]. right; right. by destruct w. }
  destruct (is_action data "delete"); intros [= <- <-]; auto.
Qed.

(** X25.  In the first server every success reply carries exactly the list
    that was written: when POST /api/tasks answers [success: true, tasks],
    the file holds that list. *)
Theorem first_server_reply_is_what_is_stored (body : option Mutation)
    (tasks : list obj) (w w' : World) :
  ServerFile.post_tasks body w = (Ok (ServerFile.success_response tasks), w') →
  tasks_file w' = Some (TaskArray tasks).
Proof.
  unfold ServerFile.post_tasks, try_catch. destruct body as [data|]; [|done].
  unfold mbind at 1, Eff_bind, eff_bind.
  destruct (server_file_getTasks_file w) as (found & w1 & -> & _).
  unfold mbind at 1, Eff_bind, eff_bind.
  destruct (ServerFile.mutate data found w1) as [[next|] w2] eqn:Hm; [|done].
  unfold ServerFile.saveTasks, external. eff_unfold.
  destruct (faults w2 (calls w2)); [done|]. by intros [= <- <-].
Qed.

Lemma first_server_reply_is_what_is_stored_witness :
  tasks_file (ServerFile.post_tasks (Some move_request) file_world).2
    = Some (TaskArray [demo_task]).
Proof.
  apply (first_server_reply_is_what_is_stored (Some move_request) [demo_task] file_world
           (ServerFile.post_tasks (Some move_request) file_world).2).
  reflexivity.
Defined.

(** X26.  The first server answers success to requests that do nothing:
    with no call failing, an action that is none of update, add and
    delete, or an update naming an id no task has, is answered
    [success: true] with the list as it was read, and that list is written
    back; with no file there, the list read is the two seed tasks. *)
Theorem first_server_succeeds_without_effect (data : Mutation) (w : World) :
  no_faults w →
  ∃ tasks w1,
    ServerFile.getTasks w = (Ok tasks, w1) ∧
    (tasks_file w = None →
       tasks = ServerFile.seed_tasks (clock w (reads w)) (clock w (S (reads w)))) ∧
    (no_op data tasks →
       ∃ w', ServerFile.post_tasks (Some data) w
               = (Ok (ServerFile.success_response tasks), w') ∧
             tasks_file w' = Some (TaskArray tasks)).
Proof.
  intros Hnf.
  destruct (ServerFile.getTasks w) as [r w1] eqn:Hget.
  assert (∃ tasks, r = Ok tasks ∧ faults w1 = faults w ∧
            (tasks_file w = None →
             tasks = ServerFile.seed_tasks (clock w (reads w)) (clock w (S (reads w)))))
    as (tasks & -> & Hf1 & Hseed).
  { rewrite server_file_getTasks_run in Hget.
    destruct (tasks_file w) as [[tasks|]|]; [rewrite Hnf in Hget| |];
      injection Hget as <- <-; by eexists. }
  exists tasks, w1. split; [done|]. split; [done|].
  intros Hno.
  assert (ServerFile.mutate data tasks w1 = (Ok tasks, w1)) as Hm.
  { unfold ServerFile.mutate. destruct Hno as [Hno|(Hup & payload & Ht & Hnone)].
    - pose proof (Hno op_update) as H1. pose proof (Hno op_add) as H2.
      pose proof (Hno op_delete) as H3. simpl in H1, H2, H3.
      by rewrite H1, H2, H3.
    - rewrite Hup, Ht. by rewrite (proj1 (findIndex_None _ _) Hnone). }
  unfold ServerFile.post_tasks, try_catch.
  unfold mbind at 1, Eff_bind, eff_bind. rewrite Hget.
  unfold mbind at 1, Eff_bind, eff_bind. rewrite Hm.
  unfold ServerFile.saveTasks, external. eff_unfold.
  rewrite Hf1, Hnf. by eexists.
Qed.

Lemma first_server_succeeds_without_effect_witness :
  ∃ w', ServerFile.post_tasks (Some move_request) missing_file_world
          = (Ok (ServerFile.success_response
                   (ServerFile.seed_tasks (demo_clock 0) (demo_clock 1))), w') ∧
        tasks_file w'
          = Some (TaskArray (ServerFile.seed_tasks (demo_clock 0) (demo_clock 1))).
Proof.
  destruct (first_server_succeeds_without_effect move_request missing_file_world)
    as (tasks & w1 & Hget & Hseed & Hpost); [intros k; reflexivity|].
  rewrite (Hseed eq_refl) in Hpost. apply Hpost.
  left. intros o. destruct o; reflexivity.
Defined.

Example first_server_update_of_missing_id :
  (λ r, (r.1, tasks_file r.2))
    (ServerFile.post_tasks
       (Some (mkMutation (Some (JStr "update")) (Some retitle_9) None)) file_world)
  = (Ok (ServerFile.success_response [demo_task]), Some (TaskArray [demo_task])).
Proof. reflexivity. Qed.

(** X27.  Loading the first server leaves a tasks file behind when the
    write goes through: a file that is there is left as it is, and where
    there is none the two seed tasks are written, stamped with two clock
    readings. *)
Theorem first_server_seeds_missing_file (w : World) :
  faults w (calls w) = false →
  ∃ w',
    ServerFile.save_initial_tasks w = (Ok (), w') ∧
    tasks_file w' =
      match tasks_file w with
      | Some f => Some f
      | None => Some (TaskArray (ServerFile.seed_tasks (clock w (reads w))
                                   (clock w (S (reads w)))))
      end.
Proof.
  intros Hok. unfold ServerFile.save_initial_tasks.
  unfold mbind at 1, Eff_bind, eff_bind. rewrite server_file_getTasks_run.
  unfold fs_existsSync, ServerFile.saveTasks, external. eff_unfold.
  destruct w as [up i pc tf cl se ck rd fl ca]; simpl in *.
  destruct tf as [[tasks|]|]; simpl.
  - rewrite Hok. simpl. by eexists.
  - by eexists.
  - rewrite Hok. by eexists.
Qed.

Lemma first_server_seeds_missing_file_witness :
  ∃ w',
    ServerFile.save_initial_tasks missing_file_world = (Ok (), w') ∧
    tasks_file w' =
      match tasks_file missing_file_world with
      | Some f => Some f
      | None => Some (TaskArray (ServerFile.seed_tasks
                                   (clock missing_file_world (reads missing_file_world))
                                   (clock missing_file_world
                                      (S (reads missing_file_world)))))
      end.
Proof.
  apply (first_server_seeds_missing_file missing_file_world). reflexivity.
Defined.
